(** * GNSS tracker: buffering, flushing and the persistent file index

    A shallow embedding of the [gnss_tracker] sketch: [GetFileNumber],
    [SetupPositioning], [setup] and [loop], together with the C library
    routines they rely on ([strtoul], [snprintf "%08d"], [strncat]) and
    the flash file helpers they call. *)

From Stdlib Require Import Ascii String.
From stdpp Require Import gmap strings list.

Local Open Scope Z_scope.

(** ** Machine integers

    The target is a 32-bit ARM core: [int] and [unsigned long] are both
    32 bits wide.  Values live in [Z]; the wrap-around is explicit. *)

Definition ULONG_MAX : Z := 2 ^ 32 - 1.
Definition INT_MAX : Z := 2 ^ 31 - 1.

Definition to_ulong (z : Z) : Z := z mod 2 ^ 32.
Definition to_int (z : Z) : Z := (z + 2 ^ 31) mod 2 ^ 32 - 2 ^ 31.

(** [FileCount++] on an [int].  Past [INT_MAX] the C standard leaves the
    result open; the wrap-around of the target is written here. *)
Definition int_incr (z : Z) : Z := to_int (z + 1).

(** ** Configuration macros *)

Definition INDEX_FILE_SIZE : nat := 16.
Definition NMEA_BUFFER_SIZE : nat := 128.
Definition OUTPUT_FILENAME_LEN : nat := 32.
Definition POSITIONING_INTERVAL : Z := 5.
Definition DATA_WRITE_INTERVAL : Z := 60.
Definition NUMBER_OF_CACHE : Z := DATA_WRITE_INTERVAL / POSITIONING_INTERVAL.
Definition MEMORY_BUFFER_SIZE : nat := NMEA_BUFFER_SIZE * Z.to_nat NUMBER_OF_CACHE.

Global Arguments NUMBER_OF_CACHE : simpl never.
Global Arguments MEMORY_BUFFER_SIZE : simpl never.

(** The tracker takes [DATA_DIR_NAME] from a header; the dumper sketch that
    reads the tracker's files back spells it out. *)
Definition DATA_DIR_NAME : string := "gnss_tracker/".
Definition INDEX_FILE_NAME : string := DATA_DIR_NAME +:+ "index.ini".

(** ** C strings and the C library *)

Definition NUL : ascii := "000"%char.

(** The line feed that a C literal spells [\n]. *)
Definition endl : string := String "010"%char EmptyString.

(** The characters of a C string stored at the start of [mem]: everything
    before the first NUL. *)
Fixpoint c_str (mem : list ascii) : list ascii :=
  match mem with
  | [] => []
  | c :: rest => if Ascii.eqb c NUL then [] else c :: c_str rest
  end.

Definition strlen (mem : list ascii) : nat := length (c_str mem).

(** [strncat(dst, src, n)]: the string in [dst] gains at most [n]
    characters of the string in [src]. *)
Definition strncat (dst src : list ascii) (n : nat) : list ascii :=
  c_str dst ++ take n (c_str src).

Definition isspace (c : ascii) : bool :=
  let n := nat_of_ascii c in
  (n =? 32)%nat || ((9 <=? n)%nat && (n <=? 13)%nat).

Definition digit_val (c : ascii) : option Z :=
  let n := Z.of_nat (nat_of_ascii c) in
  if (48 <=? n) && (n <=? 57) then Some (n - 48) else None.

Fixpoint skip_space (s : list ascii) : list ascii :=
  match s with
  | c :: rest => if isspace c then skip_space rest else s
  | [] => []
  end.

(** Accumulate the leading decimal digits of [s]. *)
Fixpoint scan_digits (s : list ascii) (acc : Z) : Z :=
  match s with
  | c :: rest =>
      match digit_val c with
      | Some d => scan_digits rest (acc * 10 + d)
      | None => acc
      end
  | [] => acc
  end.

(** [strtoul(s, NULL, 10)]: white space, an optional sign, digits; a value
    that does not fit saturates to [ULONG_MAX], a minus sign negates in
    [unsigned long]. *)
Definition strtoul (s : list ascii) : Z :=
  let s1 := skip_space s in
  let '(neg, s2) :=
    match s1 with
    | "-"%char :: t => (true, t)
    | "+"%char :: t => (false, t)
    | _ => (false, s1)
    end in
  let v := scan_digits s2 0 in
  if ULONG_MAX <? v then ULONG_MAX
  else if neg : bool then to_ulong (- v) else v.

(** The number that [strtoul] is reading stops at the head of [rest]. *)
Definition ends_number (rest : list ascii) : bool :=
  match rest with
  | c :: _ => match digit_val c with Some _ => false | None => true end
  | [] => true
  end.

Definition digit_char (d : Z) : ascii := ascii_of_nat (48 + Z.to_nat d).

(** Decimal digits of a non-negative number, least significant first. *)
Fixpoint dec_le (fuel : nat) (n : Z) : list ascii :=
  match fuel with
  | O => []
  | S f => digit_char (n mod 10) :: (if n / 10 =? 0 then [] else dec_le f (n / 10))
  end.

(** An [int] has at most ten decimal digits. *)
Definition dec (n : Z) : list ascii := rev (dec_le 10 n).

Definition pad0 (width : nat) (ds : list ascii) : list ascii :=
  replicate (width - length ds) "0"%char ++ ds.

(** The text [printf] produces for ["%08d"]: the sign counts towards the
    width of eight. *)
Definition fmt_08d (n : Z) : list ascii :=
  if n <? 0 then "-"%char :: pad0 7 (dec (- n)) else pad0 8 (dec n).

(** [snprintf(buf, size, "%08d", n)]: at most [size - 1] characters are
    stored before the terminator. *)
Definition snprintf_08d (size : nat) (n : Z) : list ascii :=
  take (size - 1) (fmt_08d n).

(** ** Flash storage *)

Inductive OpenFlag := FILE_READ | FILE_WRITE | FILE_WRITE_O_APPEND.

Definition file_bytes (fs : gmap string (list ascii)) (name : string) : list ascii :=
  default [] (fs !! name).

(** Modelled from the spec: [ReadChar] of gnss_file is not among the
    sources.  It reads the named record into the caller's buffer and
    returns the number of bytes read: 0 when the record is absent or
    unreadable ([ok = false]).  Bytes of the buffer beyond those read keep
    what they held before the call. *)
Definition ReadChar (pBuff : list ascii) (BufferSize : nat) (name : string)
    (flag : OpenFlag) (ok : bool) (fs : gmap string (list ascii)) : nat * list ascii :=
  match fs !! name with
  | Some content =>
      if ok then
        let got := take BufferSize content in
        (length got, got ++ drop (length got) pBuff)
      else (0%nat, pBuff)
  | None => (0%nat, pBuff)
  end.

(** Modelled from the spec: [Remove] of gnss_file is not among the sources.
    It deletes the named record; like every storage call it may fail
    ([ok = false]), leaving the record in place. *)
Definition Remove (name : string) (ok : bool)
    (fs : gmap string (list ascii)) : gmap string (list ascii) :=
  if ok then delete name fs else fs.

(** Modelled from the spec: [WriteChar] of gnss_file is not among the
    sources.  It writes the C string [pBuff] to the named file, created
    when absent, and returns the number of bytes the storage reports as
    written; [room] is how many bytes the storage takes this time.  With
    [O_APPEND] the bytes go after the file's present contents, otherwise
    they replace the prior record. *)
Definition WriteChar (pBuff : list ascii) (name : string) (flag : OpenFlag)
    (room : nat) (fs : gmap string (list ascii)) : nat * gmap string (list ascii) :=
  let sent := take room (c_str pBuff) in
  let base :=
    match flag with
    | FILE_WRITE_O_APPEND => file_bytes fs name
    | _ => []
    end in
  (length sent, <[name := base ++ sent]> fs).

(** ** The persistent file index *)

(** What the storage does during one call of [GetFileNumber]. *)
Record IndexIo := {
  rd_ok : bool;    (* the index record can be opened and read *)
  rm_ok : bool;    (* the removal goes through *)
  wr_room : nat    (* bytes the storage takes from the rewrite *)
}.

(** Lines 151-153, "Update index.txt": the count is printed into
    [IndexData] and written out.  What [WriteChar] returns is dropped. *)
Definition commit (FileCount : Z) (room : nat)
    (fs : gmap string (list ascii)) : gmap string (list ascii) :=
  let IndexData := snprintf_08d INDEX_FILE_SIZE FileCount in
  let '(_, fs') := WriteChar IndexData INDEX_FILE_NAME FILE_WRITE room fs in
  fs'.

(** [IndexData] is a local array that the function does not initialise:
    [stack] is what those 16 bytes hold on entry. *)
Definition GetFileNumber (stack : list ascii) (io : IndexIo)
    (fs : gmap string (list ascii)) : Z * gmap string (list ascii) :=
  let '(ReadSize, IndexData) :=
    ReadChar stack INDEX_FILE_SIZE INDEX_FILE_NAME FILE_READ (rd_ok io) fs in
  let '(FileCount, fs1) :=
    if negb (ReadSize =? 0)%nat
    then (int_incr (to_int (strtoul IndexData)),
          Remove INDEX_FILE_NAME (rm_ok io) fs)
    else (1, fs) in
  (to_ulong FileCount, commit FileCount (wr_room io) fs1).

Definition txt (s : string) : list ascii := list_ascii_of_string s.

(** ** The tracker *)

(** Satellite-type masks of the GNSS library, which is not part of the
    sketch: the code only tests bits of [posSatelliteType] against them. *)
Class GnssSdk := { GPS : Z; QZ_L1CA : Z; QZ_L1S : Z }.

(** The fields of [SpNavData] that the sketch reads. *)
Record SpNavData := {
  posDataExist : Z;
  posFixMode : Z;
  posSatelliteType : Z
}.

Inductive Pin := PIN_LED0 | PIN_LED1 | PIN_LED2 | PIN_LED3.

Record Leds := { led0 : bool; led1 : bool; led2 : bool; led3 : bool }.

(** Requests made through the [APP_PRINT_E] and [APP_PRINT_I] macros, in
    the order they are made; which of them reach the serial port depends on
    [AppDebugPrintLevel]. *)
Inductive Printed :=
  | APP_PRINT_E (msg : string)
  | APP_PRINT_I (msg : string)
  | APP_PRINT_I_num (n : Z).

(** The statics of [loop], the globals it touches, the LEDs, the flash and
    the serial console.  [pNmeaBuff = None] is the NULL pointer; an
    allocated buffer is [MEMORY_BUFFER_SIZE] bytes holding a C string. *)
Record Tracker := {
  PosFixflag : bool;
  pNmeaBuff : option (list ascii);
  WriteCounter : Z;
  FilenameTxt : string;
  leds : Leds;
  flash : gmap string (list ascii);
  console : list Printed
}.

Definition set_PosFixflag (v : bool) (st : Tracker) : Tracker :=
  {| PosFixflag := v; pNmeaBuff := pNmeaBuff st; WriteCounter := WriteCounter st;
     FilenameTxt := FilenameTxt st; leds := leds st; flash := flash st;
     console := console st |}.

Definition set_pNmeaBuff (v : option (list ascii)) (st : Tracker) : Tracker :=
  {| PosFixflag := PosFixflag st; pNmeaBuff := v; WriteCounter := WriteCounter st;
     FilenameTxt := FilenameTxt st; leds := leds st; flash := flash st;
     console := console st |}.

Definition set_WriteCounter (v : Z) (st : Tracker) : Tracker :=
  {| PosFixflag := PosFixflag st; pNmeaBuff := pNmeaBuff st; WriteCounter := v;
     FilenameTxt := FilenameTxt st; leds := leds st; flash := flash st;
     console := console st |}.

Definition set_FilenameTxt (v : string) (st : Tracker) : Tracker :=
  {| PosFixflag := PosFixflag st; pNmeaBuff := pNmeaBuff st;
     WriteCounter := WriteCounter st; FilenameTxt := v; leds := leds st;
     flash := flash st; console := console st |}.

Definition set_leds (v : Leds) (st : Tracker) : Tracker :=
  {| PosFixflag := PosFixflag st; pNmeaBuff := pNmeaBuff st;
     WriteCounter := WriteCounter st; FilenameTxt := FilenameTxt st; leds := v;
     flash := flash st; console := console st |}.

Definition set_flash (v : gmap string (list ascii)) (st : Tracker) : Tracker :=
  {| PosFixflag := PosFixflag st; pNmeaBuff := pNmeaBuff st;
     WriteCounter := WriteCounter st; FilenameTxt := FilenameTxt st;
     leds := leds st; flash := v; console := console st |}.

Definition print (p : Printed) (st : Tracker) : Tracker :=
  {| PosFixflag := PosFixflag st; pNmeaBuff := pNmeaBuff st;
     WriteCounter := WriteCounter st; FilenameTxt := FilenameTxt st;
     leds := leds st; flash := flash st; console := console st ++ [p] |}.

Definition led_write (pin : Pin) (v : bool) (l : Leds) : Leds :=
  match pin with
  | PIN_LED0 => {| led0 := v; led1 := led1 l; led2 := led2 l; led3 := led3 l |}
  | PIN_LED1 => {| led0 := led0 l; led1 := v; led2 := led2 l; led3 := led3 l |}
  | PIN_LED2 => {| led0 := led0 l; led1 := led1 l; led2 := v; led3 := led3 l |}
  | PIN_LED3 => {| led0 := led0 l; led1 := led1 l; led2 := led2 l; led3 := v |}
  end.

Definition ledOn (pin : Pin) (st : Tracker) : Tracker :=
  set_leds (led_write pin true (leds st)) st.

Definition ledOff (pin : Pin) (st : Tracker) : Tracker :=
  set_leds (led_write pin false (leds st)) st.

Definition Led_isPosfix (state : bool) (st : Tracker) : Tracker :=
  if state then ledOn PIN_LED0 st else ledOff PIN_LED0 st.

Definition Led_isStorageAccess (state : bool) (st : Tracker) : Tracker :=
  if state then ledOn PIN_LED3 st else ledOff PIN_LED3 st.

(** The body of [Led_isError] is commented out in the sketch: the call
    drives no LED. *)
Definition Led_isError (state : bool) (st : Tracker) : Tracker := st.

(** *** Startup *)

Definition NMEA_FILE_NAME (FileCount : Z) : list ascii :=
  txt DATA_DIR_NAME ++ fmt_08d FileCount ++ txt ".txt".

(** What the board and the storage do during [setup]. *)
Record SetupIn := {
  sd_ok : bool;           (* BeginSDCard() *)
  gnss_begin_ok : bool;   (* Gnss.begin(Serial) == 0 *)
  gnss_start_ok : bool;   (* Gnss.start(HOT_START) == OK *)
  index_stack : list ascii;
  index_io : IndexIo
}.

(** Line 206: the name printed into [FilenameTxt]. *)
Definition session_file (FileCount : Z) : string :=
  string_of_list_ascii (take (OUTPUT_FILENAME_LEN - 1) (NMEA_FILE_NAME FileCount)).

Definition SetupPositioning (i : SetupIn) (st : Tracker) : Z * Tracker :=
  let '(error_flag, st) :=
    if sd_ok i then (0, st)
    else (1, print (APP_PRINT_E ("SD begin error!!" +:+ endl)) st) in
  let '(error_flag, st) :=
    if negb (gnss_begin_ok i)
    then (1, print (APP_PRINT_E ("Gnss begin error!!" +:+ endl)) st)
    else
      let st := print (APP_PRINT_I ("Gnss begin OK." +:+ endl)) st in
      if negb (gnss_start_ok i)
      then (1, print (APP_PRINT_E ("Gnss start error!!" +:+ endl)) st)
      else (error_flag, st) in
  let '(n, fs) := GetFileNumber (index_stack i) (index_io i) (flash st) in
  let FileCount := to_int n in
  (error_flag, set_FilenameTxt (session_file FileCount) (set_flash fs st)).

Definition all_leds (v : bool) : Leds :=
  {| led0 := v; led1 := v; led2 := v; led3 := v |}.

Definition setup (i : SetupIn) (st : Tracker) : Tracker :=
  let st := set_leds (all_leds true) st in
  let '(error_flag, st) := SetupPositioning i st in
  let st := set_leds (all_leds false) st in
  if error_flag =? 1 then Led_isError true st else st.

(** The machine at power-on, before [setup]: zeroed globals, the statics
    of [loop] at their initialisers, whatever the flash holds. *)
Definition power_on (fs : gmap string (list ascii)) : Tracker :=
  {| PosFixflag := false; pNmeaBuff := None; WriteCounter := NUMBER_OF_CACHE;
     FilenameTxt := ""; leds := all_leds false; flash := fs; console := [] |}.

(** *** One pass of [loop] *)

(** What the outside world supplies during one pass. *)
Record LoopIn := {
  waitUpdate : bool;          (* Gnss.waitUpdate(...) *)
  NavData : SpNavData;        (* Gnss.getNavData *)
  NmeaString : list ascii;    (* getNmeaGga(&NavData) *)
  malloc_ok : bool;           (* malloc returns non-NULL, if called *)
  wr_room_txt : nat           (* bytes the storage takes, if written to *)
}.

Section Loop.
Context `{GnssSdk}.

(** Lines 273-294: the position-fix LEDs. *)
Definition show_fix (nav : SpNavData) (st : Tracker) : Tracker :=
  let LedSet := negb (posDataExist nav =? 0) && negb (posFixMode nav =? 0) in
  let st :=
    if negb (Bool.eqb (PosFixflag st) LedSet)
    then set_PosFixflag LedSet (Led_isPosfix LedSet st)
    else st in
  if PosFixflag st then
    let st :=
      if negb (0 =? Z.land (posSatelliteType nav) QZ_L1CA)
         || negb (0 =? Z.land (posSatelliteType nav) GPS)
      then ledOn PIN_LED1 st else ledOff PIN_LED1 st in
    if negb (0 =? Z.land (posSatelliteType nav) QZ_L1S)
    then ledOn PIN_LED2 st else ledOff PIN_LED2 st
  else st.

(** Lines 306-312: the buffer is allocated, and cleared, on first use. *)
Definition alloc (ok : bool) (st : Tracker) : Tracker :=
  match pNmeaBuff st with
  | None => if ok then set_pNmeaBuff (Some []) st else st
  | Some _ => st
  end.

(** The test of line 315. *)
Definition has_room (st : Tracker) (s : list ascii) : bool :=
  match pNmeaBuff st with
  | Some buf => (strlen buf + length s <? MEMORY_BUFFER_SIZE)%nat
  | None => false
  end.

(** Lines 314-323: store the line, or give up and ask for a write. *)
Definition append (s : list ascii) (st : Tracker) : Tracker :=
  match pNmeaBuff st with
  | Some buf =>
      if (strlen buf + length s <? MEMORY_BUFFER_SIZE)%nat
      then set_WriteCounter (WriteCounter st - 1)
             (set_pNmeaBuff (Some (strncat buf s MEMORY_BUFFER_SIZE)) st)
      else set_WriteCounter 0
             (Led_isError true
                (print (APP_PRINT_E ("error: no capacity to write" +:+ endl)) st))
  | None =>
      set_WriteCounter 0
        (Led_isError true
           (print (APP_PRINT_E ("error: no capacity to write" +:+ endl)) st))
  end.

(** Lines 296-324. *)
Definition store (i : LoopIn) (st : Tracker) : Tracker :=
  if (strlen (NmeaString i) =? 0)%nat
  then Led_isError true (print (APP_PRINT_E ("getNmea error" +:+ endl)) st)
  else append (NmeaString i) (alloc (malloc_ok i) st).

(** Lines 326-331. *)
Definition log_counter (nav : SpNavData) (st : Tracker) : Tracker :=
  print (APP_PRINT_I endl)
    (print (APP_PRINT_I_num (posSatelliteType nav))
       (print (APP_PRINT_I " / Sat Type : ")
          (print (APP_PRINT_I_num (WriteCounter st))
             (print (APP_PRINT_I "Write Counter : ") st)))).

(** The test of line 334. *)
Definition flush_due (st : Tracker) : bool :=
  (WriteCounter st <=? 0) && bool_decide (pNmeaBuff st <> None).

(** Lines 333-349: write the buffer out and start over. *)
Definition flush (room : nat) (st : Tracker) : Tracker :=
  match pNmeaBuff st with
  | Some buf =>
      if WriteCounter st <=? 0 then
        let st := Led_isStorageAccess true st in
        let '(WriteSize, fs) :=
          WriteChar buf (FilenameTxt st) FILE_WRITE_O_APPEND room (flash st) in
        let st := Led_isStorageAccess false (set_flash fs st) in
        let st :=
          if negb (WriteSize =? strlen buf)%nat
          then Led_isError true
                 (print (APP_PRINT_E "error: wrong size for flash write") st)
          else st in
        set_WriteCounter NUMBER_OF_CACHE (set_pNmeaBuff (Some []) st)
      else st
  | None => st
  end.

(** The tracker as it stands when line 333 is reached. *)
Definition before_flush (i : LoopIn) (st : Tracker) : Tracker :=
  log_counter (NavData i) (store i (show_fix (NavData i) st)).

Definition loop (st : Tracker) (i : LoopIn) : Tracker :=
  if waitUpdate i then flush (wr_room_txt i) (before_flush i st) else st.

Definition run (st : Tracker) (ins : list LoopIn) : Tracker :=
  fold_left loop ins st.

(** *** What a pass does, read off the branches it takes *)

(** The string held in the buffer, and its length. *)
Definition contents (st : Tracker) : list ascii :=
  match pNmeaBuff st with
  | Some buf => c_str buf
  | None => []
  end.

Definition used (st : Tracker) : nat := length (contents st).

(** The tracker as it stands when line 315 is reached. *)
Definition at_append (i : LoopIn) (st : Tracker) : Tracker :=
  alloc (malloc_ok i) (show_fix (NavData i) st).

(** A fix arrived and its line is not empty: line 315 is reached. *)
Definition offers (i : LoopIn) : bool :=
  waitUpdate i && negb (strlen (NmeaString i) =? 0)%nat.

(** Line 315 holds: the line is stored. *)
Definition appends (st : Tracker) (i : LoopIn) : bool :=
  offers i && has_room (at_append i st) (NmeaString i).

(** Line 315 fails: the [else] branch runs. *)
Definition rejects (st : Tracker) (i : LoopIn) : bool :=
  offers i && negb (has_room (at_append i st) (NmeaString i)).

(** Line 315 fails although there is a buffer: the line does not fit. *)
Definition overflows (st : Tracker) (i : LoopIn) : bool :=
  rejects st i && bool_decide (pNmeaBuff (at_append i st) <> None).

(** The block of lines 334-349 runs. *)
Definition flushes (st : Tracker) (i : LoopIn) : bool :=
  waitUpdate i && flush_due (before_flush i st).

(** The string handed to [WriteChar] at line 337, and what it returns. *)
Definition snapshot (st : Tracker) (i : LoopIn) : list ascii :=
  contents (before_flush i st).

Definition WriteSize (st : Tracker) (i : LoopIn) : nat :=
  length (take (wr_room_txt i) (snapshot st i)).

(** The left-hand side of the test of line 315. *)
Definition room_needed (st : Tracker) (i : LoopIn) : nat :=
  used (at_append i st) + length (NmeaString i).

(** Between passes: the counter is never above its reload value, and an
    allocated buffer holds at most [NMEA_BUFFER_SIZE - 1] bytes for each
    line counted off since the reload. *)
Definition paced (st : Tracker) : Prop :=
  WriteCounter st <= NUMBER_OF_CACHE /\
  match pNmeaBuff st with
  | Some buf =>
      1 <= WriteCounter st /\
      Z.of_nat (strlen buf)
        <= Z.of_nat (NMEA_BUFFER_SIZE - 1) * (NUMBER_OF_CACHE - WriteCounter st)
  | None => True
  end.

(** What an observer sees pass after pass along a run. *)
Fixpoint trace {A} (obs : Tracker -> LoopIn -> A)
    (st : Tracker) (ins : list LoopIn) : list A :=
  match ins with
  | [] => []
  | i :: rest => obs st i :: trace obs (loop st i) rest
  end.

Fixpoint count_true (l : list bool) : nat :=
  match l with
  | [] => 0
  | b :: rest => (if b then 1 else 0) + count_true rest
  end.

(** The writes of a run, in call order: the string passed and the count
    returned. *)
Fixpoint flush_log (st : Tracker) (ins : list LoopIn) : list (list ascii * nat) :=
  match ins with
  | [] => []
  | i :: rest =>
      (if flushes st i then [(snapshot st i, WriteSize st i)] else [])
      ++ flush_log (loop st i) rest
  end.

(** *** Power cycles *)

(** One session: [setup], then [loop] for as long as the power lasts. *)
Definition session (fs : gmap string (list ascii))
    (c : SetupIn * list LoopIn) : Tracker :=
  run (setup c.1 (power_on fs)) c.2.

(** The [FileCount] that [SetupPositioning] obtains. *)
Definition session_index (fs : gmap string (list ascii)) (i : SetupIn) : Z :=
  to_int (GetFileNumber (index_stack i) (index_io i) fs).1.

(** The rewrite of the index record at this start is complete: [WriteChar]
    reports as many bytes as it was given. *)
Definition commit_complete (fs : gmap string (list ascii)) (i : SetupIn) : bool :=
  (strlen (snprintf_08d INDEX_FILE_SIZE (session_index fs i))
   <=? wr_room (index_io i))%nat.

Definition no_digit (mem : list ascii) : bool :=
  forallb (fun c => match digit_val c with Some _ => false | None => true end) mem.

(** A start at which nothing goes wrong around the index record: it can
    be read, the uninitialised bytes of [IndexData] hold no digit, the
    rewrite is complete, and the count has not reached [INT_MAX]. *)
Definition clean_start (fs : gmap string (list ascii)) (i : SetupIn) : bool :=
  rd_ok (index_io i) && no_digit (index_stack i)
  && commit_complete fs i && (session_index fs i <? INT_MAX).

(** A condition on starts, checked at every start of a series of power
    cycles. *)
Fixpoint all_cycles (ok : gmap string (list ascii) -> SetupIn -> bool)
    (fs : gmap string (list ascii)) (cs : list (SetupIn * list LoopIn)) : bool :=
  match cs with
  | [] => true
  | c :: rest => ok fs c.1 && all_cycles ok (flash (session fs c)) rest
  end.

Fixpoint indices (fs : gmap string (list ascii))
    (cs : list (SetupIn * list LoopIn)) : list Z :=
  match cs with
  | [] => []
  | c :: rest => session_index fs c.1 :: indices (flash (session fs c)) rest
  end.

End Loop.

(** One bit per satellite system, for concrete runs. *)
#[export] Instance spresense_sdk : GnssSdk := {| GPS := 1; QZ_L1CA := 8; QZ_L1S := 32 |}.

Definition zeros16 : list ascii := replicate 16 NUL.
Definition io_good : IndexIo := {| rd_ok := true; rm_ok := true; wr_room := 16 |}.

(** A start on a healthy board whose storage takes [room] bytes of the
    index rewrite. *)
Definition start_in (room : nat) : SetupIn :=
  {| sd_ok := true; gnss_begin_ok := true; gnss_start_ok := true;
     index_stack := zeros16;
     index_io := {| rd_ok := true; rm_ok := true; wr_room := room |} |}.

(** A start at which the index record cannot be read, on storage that
    takes the whole rewrite. *)
Definition start_unreadable : SetupIn :=
  {| sd_ok := true; gnss_begin_ok := true; gnss_start_ok := true;
     index_stack := zeros16;
     index_io := {| rd_ok := false; rm_ok := true; wr_room := 16 |} |}.

(** A pass in which a fix arrives with the given line. *)
Definition fix_in (line : list ascii) (room : nat) : LoopIn :=
  {| waitUpdate := true;
     NavData := {| posDataExist := 1; posFixMode := 1; posSatelliteType := 1 |};
     NmeaString := line; malloc_ok := true; wr_room_txt := room |}.

(** A pass in which the wait for a fix times out. *)
Definition idle_in : LoopIn :=
  {| waitUpdate := false;
     NavData := {| posDataExist := 0; posFixMode := 0; posSatelliteType := 0 |};
     NmeaString := []; malloc_ok := true; wr_room_txt := 0 |}.

(** The tracker after a clean first start, and with a given buffer and
    counter. *)
Definition ready : Tracker := setup (start_in 16) (power_on ∅).

Definition held (buf : list ascii) (n : Z) : Tracker :=
  set_WriteCounter n (set_pNmeaBuff (Some buf) ready).

Definition line10 : list ascii := txt "$GPGGA,,*0".

(** Eleven lines of ten bytes stored since the start. *)
Definition eleven_held : Tracker := run ready (replicate 11 (fix_in line10 90)).

(** A buffer six bytes short of full. *)
Definition nearly_full : Tracker := held (replicate 1530 "a"%char) 3.

(** Twelve passes that each store [line10], on storage that takes up to
    [room] bytes of a write. *)
Definition twelve_lines (room : nat) : list LoopIn :=
  replicate 12 (fix_in line10 room).

(** A second session, started without a readable index record on the
    flash that a first session of twelve lines has left. *)
Definition restarted : Tracker :=
  setup start_unreadable (power_on (flash (run ready (twelve_lines 2000)))).

(** A pass in which a fix arrives but [malloc] fails. *)
Definition no_memory_in : LoopIn :=
  {| waitUpdate := true;
     NavData := {| posDataExist := 1; posFixMode := 1; posSatelliteType := 1 |};
     NmeaString := line10; malloc_ok := false; wr_room_txt := 90 |}.

(** *** More observers of a run *)

Section LoopMore.
Context `{GnssSdk}.

(** The lines a run stores, in order, as [strncat] copies them. *)
Fixpoint stored_lines (st : Tracker) (ins : list LoopIn) : list (list ascii) :=
  match ins with
  | [] => []
  | i :: rest =>
      (if appends st i then [c_str (NmeaString i)] else [])
      ++ stored_lines (loop st i) rest
  end.

(** Line 274. *)
Definition LedSet (nav : SpNavData) : bool :=
  negb (posDataExist nav =? 0) && negb (posFixMode nav =? 0).

(** Between passes: with a buffer the counter is between 1 and its reload
    value; without one it is at the reload value or at 0. *)
Definition counter_ok (st : Tracker) : Prop :=
  match pNmeaBuff st with
  | Some _ => 1 <= WriteCounter st <= NUMBER_OF_CACHE
  | None => WriteCounter st = NUMBER_OF_CACHE \/ WriteCounter st = 0
  end.

(** Between passes: LED0 shows the fix flag and LED3 is off. *)
Definition leds_ok (st : Tracker) : Prop :=
  led0 (leds st) = PosFixflag st /\ led3 (leds st) = false.

End LoopMore.

(** ** The dumper sketch

    The second sketch reads back what the tracker left on the flash: the
    index record, then the NMEA files, which it prints on the serial
    port. *)

Module Dumper.

(** Calls into the Flash library, in the order they are made. *)
Inductive FlashCall :=
  | Flash_exists (name : string)
  | Flash_open (name : string)
  | File_read
  | File_close.

(** What the Flash library, which is not part of the sketch, answers:
    whether a file exists, whether opening it gives a file, and what the
    successive reads of the opened file deliver.  A read after the last
    entry of [lib_reads], like an empty entry, delivers nothing and leaves
    the caller's buffer as it was. *)
Record FlashLib := {
  lib_exists : string -> bool;
  lib_open : string -> bool;
  lib_reads : string -> list (list ascii)
}.

(** The LEDs, the static of [Led_isActive], the file-name global, what
    [APP_PRINT] has sent to the serial port and the calls made so far. *)
Record Board := {
  leds : Leds;
  state : Z;
  FilenameTxt : string;
  console : list (list ascii);
  calls : list FlashCall
}.

Definition set_leds (v : Leds) (b : Board) : Board :=
  {| leds := v; state := state b; FilenameTxt := FilenameTxt b;
     console := console b; calls := calls b |}.

Definition set_state (v : Z) (b : Board) : Board :=
  {| leds := leds b; state := v; FilenameTxt := FilenameTxt b;
     console := console b; calls := calls b |}.

Definition set_FilenameTxt (v : string) (b : Board) : Board :=
  {| leds := leds b; state := state b; FilenameTxt := v;
     console := console b; calls := calls b |}.

Definition APP_PRINT (s : list ascii) (b : Board) : Board :=
  {| leds := leds b; state := state b; FilenameTxt := FilenameTxt b;
     console := console b ++ [s]; calls := calls b |}.

Definition call (c : FlashCall) (b : Board) : Board :=
  {| leds := leds b; state := state b; FilenameTxt := FilenameTxt b;
     console := console b; calls := calls b ++ [c] |}.

Definition ledOn (pin : Pin) (b : Board) : Board :=
  set_leds (led_write pin true (leds b)) b.

Definition ledOff (pin : Pin) (b : Board) : Board :=
  set_leds (led_write pin false (leds b)) b.

Definition Led_isActive (b : Board) : Board :=
  if state b =? 1 then set_state 0 (ledOn PIN_LED0 b)
  else set_state 1 (ledOff PIN_LED0 b).

Definition Led_isPosfix (on : bool) (b : Board) : Board :=
  if on then ledOn PIN_LED1 b else ledOff PIN_LED1 b.

Definition Led_isSdAccess (on : bool) (b : Board) : Board :=
  if on then ledOn PIN_LED2 b else ledOff PIN_LED2 b.

Definition Led_isError (on : bool) (b : Board) : Board :=
  if on then ledOn PIN_LED3 b else ledOff PIN_LED3 b.

(** Unlike [GetFileNumber], this function clears [IndexData] before the
    read.  The result of [strtoul] is returned as an [int]. *)
Definition PrintFileNumber (ok : bool) (fs : gmap string (list ascii))
    (b : Board) : Z * Board :=
  let b := APP_PRINT (txt "index number --> ") b in
  let IndexData := replicate INDEX_FILE_SIZE NUL in
  let '(ReadSize, IndexData) :=
    ReadChar IndexData INDEX_FILE_SIZE INDEX_FILE_NAME FILE_READ ok fs in
  if negb (ReadSize =? 0)%nat
  then (to_int (strtoul IndexData),
        APP_PRINT (txt endl) (APP_PRINT (c_str IndexData) b))
  else (-1, APP_PRINT (txt ("ERRROR: Cannot read" +:+ endl)) b).

(** Lines 532-535 of the file: [buf] has 128 bytes and a sentinel; every
    turn reads into it and prints the string it then holds, and the turn
    whose read delivers nothing is the last. *)
Fixpoint read_and_print (reads : list (list ascii)) (buf : list ascii)
    (b : Board) : Board :=
  match reads with
  | [] => APP_PRINT (c_str buf) (call File_read b)
  | chunk :: rest =>
      let got := take 128 chunk in
      let buf := got ++ drop (length got) buf in
      let b := APP_PRINT (c_str buf) (call File_read b) in
      if (0 <? length got)%nat then read_and_print rest buf b else b
  end.

Definition DumpNmeaFile (lib : FlashLib) (index : Z) (b : Board) : Board :=
  let b := set_FilenameTxt (session_file index) b in
  let name := FilenameTxt b in
  let b := APP_PRINT (txt endl) (APP_PRINT (txt name) b) in
  let b := call (Flash_exists name) b in
  if negb (lib_exists lib name)
  then APP_PRINT (txt (" Not exist." +:+ endl)) (APP_PRINT (txt name) b)
  else
    let b := call (Flash_open name) b in
    if negb (lib_open lib name)
    then APP_PRINT (txt (" Open error." +:+ endl)) (APP_PRINT (txt name) b)
    else call File_close (read_and_print (lib_reads lib name) (replicate 128 NUL) b).

Definition all_leds (v : bool) (b : Board) : Board :=
  set_leds {| led0 := v; led1 := v; led2 := v; led3 := v |} b.

(** [BeginSDCard]'s result is not looked at; the files with index 0 up to,
    not including, the number read are dumped in turn. *)
Definition setup (lib : FlashLib) (ok : bool) (fs : gmap string (list ascii))
    (b : Board) : Board :=
  let b := APP_PRINT (txt ("GNSS DUMPER version 1.00" +:+ endl)) b in
  let b := APP_PRINT (txt ("Initializing..." +:+ endl)) b in
  let b := all_leds true b in
  let '(num, b) := PrintFileNumber ok fs b in
  let b := foldl (fun b i => DumpNmeaFile lib i b) b (seqZ 0 num) in
  let b := all_leds false b in
  APP_PRINT (txt ("Done..." +:+ endl)) b.

Definition loop (b : Board) : Board := b.

(** The names [Flash.exists] was asked about. *)
Fixpoint asked (cs : list FlashCall) : list string :=
  match cs with
  | [] => []
  | Flash_exists name :: rest => name :: asked rest
  | _ :: rest => asked rest
  end.

Definition power_on : Board :=
  {| leds := {| led0 := false; led1 := false; led2 := false; led3 := false |};
     state := 1; FilenameTxt := ""; console := []; calls := [] |}.

(** A library that finds every file and hands out the given reads. *)
Definition lib_with (reads : list (list ascii)) : FlashLib :=
  {| lib_exists := fun _ => true; lib_open := fun _ => true;
     lib_reads := fun _ => reads |}.

End Dumper.

(** ** The tiny filer sketch

    A serial-line file browser for the flash: it lists a directory under
    numbers, and takes a number to show a file or enter a directory,
    [d] and a number to delete, [y] and a number to send by YModem. *)

Definition LONG_MAX : Z := 2 ^ 31 - 1.
Definition LONG_MIN : Z := - 2 ^ 31.

(** [strtol(s, NULL, 10)] for a 32-bit [long]: white space, an optional
    sign, digits; a value out of range saturates. *)
Definition strtol (s : list ascii) : Z :=
  let s1 := skip_space s in
  let '(neg, s2) :=
    match s1 with
    | "-"%char :: t => (true, t)
    | "+"%char :: t => (false, t)
    | _ => (false, s1)
    end in
  let v := scan_digits s2 0 in
  if neg : bool then (if - LONG_MIN <? v then LONG_MIN else - v)
  else (if LONG_MAX <? v then LONG_MAX else v).

Module TinyFiler.

Definition PROMPT : list ascii :=
  txt "cmd('0':goto root, num:show, 'd'+num:delete, 'y'+num:Ymodem)>".
Definition MOUNT_POINT : list ascii := txt "/mnt/spif/".
Definition MAX_ENTRY_POINT : nat := 64.
Definition MAX_PATH_LENGTH : nat := 64.

Definition COMMAND_FLAG_SHOW : Z := to_ulong (Z.shiftl 0x0000 16).
Definition COMMAND_FLAG_DEL : Z := to_ulong (Z.shiftl 0x0001 16).
Definition COMMAND_FLAG_DWLD : Z := to_ulong (Z.shiftl 0x0010 16).
Definition COMMAND_FLAG_NONE : Z := to_ulong (Z.shiftl 0x0100 16).
Definition COMMAND_FLAG_ERR : Z := to_ulong (Z.shiftl 0x1000 16).

Definition LF : ascii := "010"%char.
Definition CR : ascii := "013"%char.

Record EntryPoint := {
  isvalid : bool;
  path : list ascii;      (* char path[MAX_PATH_LENGTH] *)
  isdir : bool;
  size : Z
}.

(** An entry after [memset(entryPoints, 0, ...)]. *)
Definition no_entry : EntryPoint :=
  {| isvalid := false; path := replicate MAX_PATH_LENGTH NUL; isdir := false; size := 0 |}.

(** What the serial port is sent. *)
Inductive Out :=
  | print (s : list ascii)
  | println (s : list ascii)
  | println_char (c : ascii)
  | print_num (n : Z)
  | println_num (n : Z)
  | println_hex (n : Z).

(** Calls into the Flash and XModem libraries, in the order made. *)
Inductive Call :=
  | Flash_open (p : list ascii)
  | Flash_rmdir (p : list ascii)
  | Flash_remove (p : list ascii)
  | openNextFile
  | rewindDirectory
  | File_read
  | File_close
  | sendFile (p : list ascii) (name : list ascii).

(** One answer of [dir.openNextFile()]. *)
Record DirEntry := {
  e_name : list ascii;     (* entry.name() *)
  e_isdir : bool;          (* entry.isDirectory() *)
  e_size : Z               (* entry.size() *)
}.

(** What the libraries answer during one pass of [loop]: the entries that
    [openNextFile] yields before it yields none, what the reads of a shown
    file deliver (as for the dumper), and whether the file to send can be
    opened. *)
Record World := {
  listing : list DirEntry;
  reads : list (list ascii);
  opens : bool
}.

(** The globals, the statics of [QueueCommand], the bytes waiting in the
    serial receiver, and the output and calls so far.  [current] is the
    path the directory object was opened with. *)
Record Filer := {
  entryPoints : list EntryPoint;   (* MAX_ENTRY_POINT of them *)
  current : list ascii;
  buf : list ascii;                (* static char buf[64] *)
  idx : nat;                       (* static int idx *)
  rx : list ascii;
  serial : list Out;
  calls : list Call
}.

Definition set_entryPoints (v : list EntryPoint) (f : Filer) : Filer :=
  {| entryPoints := v; current := current f; buf := buf f; idx := idx f;
     rx := rx f; serial := serial f; calls := calls f |}.

Definition set_current (v : list ascii) (f : Filer) : Filer :=
  {| entryPoints := entryPoints f; current := v; buf := buf f; idx := idx f;
     rx := rx f; serial := serial f; calls := calls f |}.

Definition set_queue (b : list ascii) (i : nat) (r : list ascii) (f : Filer) : Filer :=
  {| entryPoints := entryPoints f; current := current f; buf := b; idx := i;
     rx := r; serial := serial f; calls := calls f |}.

Definition out (o : Out) (f : Filer) : Filer :=
  {| entryPoints := entryPoints f; current := current f; buf := buf f;
     idx := idx f; rx := rx f; serial := serial f ++ [o]; calls := calls f |}.

Definition call (c : Call) (f : Filer) : Filer :=
  {| entryPoints := entryPoints f; current := current f; buf := buf f;
     idx := idx f; rx := rx f; serial := serial f; calls := calls f ++ [c] |}.

(** [strncpy(dst, src, n)] into an array of [n] bytes: the string, cut to
    [n] bytes, and NULs up to [n]. *)
Definition strncpy (src : list ascii) (n : nat) : list ascii :=
  let s := take n (c_str src) in
  s ++ replicate (n - length s) NUL.

(** The string that [Serial.print] and the Flash library read at
    [entryPoints[i].path].  [strncpy] leaves a path that fills its 64 bytes
    without a terminator, and the read runs on into [isdir], the byte
    behind the array in the struct: for a directory it takes that byte, 1,
    and stops at the padding behind it, which is zero since the [memset];
    for a file [isdir] is itself the zero that ends the string. *)
Definition path_str (ep : EntryPoint) : list ascii :=
  let s := c_str (path ep) in
  if (length s <? MAX_PATH_LENGTH)%nat then s
  else take MAX_PATH_LENGTH s ++ (if isdir ep then ["001"%char] else []).

(** What [printDirectory] copies from an entry of the directory: the name
    from behind the mount point on, whether it is a directory, its
    size. *)
Definition entry_of (e : DirEntry) : EntryPoint :=
  {| isvalid := true;
     path := strncpy (drop (length MOUNT_POINT) (e_name e)) MAX_PATH_LENGTH;
     isdir := e_isdir e;
     size := e_size e |}.

(** The turns of the [while] of [printDirectory], from entry [i] on. *)
Fixpoint list_from (ls : list DirEntry) (i : nat) (f : Filer) : Filer :=
  if (i <? MAX_ENTRY_POINT)%nat then
    match ls with
    | [] => call rewindDirectory (call openNextFile f)
    | e :: rest =>
        let f := call openNextFile f in
        let ep := entry_of e in
        let f := call File_close (set_entryPoints (<[i := ep]> (entryPoints f)) f) in
        let f := out (print (path_str ep))
                   (out (print (txt " : ")) (out (print_num (Z.of_nat i))
                      (out (print (txt "  ")) f))) in
        let f :=
          if isdir ep then out (println (txt " <DIR>")) f
          else out (println (txt " bytes"))
                 (out (print_num (size ep)) (out (print (txt " ")) f)) in
        list_from rest (S i) f
    end
  else f.

Definition printDirectory (ls : list DirEntry) (f : Filer) : Filer :=
  list_from ls 1 (set_entryPoints (replicate MAX_ENTRY_POINT no_entry) f).

(** The [while] of [printContents]: the buffer is cleared before every
    read. *)
Fixpoint print_reads (rs : list (list ascii)) (f : Filer) : Filer :=
  match rs with
  | [] => out (print (c_str (replicate 128 NUL))) (call File_read f)
  | chunk :: rest =>
      let got := take 128 chunk in
      let b := got ++ drop (length got) (replicate 128 NUL) in
      let f := out (print (c_str b)) (call File_read f) in
      if (0 <? length got)%nat then print_reads rest f else f
  end.

Definition printContents (rs : list (list ascii)) (f : Filer) : Filer :=
  out (println (txt "-----"))
    (out (println (txt "[EOF]"))
       (print_reads rs (out (println (txt "-----")) f))).

Definition ParseCommand (buffer : list ascii) (length : Z) : Z :=
  if length <=? 0 then COMMAND_FLAG_ERR
  else
    let c := hd NUL buffer in
    let n := nat_of_ascii c in
    if (48 <=? n)%nat && (n <=? 57)%nat
    then Z.lor (to_ulong (strtol buffer)) COMMAND_FLAG_SHOW
    else if Ascii.eqb "d" c || Ascii.eqb "D" c
    then Z.lor (to_ulong (strtol (tail buffer))) COMMAND_FLAG_DEL
    else if Ascii.eqb "y" c || Ascii.eqb "Y" c
    then Z.lor (to_ulong (strtol (tail buffer))) COMMAND_FLAG_DWLD
    else COMMAND_FLAG_ERR.

(** The [while] of [QueueCommand].  Nothing in it keeps [idx] below the 64
    bytes of [buf]: a store past the end is [None]. *)
Fixpoint queue_chars (avail : list ascii) (f : Filer) : option (Z * Filer) :=
  match avail with
  | [] => Some (COMMAND_FLAG_NONE, set_queue (buf f) (idx f) [] f)
  | c :: rest =>
      let f := out (println_char c) f in
      if (idx f <? 64)%nat then
        if Ascii.eqb LF c || Ascii.eqb CR c then
          let b := <[idx f := NUL]> (buf f) in
          Some (ParseCommand b (Z.of_nat (idx f)), set_queue b 0 rest f)
        else queue_chars rest (set_queue (<[idx f := c]> (buf f)) (S (idx f)) rest f)
      else None
  end.

Definition QueueCommand (f : Filer) : option (Z * Filer) :=
  let f := if (idx f =? 0)%nat then set_queue (replicate 64 NUL) 0 (rx f) f else f in
  queue_chars (rx f) f.

Definition entry (n : Z) (f : Filer) : EntryPoint :=
  default no_entry (entryPoints f !! Z.to_nat n).

Definition setup (w : World) (f : Filer) : Filer :=
  let f := set_current (txt "/") (call (Flash_open (txt "/")) f) in
  out (print PROMPT) (printDirectory (listing w) f).

(** The [delete] branch of [loop]. *)
Definition delete (w : World) (cmd_no : Z) (f : Filer) : Filer :=
  let target := Z.land cmd_no 0xffff in
  let f := out (println_num target) (out (print (txt "delete : ")) f) in
  if (target <? Z.of_nat MAX_ENTRY_POINT) && isvalid (entry target f) then
    let p := path_str (entry target f) in
    let f := if isdir (entry target f) then call (Flash_rmdir p) f
             else call (Flash_remove p) f in
    printDirectory (listing w) (out (println p) (out (print (txt "Remove : ")) f))
  else f.

(** The download branch of [loop]. *)
Definition download (w : World) (cmd_no : Z) (f : Filer) : Filer :=
  let target := Z.land cmd_no 0xffff in
  let f := out (println_num target) (out (print (txt "Download(YModem) : ")) f) in
  if (target <? Z.of_nat MAX_ENTRY_POINT) && isvalid (entry target f) then
    let p := path_str (entry target f) in
    if isdir (entry target f) then out (println (txt "ERROR : this is directory.")) f
    else
      let f := call (Flash_open p) f in
      if opens w
      then call File_close
             (call (sendFile p (txt "tracker.ini"))
                (out (println (txt "Download(YModel) start...")) f))
      else out (println p) (out (print (txt "ERROR : Cannot open file : ")) f)
  else f.

(** What [loop] does with a command number. *)
Definition execute (w : World) (cmd_no : Z) (f : Filer) : Filer :=
  if 0 =? cmd_no then
    let f := out (println (txt "Back to root directory.")) f in
    printDirectory (listing w) (set_current (txt "/") (call (Flash_open (txt "/")) f))
  else if (cmd_no <? Z.of_nat MAX_ENTRY_POINT) && isvalid (entry cmd_no f) then
    let p := path_str (entry cmd_no f) in
    if isdir (entry cmd_no f) then
      let f := call File_close f in
      let f := out (println p) (out (print (txt "Move to ")) f) in
      printDirectory (listing w) (set_current p (call (Flash_open p) f))
    else
      let f := out (println p) (out (print (txt "Show : ")) f) in
      let f := call File_close (printContents (reads w) (call (Flash_open p) f)) in
      printDirectory (listing w) f
  else if 0 <? Z.land COMMAND_FLAG_DEL cmd_no then delete w cmd_no f
  else if 0 <? Z.land COMMAND_FLAG_DWLD cmd_no then download w cmd_no f
  else out (println_hex cmd_no)
         (out (print (txt " / 0x"))
            (out (print_num cmd_no) (out (print (txt "invalid cmd number : ")) f))).

Definition loop (w : World) (f : Filer) : option Filer :=
  match rx f with
  | [] => Some f
  | _ :: _ =>
      match QueueCommand f with
      | None => None
      | Some (cmd_no, f) =>
          if 0 <? Z.land COMMAND_FLAG_NONE cmd_no then Some f
          else Some (out (print PROMPT) (execute w cmd_no f))
      end
  end.

(** The machine at power-on: zeroed globals and statics, nothing received. *)
Definition power_on : Filer :=
  {| entryPoints := replicate MAX_ENTRY_POINT no_entry; current := [];
     buf := replicate 64 NUL; idx := 0; rx := []; serial := []; calls := [] |}.

(** Bytes arrive on the serial line. *)
Definition receive (bytes : list ascii) (f : Filer) : Filer :=
  set_queue (buf f) (idx f) (rx f ++ bytes) f.

(** The paths handed to [Flash.rmdir] and [Flash.remove]. *)
Fixpoint removed (cs : list Call) : list (list ascii) :=
  match cs with
  | [] => []
  | Flash_rmdir p :: rest => p :: removed rest
  | Flash_remove p :: rest => p :: removed rest
  | _ :: rest => removed rest
  end.

(** A byte that does not end a line. *)
Definition in_line (c : ascii) : Prop := c <> LF /\ c <> CR.

(** A root directory with one file and one directory in it, and the
    machine after [setup] has listed it. *)
Definition small_flash : World :=
  {| listing :=
       [ {| e_name := txt "/mnt/spif/a.txt"; e_isdir := false; e_size := 10 |};
         {| e_name := txt "/mnt/spif/logs"; e_isdir := true; e_size := 0 |} ];
     reads := [txt "0123456789"];
     opens := true |}.

Definition listed : Filer := setup small_flash power_on.

(** A root directory that holds one directory whose name fills the 64
    bytes of [path]. *)
Definition full_name_flash : World :=
  {| listing :=
       [ {| e_name := MOUNT_POINT ++ replicate MAX_PATH_LENGTH "a"%char;
            e_isdir := true; e_size := 0 |} ];
     reads := [];
     opens := true |}.

End TinyFiler.

(** * Properties *)

(** ** Decimal text: what ["%08d"] prints, [strtoul] reads back *)

Lemma digit_val_digit_char d : 0 <= d < 10 -> digit_val (digit_char d) = Some d.
Proof.
  intros Hd.
  assert (d = 0 \/ d = 1 \/ d = 2 \/ d = 3 \/ d = 4 \/ d = 5 \/ d = 6
          \/ d = 7 \/ d = 8 \/ d = 9) as Hcases by lia.
  repeat (destruct Hcases as [-> | Hcases]; [reflexivity |]).
  subst d. reflexivity.
Qed.

Lemma scan_ends rest acc : ends_number rest = true -> scan_digits rest acc = acc.
Proof.
  destruct rest as [| c rest]; simpl; [done |].
  destruct (digit_val c); done.
Qed.

Lemma scan_dec_le f n rest :
  0 <= n < 10 ^ Z.of_nat f ->
  scan_digits (rev (dec_le f n) ++ rest) 0 = scan_digits rest n.
Proof.
  revert n rest. induction f as [| f IH]; intros n rest Hn.
  - simpl in *. by replace n with 0 by lia.
  - assert (0 <= n mod 10 < 10) as Hd by (apply Z.mod_pos_bound; lia).
    assert (n = 10 * (n / 10) + n mod 10) as Hn10 by (apply Z.div_mod; lia).
    cbn [dec_le]. destruct (Z.eqb_spec (n / 10) 0) as [Hz | Hz].
    + cbn [rev app scan_digits]. rewrite digit_val_digit_char by done. f_equal. lia.
    + cbn [rev]. rewrite <- app_assoc. cbn [app].
      rewrite IH.
      * cbn [scan_digits]. rewrite digit_val_digit_char by done. f_equal. lia.
      * rewrite Nat2Z.inj_succ, Z.pow_succ_r in Hn by lia.
        split; [apply Z.div_pos; lia |].
        apply Z.div_lt_upper_bound; lia.
Qed.

Lemma scan_zeros k l : scan_digits (replicate k "0"%char ++ l) 0 = scan_digits l 0.
Proof. induction k as [| k IH]; [done |]. simpl. exact IH. Qed.

Lemma dec_le_digits f n :
  0 <= n -> Forall (fun c => is_Some (digit_val c)) (dec_le f n).
Proof.
  revert n. induction f as [| f IH]; intros n Hn; [constructor |].
  cbn [dec_le]. constructor.
  - rewrite digit_val_digit_char; [done |]. apply Z.mod_pos_bound; lia.
  - destruct (n / 10 =? 0); [constructor |]. apply IH, Z.div_pos; lia.
Qed.

Lemma dec_le_length f n : (length (dec_le f n) <= f)%nat.
Proof.
  revert n. induction f as [| f IH]; intros n; simpl; [lia |].
  destruct (n / 10 =? 0); simpl; [lia |]. specialize (IH (n / 10)). lia.
Qed.

Lemma dec_length n : (1 <= length (dec n) <= 10)%nat.
Proof.
  unfold dec. rewrite length_rev. split; [| apply dec_le_length].
  cbn [dec_le length]. lia.
Qed.

Lemma dec_digits n : 0 <= n -> Forall (fun c => is_Some (digit_val c)) (dec n).
Proof. intros Hn. unfold dec. apply Forall_rev. by apply dec_le_digits. Qed.

(** A string that opens with a digit is read as an unsigned number:
    no white space is skipped and no sign is taken. *)
Lemma strtoul_digit c s :
  is_Some (digit_val c) ->
  strtoul (c :: s) =
    if ULONG_MAX <? scan_digits (c :: s) 0 then ULONG_MAX
    else scan_digits (c :: s) 0.
Proof.
  intros [d Hd]. unfold strtoul.
  assert (skip_space (c :: s) = c :: s) as ->.
  { cbn [skip_space]. destruct c as [[] [] [] [] [] [] [] []]; try done. }
  destruct c as [[] [] [] [] [] [] [] []]; try done.
Qed.

Lemma pad0_digits w ds :
  Forall (fun c => is_Some (digit_val c)) ds ->
  Forall (fun c => is_Some (digit_val c)) (pad0 w ds).
Proof.
  intros Hds. unfold pad0. apply Forall_app. split; [| done].
  apply Forall_replicate. by eexists.
Qed.

Lemma fmt_08d_nonneg n : 0 <= n -> fmt_08d n = pad0 8 (dec n).
Proof. intros Hn. unfold fmt_08d. by destruct (Z.ltb_spec n 0); [lia |]. Qed.

Lemma fmt_08d_length n : 0 <= n -> (8 <= length (fmt_08d n) <= 10)%nat.
Proof.
  intros Hn. rewrite fmt_08d_nonneg by done. unfold pad0.
  rewrite length_app, length_replicate. pose proof (dec_length n). lia.
Qed.

(** Reading back what ["%08d"] printed gives the number printed, wherever
    the digits are followed by something that is not a digit. *)
Lemma strtoul_fmt_08d n rest :
  0 <= n <= ULONG_MAX -> ends_number rest = true ->
  strtoul (fmt_08d n ++ rest) = n.
Proof.
  intros Hn Hrest.
  assert (scan_digits (fmt_08d n ++ rest) 0 = n) as Hscan.
  { rewrite fmt_08d_nonneg by lia. unfold pad0. rewrite <- app_assoc, scan_zeros.
    unfold dec. rewrite scan_dec_le; [by apply scan_ends |].
    unfold ULONG_MAX in Hn. change (10 ^ Z.of_nat 10) with 10000000000. lia. }
  pose proof (fmt_08d_length n ltac:(lia)) as Hlen.
  pose proof (pad0_digits 8 (dec n) (dec_digits n ltac:(lia))) as Hdig.
  rewrite <- fmt_08d_nonneg in Hdig by lia.
  destruct (fmt_08d n) as [| c s] eqn:Hfmt; [simpl in Hlen; lia |].
  apply Forall_cons in Hdig as [Hc _].
  cbn [app] in *. rewrite strtoul_digit, Hscan by done.
  by destruct (Z.ltb_spec ULONG_MAX n); [lia |].
Qed.

Lemma c_str_clean l : Forall (fun c => Ascii.eqb c NUL = false) (c_str l).
Proof.
  induction l as [| c l IH]; cbn [c_str]; [constructor |].
  destruct (Ascii.eqb c NUL) eqn:Hc; by constructor.
Qed.

Lemma c_str_id l : Forall (fun c => Ascii.eqb c NUL = false) l -> c_str l = l.
Proof.
  induction 1 as [| c l Hc _ IH]; [done |].
  cbn [c_str]. by rewrite Hc, IH.
Qed.

Lemma c_str_idemp l : c_str (c_str l) = c_str l.
Proof. apply c_str_id, c_str_clean. Qed.

Lemma c_str_length l : (length (c_str l) <= length l)%nat.
Proof.
  induction l as [| c l IH]; cbn [c_str]; [done |].
  destruct (Ascii.eqb c NUL); simpl; lia.
Qed.

(** The string in the buffer after [strncat]. *)
Lemma c_str_strncat dst src n :
  c_str (strncat dst src n) = c_str dst ++ take n (c_str src).
Proof.
  unfold strncat. apply c_str_id, Forall_app. split; [apply c_str_clean |].
  apply Forall_take, c_str_clean.
Qed.

Lemma digit_not_NUL c : is_Some (digit_val c) -> Ascii.eqb c NUL = false.
Proof. intros [d Hd]. destruct c as [[] [] [] [] [] [] [] []]; done. Qed.

Lemma c_str_digits l :
  Forall (fun c => is_Some (digit_val c)) l -> c_str l = l.
Proof.
  intros Hl. apply c_str_id. eapply Forall_impl; [exact Hl |].
  apply digit_not_NUL.
Qed.

Lemma to_int_small z : - 2 ^ 31 <= z <= INT_MAX -> to_int z = z.
Proof.
  unfold to_int, INT_MAX. intros Hz.
  rewrite Z.mod_small; lia.
Qed.

Lemma to_ulong_small z : 0 <= z <= ULONG_MAX -> to_ulong z = z.
Proof. unfold to_ulong, ULONG_MAX. intros Hz. rewrite Z.mod_small; lia. Qed.

Lemma fmt_08d_neg n : n < 0 -> fmt_08d n = "-"%char :: pad0 7 (dec (- n)).
Proof. intros Hn. unfold fmt_08d. by destruct (Z.ltb_spec n 0); [| lia]. Qed.

Lemma fmt_08d_clean n : Forall (fun c => Ascii.eqb c NUL = false) (fmt_08d n).
Proof.
  destruct (Z.lt_ge_cases n 0) as [Hn | Hn].
  - rewrite fmt_08d_neg by done. constructor; [done |].
    eapply Forall_impl; [apply pad0_digits, dec_digits; lia | apply digit_not_NUL].
  - rewrite fmt_08d_nonneg by done.
    eapply Forall_impl; [by apply pad0_digits, dec_digits | apply digit_not_NUL].
Qed.

Lemma fmt_08d_c_str n : c_str (fmt_08d n) = fmt_08d n.
Proof. apply c_str_id, fmt_08d_clean. Qed.

Lemma fmt_08d_bounds n : (8 <= length (fmt_08d n) <= 11)%nat.
Proof.
  destruct (Z.lt_ge_cases n 0) as [Hn | Hn].
  - rewrite fmt_08d_neg by done. unfold pad0.
    cbn [length]. rewrite length_app, length_replicate.
    pose proof (dec_length (- n)). lia.
  - pose proof (fmt_08d_length n Hn). lia.
Qed.

(** The text never opens with a letter. *)
Lemma fmt_08d_head n :
  exists c rest, fmt_08d n = c :: rest /\ c <> "i"%char.
Proof.
  destruct (Z.lt_ge_cases n 0) as [Hn | Hn].
  - rewrite fmt_08d_neg by done. by eexists _, _.
  - pose proof (fmt_08d_length n Hn) as Hlen.
    pose proof (pad0_digits 8 (dec n) (dec_digits n Hn)) as Hdig.
    rewrite <- fmt_08d_nonneg in Hdig by done.
    destruct (fmt_08d n) as [| c rest]; [simpl in Hlen; lia |].
    apply Forall_cons in Hdig as [[d Hc] _].
    exists c, rest. split; [done |]. by intros ->.
Qed.

Lemma to_int_to_ulong n : - 2 ^ 31 <= n <= INT_MAX -> to_int (to_ulong n) = n.
Proof.
  unfold to_int, to_ulong, INT_MAX.
  change (2 ^ 32) with 4294967296. change (2 ^ 31) with 2147483648.
  intros Hn. Z.div_mod_to_equations. lia.
Qed.

Lemma to_int_range z : - 2 ^ 31 <= to_int z <= INT_MAX.
Proof.
  unfold to_int, INT_MAX.
  change (2 ^ 32) with 4294967296. change (2 ^ 31) with 2147483648.
  Z.div_mod_to_equations. lia.
Qed.

(** A negative count is read back as its two's complement. *)
Lemma strtoul_fmt_08d_neg n rest :
  - 2 ^ 31 <= n < 0 -> ends_number rest = true ->
  strtoul (fmt_08d n ++ rest) = to_ulong n.
Proof.
  change (2 ^ 31) with 2147483648. intros Hn Hrest.
  rewrite fmt_08d_neg by lia. cbn [app]. unfold strtoul.
  assert (forall l, skip_space ("-"%char :: l) = "-"%char :: l) as -> by done.
  assert (scan_digits (pad0 7 (dec (- n)) ++ rest) 0 = - n) as ->.
  { unfold pad0. rewrite <- app_assoc, scan_zeros.
    unfold dec. rewrite scan_dec_le; [by apply scan_ends |].
    change (10 ^ Z.of_nat 10) with 10000000000. lia. }
  unfold ULONG_MAX. change (2 ^ 32 - 1) with 4294967295.
  destruct (Z.ltb_spec 4294967295 (- n)); [lia |].
  by rewrite Z.opp_involutive.
Qed.

(** Every [int] survives being printed with ["%08d"], read with [strtoul]
    and stored back into an [int]. *)
Lemma strtoul_fmt_08d_int n rest :
  - 2 ^ 31 <= n <= INT_MAX -> ends_number rest = true ->
  to_int (strtoul (fmt_08d n ++ rest)) = n.
Proof.
  intros Hn Hrest. destruct (Z.lt_ge_cases n 0) as [Hneg | Hpos].
  - rewrite strtoul_fmt_08d_neg by (done || lia). by apply to_int_to_ulong.
  - rewrite strtoul_fmt_08d by (done || unfold ULONG_MAX, INT_MAX in *; lia).
    by apply to_int_small.
Qed.

(** ** The file index, call after call *)

(** A complete write of the count leaves exactly its ["%08d"] text as the
    index record. *)
Lemma commit_record n room fs :
  (length (fmt_08d n) <= room)%nat ->
  commit n room fs !! INDEX_FILE_NAME = Some (fmt_08d n).
Proof.
  intros Hroom. unfold commit, WriteChar, snprintf_08d.
  rewrite lookup_insert_eq. f_equal.
  pose proof (fmt_08d_bounds n) as Hlen.
  rewrite (take_ge (fmt_08d n)) by (unfold INDEX_FILE_SIZE; lia).
  rewrite fmt_08d_c_str. by rewrite take_ge by lia.
Qed.

Lemma commit_other n room fs name :
  name <> INDEX_FILE_NAME -> commit n room fs !! name = fs !! name.
Proof. intros Hne. unfold commit, WriteChar. by rewrite lookup_insert_ne. Qed.

(** No record, or a record that cannot be read: this is the first file. *)
Lemma GetFileNumber_first stack io fs :
  fs !! INDEX_FILE_NAME = None \/ rd_ok io = false ->
  GetFileNumber stack io fs = (1, commit 1 (wr_room io) fs).
Proof.
  intros Hfirst. unfold GetFileNumber, ReadChar.
  destruct Hfirst as [-> | ->]; [done |].
  by destruct (fs !! INDEX_FILE_NAME).
Qed.

(** A record that holds [v]: the count moves on to [v + 1]. *)
Lemma GetFileNumber_next_int stack io fs v :
  fs !! INDEX_FILE_NAME = Some (fmt_08d v) ->
  rd_ok io = true ->
  - 2 ^ 31 <= v < INT_MAX ->
  ends_number (drop (length (fmt_08d v)) stack) = true ->
  GetFileNumber stack io fs =
    (to_ulong (v + 1),
     commit (v + 1) (wr_room io) (Remove INDEX_FILE_NAME (rm_ok io) fs)).
Proof.
  intros Hrec Hrd Hv Hstack. unfold GetFileNumber, ReadChar.
  rewrite Hrec, Hrd.
  pose proof (fmt_08d_bounds v) as Hlen.
  rewrite (take_ge (fmt_08d v)) by (unfold INDEX_FILE_SIZE; lia).
  destruct (Nat.eqb_spec (length (fmt_08d v)) 0) as [Hz | _]; [lia |].
  cbn [negb]. rewrite strtoul_fmt_08d_int by (done || lia).
  unfold int_incr. by rewrite to_int_small by (unfold INT_MAX in *; lia).
Qed.

Lemma GetFileNumber_next stack io fs v :
  fs !! INDEX_FILE_NAME = Some (fmt_08d v) ->
  rd_ok io = true ->
  0 <= v < INT_MAX ->
  ends_number (drop (length (fmt_08d v)) stack) = true ->
  GetFileNumber stack io fs =
    (v + 1, commit (v + 1) (wr_room io) (Remove INDEX_FILE_NAME (rm_ok io) fs)).
Proof.
  intros Hrec Hrd Hv Hstack.
  rewrite (GetFileNumber_next_int _ _ _ v) by (done || lia).
  by rewrite to_ulong_small by (unfold INT_MAX, ULONG_MAX in *; lia).
Qed.

(** C5, as the code has it.  [GetFileNumber] returns 1 when the index record
    is absent or cannot be read.  When the record holds a count [v] as
    ["%08d"] prints it, with [0 <= v < INT_MAX] and no stray digit behind it
    in the uninitialised part of [IndexData], it returns [v + 1].  What it
    commits is the count it returns: once [n] is committed, a later call
    returns [n + 1] — so a first start returns 1 and the start after it 2,
    while a call that finds 2 committed returns 3. *)
Theorem GetFileNumber_reads_next stack io fs :
  (fs !! INDEX_FILE_NAME = None \/ rd_ok io = false ->
     (GetFileNumber stack io fs).1 = 1) /\
  (forall v,
     fs !! INDEX_FILE_NAME = Some (fmt_08d v) ->
     rd_ok io = true -> 0 <= v < INT_MAX ->
     ends_number (drop (length (fmt_08d v)) stack) = true ->
     (GetFileNumber stack io fs).1 = v + 1) /\
  (forall n room,
     rd_ok io = true -> 0 <= n < INT_MAX ->
     (length (fmt_08d n) <= room)%nat ->
     ends_number (drop (length (fmt_08d n)) stack) = true ->
     (GetFileNumber stack io (commit n room fs)).1 = n + 1) /\
  (forall stack' io',
     fs !! INDEX_FILE_NAME = None -> (8 <= wr_room io)%nat ->
     rd_ok io' = true -> ends_number (drop 8 stack') = true ->
     (GetFileNumber stack io fs).1 = 1 /\
     (GetFileNumber stack' io' (GetFileNumber stack io fs).2).1 = 2).
Proof.
  split; [| split; [| split]].
  - intros Hfirst. by rewrite GetFileNumber_first.
  - intros v Hrec Hrd Hv Hstack. by rewrite (GetFileNumber_next _ _ _ v).
  - intros n room Hrd Hn Hroom Hstack.
    rewrite (GetFileNumber_next _ _ _ n);
      first [done | by apply commit_record].
  - intros stack' io' Habsent Hroom Hrd Hstack.
    rewrite GetFileNumber_first by auto. split; [done |]. cbn [snd].
    rewrite (GetFileNumber_next _ _ _ 1);
      first [done | by apply commit_record | unfold INT_MAX; lia].
Qed.

Lemma GetFileNumber_reads_next_witness :
  (GetFileNumber zeros16 io_good ∅).1 = 1 /\
  (GetFileNumber zeros16 io_good {[ INDEX_FILE_NAME := fmt_08d 41 ]}).1 = 41 + 1 /\
  (GetFileNumber zeros16 io_good (commit 2 16 ∅)).1 = 2 + 1 /\
  (GetFileNumber zeros16 io_good (GetFileNumber zeros16 io_good ∅).2).1 = 2.
Proof.
  pose proof (GetFileNumber_reads_next zeros16 io_good ∅) as (H1 & _ & H3 & H4).
  pose proof (GetFileNumber_reads_next zeros16 io_good
                {[ INDEX_FILE_NAME := fmt_08d 41 ]}) as (_ & H2 & _).
  split; [| split; [| split]].
  - apply H1. left. reflexivity.
  - apply H2; [reflexivity | reflexivity | unfold INT_MAX; lia | reflexivity].
  - apply H3; [reflexivity | unfold INT_MAX; lia | vm_compute; lia | reflexivity].
  - apply (H4 zeros16 io_good); [reflexivity | simpl; lia | reflexivity | reflexivity].
Defined.

(** C5, as stated, fails on its last part: with 2 committed, the next call
    returns 3, not 2. *)
Lemma GetFileNumber_after_commit_2 :
  commit 2 16 ∅ !! INDEX_FILE_NAME = Some (txt "00000002") /\
  (GetFileNumber zeros16 io_good (commit 2 16 ∅)).1 = 3 /\
  (GetFileNumber zeros16 io_good (commit 2 16 ∅)).1 <> 2.
Proof. split; [| split]; vm_compute; congruence. Qed.

(** C8, as the code has it.  A failed read makes [GetFileNumber] fall back to
    1.  What the rewrite of the record returns is dropped: the count handed
    back, and the error flag, console and LEDs that [SetupPositioning]
    leaves, are the same however many bytes the storage took. *)
Theorem GetFileNumber_drops_write_result stack rd rm r1 r2 fs sd gb gs st :
  let io1 := {| rd_ok := rd; rm_ok := rm; wr_room := r1 |} in
  let io2 := {| rd_ok := rd; rm_ok := rm; wr_room := r2 |} in
  let s1 := {| sd_ok := sd; gnss_begin_ok := gb; gnss_start_ok := gs;
               index_stack := stack; index_io := io1 |} in
  let s2 := {| sd_ok := sd; gnss_begin_ok := gb; gnss_start_ok := gs;
               index_stack := stack; index_io := io2 |} in
  (GetFileNumber stack io1 fs).1 = (GetFileNumber stack io2 fs).1 /\
  (GetFileNumber stack {| rd_ok := false; rm_ok := rm; wr_room := r1 |} fs).1 = 1 /\
  (SetupPositioning s1 st).1 = (SetupPositioning s2 st).1 /\
  console (SetupPositioning s1 st).2 = console (SetupPositioning s2 st).2 /\
  leds (setup s1 st) = leds (setup s2 st).
Proof.
  intros io1 io2 s1 s2.
  assert ((GetFileNumber stack io1 fs).1 = (GetFileNumber stack io2 fs).1) as Hsame.
  { unfold GetFileNumber, io1, io2. cbn [rd_ok rm_ok wr_room].
    destruct (ReadChar _ _ _ _ _ _) as [ReadSize IndexData].
    by destruct (negb _). }
  split; [exact Hsame |]. split; [by rewrite GetFileNumber_first by auto |].
  unfold setup, SetupPositioning, s1, s2, io1, io2, GetFileNumber.
  cbn [sd_ok gnss_begin_ok gnss_start_ok index_stack index_io rd_ok rm_ok wr_room].
  destruct sd, gb, gs; cbn [negb];
    destruct (ReadChar _ _ _ _ _ _) as [ReadSize IndexData];
    destruct (negb _); done.
Qed.

(** C8, as stated, fails: the storage takes none of the eight bytes of the
    rewrite, and the caller sees what it sees when all eight are taken. *)
Lemma GetFileNumber_write_failure_unseen :
  (WriteChar (snprintf_08d INDEX_FILE_SIZE 1) INDEX_FILE_NAME FILE_WRITE 0 ∅).1 = 0%nat /\
  strlen (snprintf_08d INDEX_FILE_SIZE 1) = 8%nat /\
  (GetFileNumber zeros16 {| rd_ok := true; rm_ok := true; wr_room := 0 |} ∅).2
     !! INDEX_FILE_NAME = Some [] /\
  (GetFileNumber zeros16 {| rd_ok := true; rm_ok := true; wr_room := 0 |} ∅).1 = 1 /\
  (GetFileNumber zeros16 {| rd_ok := true; rm_ok := true; wr_room := 8 |} ∅).1 = 1 /\
  (SetupPositioning (start_in 0) (power_on ∅)).1 = 0 /\
  console (SetupPositioning (start_in 0) (power_on ∅)).2
    = [APP_PRINT_I ("Gnss begin OK." +:+ endl)] /\
  leds (setup (start_in 0) (power_on ∅)) = all_leds false.
Proof. repeat split; vm_compute; reflexivity. Qed.

(** ** One pass of [loop] *)

Section LoopFacts.
Context `{GnssSdk}.

Lemma show_fix_frame nav st :
  pNmeaBuff (show_fix nav st) = pNmeaBuff st /\
  WriteCounter (show_fix nav st) = WriteCounter st /\
  FilenameTxt (show_fix nav st) = FilenameTxt st /\
  flash (show_fix nav st) = flash st /\
  console (show_fix nav st) = console st.
Proof.
  unfold show_fix, Led_isPosfix, ledOn, ledOff.
  repeat case_match; done.
Qed.

Lemma at_append_frame i st :
  pNmeaBuff (at_append i st) =
    match pNmeaBuff st with
    | Some buf => Some buf
    | None => if malloc_ok i then Some [] else None
    end /\
  WriteCounter (at_append i st) = WriteCounter st /\
  FilenameTxt (at_append i st) = FilenameTxt st /\
  flash (at_append i st) = flash st /\
  console (at_append i st) = console st.
Proof.
  destruct (show_fix_frame (NavData i) st) as (Hb & Hw & Hn & Hf & Hc).
  unfold at_append, alloc. rewrite Hb.
  destruct (pNmeaBuff st); [done |]. by destruct (malloc_ok i).
Qed.

(** Allocation changes the pointer, not the string held. *)
Lemma at_append_contents i st : contents (at_append i st) = contents st.
Proof.
  unfold contents. destruct (at_append_frame i st) as (-> & _).
  destruct (pNmeaBuff st); [done |]. by destruct (malloc_ok i).
Qed.

Lemma before_flush_store i st :
  pNmeaBuff (before_flush i st) = pNmeaBuff (store i (show_fix (NavData i) st)) /\
  WriteCounter (before_flush i st) = WriteCounter (store i (show_fix (NavData i) st)) /\
  FilenameTxt (before_flush i st) = FilenameTxt (store i (show_fix (NavData i) st)) /\
  flash (before_flush i st) = flash (store i (show_fix (NavData i) st)).
Proof. done. Qed.

Lemma store_frame i st :
  FilenameTxt (store i st) = FilenameTxt st /\ flash (store i st) = flash st.
Proof.
  unfold store, append, alloc, Led_isError.
  repeat case_match; done.
Qed.

Lemma before_flush_frame i st :
  FilenameTxt (before_flush i st) = FilenameTxt st /\
  flash (before_flush i st) = flash st.
Proof.
  destruct (before_flush_store i st) as (_ & _ & -> & ->).
  destruct (store_frame i (show_fix (NavData i) st)) as (-> & ->).
  by destruct (show_fix_frame (NavData i) st) as (_ & _ & -> & -> & _).
Qed.

(** No line to store: buffer and counter stay. *)
Lemma before_flush_idle i st :
  offers i = false -> waitUpdate i = true ->
  pNmeaBuff (before_flush i st) = pNmeaBuff st /\
  WriteCounter (before_flush i st) = WriteCounter st.
Proof.
  unfold offers. intros Hoff Hwait. rewrite Hwait in Hoff. cbn in Hoff.
  apply negb_false_iff in Hoff.
  destruct (before_flush_store i st) as (-> & -> & _).
  unfold store. rewrite Hoff. unfold Led_isError. cbn.
  by destruct (show_fix_frame (NavData i) st) as (-> & -> & _).
Qed.

Lemma store_offers i st :
  offers i = true ->
  store i (show_fix (NavData i) st) = append (NmeaString i) (at_append i st).
Proof.
  unfold offers. intros [_ Hne%negb_true_iff]%andb_true_iff.
  unfold store. by rewrite Hne.
Qed.

(** The line is stored: the buffer grows, the counter drops by one. *)
Lemma before_flush_appends i st :
  appends st i = true ->
  exists buf,
    pNmeaBuff (at_append i st) = Some buf /\
    (strlen buf + length (NmeaString i) < MEMORY_BUFFER_SIZE)%nat /\
    pNmeaBuff (before_flush i st)
      = Some (strncat buf (NmeaString i) MEMORY_BUFFER_SIZE) /\
    WriteCounter (before_flush i st) = WriteCounter st - 1.
Proof.
  unfold appends. intros [Hoff Hroom]%andb_true_iff.
  destruct (before_flush_store i st) as (-> & -> & _).
  rewrite store_offers by done.
  destruct (at_append_frame i st) as (_ & Hw & _).
  unfold has_room in Hroom. unfold append.
  destruct (pNmeaBuff (at_append i st)) as [buf |]; [| done].
  exists buf. rewrite Hroom. apply Nat.ltb_lt in Hroom. by rewrite <- Hw.
Qed.

(** The line is turned away: the buffer stays, the counter drops to 0. *)
Lemma before_flush_rejects i st :
  rejects st i = true ->
  pNmeaBuff (before_flush i st) = pNmeaBuff (at_append i st) /\
  WriteCounter (before_flush i st) = 0 /\
  console (before_flush i st) =
    console st ++ [APP_PRINT_E ("error: no capacity to write" +:+ endl);
                   APP_PRINT_I "Write Counter : "; APP_PRINT_I_num 0;
                   APP_PRINT_I " / Sat Type : ";
                   APP_PRINT_I_num (posSatelliteType (NavData i));
                   APP_PRINT_I endl].
Proof.
  unfold rejects. intros [Hoff Hroom%negb_true_iff]%andb_true_iff.
  unfold before_flush, log_counter. rewrite store_offers by done.
  destruct (at_append_frame i st) as (_ & _ & _ & _ & Hc).
  unfold has_room in Hroom. unfold append, Led_isError.
  destruct (pNmeaBuff (at_append i st)) as [buf |] eqn:Hbuf.
  - rewrite Hroom. cbn. rewrite Hbuf, Hc, <- !app_assoc. done.
  - cbn. rewrite Hbuf, Hc, <- !app_assoc. done.
Qed.

Lemma flush_skip room st : flush_due st = false -> flush room st = st.
Proof.
  unfold flush_due, flush. intros Hdue.
  destruct (pNmeaBuff st) as [buf |]; [| done].
  rewrite bool_decide_eq_true_2, andb_true_r in Hdue by done.
  by rewrite Hdue.
Qed.

(** The write block: whatever the storage took, the buffer is cleared and
    the counter reloaded. *)
Lemma flush_run room st :
  flush_due st = true ->
  pNmeaBuff (flush room st) = Some [] /\
  WriteCounter (flush room st) = NUMBER_OF_CACHE /\
  FilenameTxt (flush room st) = FilenameTxt st /\
  PosFixflag (flush room st) = PosFixflag st /\
  leds (flush room st) = led_write PIN_LED3 false (leds st) /\
  flash (flush room st)
    = <[FilenameTxt st :=
          file_bytes (flash st) (FilenameTxt st) ++ take room (contents st)]>
        (flash st) /\
  console (flush room st) =
    console st ++
      (if (length (take room (contents st)) =? length (contents st))%nat
       then [] else [APP_PRINT_E "error: wrong size for flash write"]).
Proof.
  unfold flush_due, flush, contents. intros [Hwc Hbuf]%andb_true_iff.
  apply bool_decide_eq_true in Hbuf.
  destruct (pNmeaBuff st) as [buf |]; [| done].
  rewrite Hwc. unfold WriteChar, Led_isStorageAccess, Led_isError, strlen.
  cbn. destruct (length (take room (c_str buf)) =? length (c_str buf))%nat; cbn.
  - rewrite app_nil_r. by destruct (leds st).
  - by destruct (leds st).
Qed.

Lemma loop_flush_due st i :
  waitUpdate i = true -> flushes st i = flush_due (before_flush i st).
Proof. unfold flushes. by intros ->. Qed.

(** What is handed to the storage when a pass writes: the string held
    before the pass, and the line of this pass if it was stored. *)
Lemma snapshot_cases st i :
  waitUpdate i = true ->
  snapshot st i =
    if appends st i then contents st ++ c_str (NmeaString i) else contents st.
Proof.
  intros Hwait. unfold snapshot.
  destruct (appends st i) eqn:Happ.
  - destruct (before_flush_appends i st Happ) as (buf & Hbuf & Hroom & Hnew & _).
    unfold contents at 1. rewrite Hnew, c_str_strncat.
    rewrite <- (at_append_contents i st). unfold contents. rewrite Hbuf.
    f_equal. apply take_ge.
    pose proof (c_str_length (NmeaString i)). lia.
  - destruct (offers i) eqn:Hoff.
    + assert (rejects st i = true) as Hrej.
      { unfold rejects, appends in *. rewrite Hoff in *. cbn in *. by rewrite Happ. }
      destruct (before_flush_rejects i st Hrej) as (Hbuf & _).
      rewrite <- (at_append_contents i st). unfold contents. by rewrite Hbuf.
    + destruct (before_flush_idle i st Hoff Hwait) as (Hbuf & _).
      unfold contents. by rewrite Hbuf.
Qed.

(** The file named at startup is the only one a pass writes to, and it
    only ever gains bytes at its end. *)
Lemma loop_flash st i :
  FilenameTxt (loop st i) = FilenameTxt st /\
  flash (loop st i) =
    if flushes st i
    then <[FilenameTxt st :=
             file_bytes (flash st) (FilenameTxt st)
             ++ take (wr_room_txt i) (snapshot st i)]> (flash st)
    else flash st.
Proof.
  unfold loop, flushes. destruct (waitUpdate i); [| done]. cbn [andb].
  destruct (before_flush_frame i st) as (Hn & Hf).
  destruct (flush_due (before_flush i st)) eqn:Hdue.
  - destruct (flush_run (wr_room_txt i) _ Hdue) as (_ & _ & -> & _ & _ & -> & _).
    by rewrite Hn, Hf.
  - by rewrite flush_skip.
Qed.

(** C10.  A pass whose wait for a fix times out changes nothing at all —
    buffer, counter, file name, LEDs, flash and console are what they were —
    and nothing is written, whatever the counter says. *)
Theorem loop_timeout st i :
  waitUpdate i = false -> loop st i = st /\ flushes st i = false.
Proof. intros Hwait. unfold loop, flushes. by rewrite Hwait. Qed.

(** C2.  With a buffer in place, the line is stored exactly when
    [used + len < MEMORY_BUFFER_SIZE]: the buffer then holds what it held
    followed by the line (as a C string; the line itself when it has no NUL
    in it).  Otherwise the buffer pointer, the string held and its length
    are what they were. *)
Theorem append_all_or_nothing st buf s :
  pNmeaBuff st = Some buf ->
  (has_room st s = true <-> (used st + length s < MEMORY_BUFFER_SIZE)%nat) /\
  ((used st + length s < MEMORY_BUFFER_SIZE)%nat ->
     contents (append s st) = contents st ++ c_str s /\
     (c_str s = s ->
        contents (append s st) = contents st ++ s /\
        used (append s st) = (used st + length s)%nat) /\
     WriteCounter (append s st) = WriteCounter st - 1) /\
  (~ (used st + length s < MEMORY_BUFFER_SIZE)%nat ->
     pNmeaBuff (append s st) = pNmeaBuff st /\
     contents (append s st) = contents st /\
     used (append s st) = used st /\
     WriteCounter (append s st) = 0).
Proof.
  intros Hbuf. unfold has_room, append, used, contents, strlen, Led_isError.
  rewrite Hbuf. split; [apply Nat.ltb_lt |]. split.
  - intros Hroom. apply Nat.ltb_lt in Hroom as Hroom'. rewrite Hroom'. cbn.
    rewrite c_str_strncat.
    assert (take MEMORY_BUFFER_SIZE (c_str s) = c_str s) as ->.
    { apply take_ge. pose proof (c_str_length s). lia. }
    split; [done |]. split; [| done].
    intros ->. by rewrite length_app.
  - intros Hfull. apply Nat.ltb_nlt in Hfull. rewrite Hfull. cbn.
    by rewrite Hbuf.
Qed.

(** C7.  When the line does not fit in the buffer, the pass logs the error,
    writes out in that same pass exactly the string the buffer held before
    the pass, and goes on with an empty buffer and a reloaded counter: the
    line that did not fit is in neither the file nor the buffer. *)
Theorem overflow_forces_flush st i :
  overflows st i = true ->
  flushes st i = true /\
  snapshot st i = contents st /\
  APP_PRINT_E ("error: no capacity to write" +:+ endl) ∈ console (loop st i) /\
  pNmeaBuff (loop st i) = Some [] /\
  contents (loop st i) = [] /\
  WriteCounter (loop st i) = NUMBER_OF_CACHE /\
  FilenameTxt (loop st i) = FilenameTxt st /\
  file_bytes (flash (loop st i)) (FilenameTxt st)
    = file_bytes (flash st) (FilenameTxt st)
      ++ take (wr_room_txt i) (contents st) /\
  ((length (contents st) <= wr_room_txt i)%nat ->
     file_bytes (flash (loop st i)) (FilenameTxt st)
       = file_bytes (flash st) (FilenameTxt st) ++ contents st).
Proof.
  unfold overflows. intros [Hrej Hbuf%bool_decide_eq_true]%andb_true_iff.
  assert (waitUpdate i = true) as Hwait.
  { unfold rejects, offers in Hrej. by destruct (waitUpdate i). }
  destruct (before_flush_rejects i st Hrej) as (Hb & Hw & Hc).
  assert (flush_due (before_flush i st) = true) as Hdue.
  { unfold flush_due. rewrite Hw, Hb. cbn. by apply bool_decide_eq_true. }
  assert (snapshot st i = contents st) as Hsnap.
  { rewrite snapshot_cases by done.
    assert (appends st i = false) as ->; [| done].
    unfold rejects, appends in *. destruct (offers i); [| done].
    cbn in *. by apply negb_true_iff. }
  assert (file_bytes (flash (loop st i)) (FilenameTxt st)
          = file_bytes (flash st) (FilenameTxt st)
            ++ take (wr_room_txt i) (contents st)) as Hfile.
  { destruct (loop_flash st i) as (_ & ->).
    rewrite loop_flush_due, Hdue, Hsnap by done.
    unfold file_bytes at 1. by rewrite lookup_insert_eq. }
  assert (loop st i = flush (wr_room_txt i) (before_flush i st)) as Hloop.
  { unfold loop. by rewrite Hwait. }
  destruct (flush_run (wr_room_txt i) _ Hdue) as (Hb' & Hw' & _ & _ & _ & _ & Hc').
  rewrite <- Hloop in Hb', Hw', Hc'.
  split; [by rewrite loop_flush_due |]. split; [done |].
  split.
  { rewrite Hc', Hc. apply elem_of_app. left. apply elem_of_app. right.
    apply list_elem_of_here. }
  split; [done |]. split; [unfold contents; by rewrite Hb' |].
  split; [done |]. split; [apply loop_flash |].
  split; [done |]. intros Hall. by rewrite Hfile, take_ge.
Qed.

Lemma last_snoc_if {A} (l : list A) (b : bool) (x : A) :
  b = false -> last (l ++ (if b then [] else [x])) = Some x.
Proof. intros ->. apply last_snoc. Qed.

(** C1, as the code has it.  When the storage reports fewer bytes written
    than the buffer held, the pass logs "wrong size for flash write" and
    calls [Led_isError], which drives no LED; it then clears the buffer and
    reloads the counter exactly as after a complete write.  The file has
    gained only the bytes the storage took, and what a later pass hands to
    the storage holds none of the bytes left over. *)
Theorem short_write_resets st i :
  flushes st i = true ->
  (WriteSize st i < length (snapshot st i))%nat ->
  last (console (loop st i))
    = Some (APP_PRINT_E "error: wrong size for flash write") /\
  leds (loop st i) = led_write PIN_LED3 false (leds (before_flush i st)) /\
  pNmeaBuff (loop st i) = Some [] /\
  contents (loop st i) = [] /\
  WriteCounter (loop st i) = NUMBER_OF_CACHE /\
  file_bytes (flash (loop st i)) (FilenameTxt st)
    = file_bytes (flash st) (FilenameTxt st)
      ++ take (WriteSize st i) (snapshot st i) /\
  (forall j, waitUpdate j = true ->
     snapshot (loop st i) j
       = if appends (loop st i) j then c_str (NmeaString j) else []).
Proof.
  intros Hfl Hshort.
  assert (waitUpdate i = true) as Hwait.
  { unfold flushes in Hfl. by destruct (waitUpdate i). }
  assert (flush_due (before_flush i st) = true) as Hdue.
  { by rewrite <- loop_flush_due. }
  assert (loop st i = flush (wr_room_txt i) (before_flush i st)) as Hloop.
  { unfold loop. by rewrite Hwait. }
  destruct (flush_run (wr_room_txt i) _ Hdue) as (Hb & Hw & _ & _ & Hl & _ & Hc).
  rewrite <- Hloop in Hb, Hw, Hl, Hc.
  assert (contents (loop st i) = []) as Hempty.
  { unfold contents. by rewrite Hb. }
  unfold WriteSize, snapshot in *.
  split.
  { rewrite Hc. apply last_snoc_if, Nat.eqb_neq. lia. }
  split; [done |]. split; [done |]. split; [done |]. split; [done |].
  split.
  { destruct (loop_flash st i) as (_ & ->). rewrite Hfl.
    unfold file_bytes at 1. rewrite lookup_insert_eq. cbn [default from_option id].
    unfold snapshot. rewrite length_take in *.
    replace (wr_room_txt i `min` length (contents (before_flush i st)))%nat
      with (wr_room_txt i) by lia.
    done. }
  intros j Hj. fold (snapshot (loop st i) j).
  rewrite snapshot_cases, Hempty by done. by destruct (appends _ j).
Qed.

End LoopFacts.

(** ** Runs of [loop] *)

Section RunFacts.
Context `{GnssSdk}.

Lemma take_length_take {A} (n : nat) (l : list A) :
  take (length (take n l)) l = take n l.
Proof.
  rewrite length_take. destruct (Nat.min_spec n (length l)) as [[_ ->] | [Hle ->]]; [done |].
  by rewrite !take_ge by lia.
Qed.

(** The file named at startup grows by what each write of the run got
    through, in call order; no other file changes. *)
Lemma run_flash ins : forall st,
  FilenameTxt (run st ins) = FilenameTxt st /\
  file_bytes (flash (run st ins)) (FilenameTxt st)
    = file_bytes (flash st) (FilenameTxt st)
      ++ concat (map (fun e => take e.2 e.1) (flush_log st ins)) /\
  (forall name, name <> FilenameTxt st ->
     flash (run st ins) !! name = flash st !! name).
Proof.
  induction ins as [| i ins IH]; intros st.
  { cbn. by rewrite app_nil_r. }
  destruct (IH (loop st i)) as (IHn & IHf & IHo).
  destruct (loop_flash st i) as (Hn & Hf).
  cbn [run fold_left flush_log]. fold (run (loop st i) ins).
  rewrite Hn in IHn, IHf, IHo.
  split; [done |]. split.
  - rewrite IHf, Hf. destruct (flushes st i); [| done].
    cbn [app map concat fst snd]. unfold file_bytes at 1.
    rewrite lookup_insert_eq. cbn [default from_option id].
    unfold WriteSize. by rewrite take_length_take, <- app_assoc.
  - intros name Hname. rewrite IHo, Hf by done.
    destruct (flushes st i); [| done]. by rewrite lookup_insert_ne.
Qed.

(** C3, as the code has it.  Every write of a run goes to the end of the
    session file: the file after the run is the file before it followed by
    the bytes each write got through, in call order, and no file on the
    flash loses or changes a byte it had.  When every write of the run is
    complete, what the session file gained is the strings handed to the
    writes, one after the other — the whole file, if there was none
    before. *)
Theorem flushed_bytes_in_order st ins :
  file_bytes (flash (run st ins)) (FilenameTxt st)
    = file_bytes (flash st) (FilenameTxt st)
      ++ concat (map (fun e => take e.2 e.1) (flush_log st ins)) /\
  (forall name, exists more,
     file_bytes (flash (run st ins)) name = file_bytes (flash st) name ++ more) /\
  (Forall (fun e => e.2 = length e.1) (flush_log st ins) ->
     file_bytes (flash (run st ins)) (FilenameTxt st)
       = file_bytes (flash st) (FilenameTxt st) ++ concat (flush_log st ins).*1 /\
     (flash st !! FilenameTxt st = None ->
        file_bytes (flash (run st ins)) (FilenameTxt st)
          = concat (flush_log st ins).*1)).
Proof.
  destruct (run_flash ins st) as (_ & Hfile & Hother).
  split; [done |]. split.
  { intros name. destruct (decide (name = FilenameTxt st)) as [-> | Hne].
    - eexists. exact Hfile.
    - exists []. unfold file_bytes. by rewrite Hother, app_nil_r. }
  intros Hall.
  assert (map (fun e => take e.2 e.1) (flush_log st ins) = (flush_log st ins).*1)
    as Hsame.
  { clear Hfile. induction Hall as [| [snap n] log Hn _ IH]; [done |].
    cbn in *. subst n. by rewrite take_ge, IH by lia. }
  rewrite Hfile, Hsame. split; [done |].
  intros Hnone. unfold file_bytes. by rewrite Hnone.
Qed.

(** How one pass moves the counter, when no line is turned away: [c] lines
    have been stored so far. *)
Lemma loop_counter st i (c : nat) :
  WriteCounter st = NUMBER_OF_CACHE - Z.of_nat c mod NUMBER_OF_CACHE ->
  rejects st i = false ->
  flushes st i = appends st i && ((Z.of_nat c + 1) mod NUMBER_OF_CACHE =? 0) /\
  WriteCounter (loop st i)
    = NUMBER_OF_CACHE
      - Z.of_nat (c + if appends st i then 1 else 0) mod NUMBER_OF_CACHE.
Proof.
  change NUMBER_OF_CACHE with 12. intros Hwc Hrej.
  unfold loop, flushes, appends, rejects in *.
  destruct (waitUpdate i) eqn:Hwait.
  2:{ unfold offers. rewrite Hwait. cbn. by rewrite Nat.add_0_r. }
  cbn [andb]. destruct (offers i) eqn:Hoff; cbn [andb] in *.
  - apply negb_false_iff in Hrej. rewrite Hrej.
    destruct (before_flush_appends i st) as (buf & _ & _ & Hb & Hw).
    { unfold appends. by rewrite Hoff, Hrej. }
    assert (flush_due (before_flush i st) = ((Z.of_nat c + 1) mod 12 =? 0)) as Hdue.
    { unfold flush_due. rewrite Hb, Hw, Hwc.
      rewrite bool_decide_eq_true_2, andb_true_r by done.
      destruct (Z.leb_spec (12 - Z.of_nat c mod 12 - 1) 0),
               (Z.eqb_spec ((Z.of_nat c + 1) mod 12) 0);
        try done; exfalso; Z.div_mod_to_equations; lia. }
    split; [by rewrite Hdue |].
    destruct (Z.eqb_spec ((Z.of_nat c + 1) mod 12) 0) as [Hz | Hz].
    + destruct (flush_run (wr_room_txt i) _ Hdue) as (_ & -> & _).
      change NUMBER_OF_CACHE with 12. rewrite Nat2Z.inj_add. cbn [Z.of_nat].
      change (Z.pos 1) with 1. lia.
    + rewrite flush_skip, Hw, Hwc by done.
      rewrite Nat2Z.inj_add. change (Z.of_nat 1) with 1.
      Z.div_mod_to_equations. lia.
  - destruct (before_flush_idle i st Hoff Hwait) as (Hb & Hw).
    assert (flush_due (before_flush i st) = false) as Hdue.
    { unfold flush_due. rewrite Hw, Hwc.
      destruct (Z.leb_spec (12 - Z.of_nat c mod 12) 0); [| done].
      exfalso. Z.div_mod_to_equations. lia. }
    split; [done |]. by rewrite flush_skip, Hw, Hwc, Nat.add_0_r.
Qed.

Lemma flush_schedule ins : forall st (c : nat) (k : nat),
  WriteCounter st = NUMBER_OF_CACHE - Z.of_nat c mod NUMBER_OF_CACHE ->
  Forall (fun b => b = false) (trace rejects st ins) ->
  trace flushes st ins !! k = Some true <->
  trace appends st ins !! k = Some true /\
  Z.of_nat (c + count_true (take (S k) (trace appends st ins)))
    mod NUMBER_OF_CACHE = 0.
Proof.
  induction ins as [| i ins IH]; intros st c k Hwc Hrej.
  { cbn. rewrite !lookup_nil. split; [done | by intros [? _]]. }
  cbn [trace] in *. apply Forall_cons in Hrej as [Hrej Hrest].
  destruct (loop_counter st i c Hwc Hrej) as (Hfl & Hwc').
  destruct k as [| k].
  - cbn [lookup list_lookup take count_true]. rewrite Hfl.
    destruct (appends st i); cbn [andb].
    + rewrite Nat.add_0_r, Nat2Z.inj_add. change (Z.of_nat 1) with 1.
      destruct (Z.eqb_spec ((Z.of_nat c + 1) mod NUMBER_OF_CACHE) 0) as [Hz | Hz].
      * done.
      * split; [done | by intros [_ ?]].
    + split; [done | by intros [? _]].
  - cbn [lookup list_lookup take count_true].
    rewrite (IH _ _ k Hwc' Hrest). by rewrite Nat.add_assoc.
Qed.

(** C4.  From a reloaded counter, and as long as no line is turned away, a
    pass writes exactly when it stores a line and the number of lines
    stored up to and including it is a multiple of [NUMBER_OF_CACHE] (12):
    on the twelfth stored line and on none before it, whatever the lines
    hold. *)
Theorem flush_every_twelfth st ins k :
  WriteCounter st = NUMBER_OF_CACHE ->
  Forall (fun b => b = false) (trace rejects st ins) ->
  NUMBER_OF_CACHE = DATA_WRITE_INTERVAL / POSITIONING_INTERVAL /\
  NUMBER_OF_CACHE = 12 /\
  (trace flushes st ins !! k = Some true <->
   trace appends st ins !! k = Some true /\
   Z.of_nat (count_true (take (S k) (trace appends st ins))) mod NUMBER_OF_CACHE = 0).
Proof.
  intros Hwc Hrej. split; [done |]. split; [done |].
  apply (flush_schedule ins st 0 k); [| done].
  rewrite Hwc. done.
Qed.

Lemma setup_statics i st :
  pNmeaBuff (setup i st) = pNmeaBuff st /\
  WriteCounter (setup i st) = WriteCounter st.
Proof.
  unfold setup, SetupPositioning, Led_isError.
  destruct (sd_ok i), (gnss_begin_ok i), (gnss_start_ok i); cbn [negb];
    match goal with
    | |- context [GetFileNumber ?a ?b ?c] => destruct (GetFileNumber a b c) as [n fs]
    end; by repeat case_match.
Qed.

Lemma paced_start i fs : paced (setup i (power_on fs)).
Proof.
  destruct (setup_statics i (power_on fs)) as (Hb & Hw).
  unfold paced. rewrite Hb, Hw. done.
Qed.

(** One pass with a line shorter than [NMEA_BUFFER_SIZE]: the line fits
    whenever there is a buffer, and the pacing carries over. *)
Lemma loop_paced st i :
  paced st ->
  (length (NmeaString i) <= NMEA_BUFFER_SIZE - 1)%nat ->
  paced (loop st i) /\
  (room_needed st i < MEMORY_BUFFER_SIZE)%nat /\
  overflows st i = false /\
  (malloc_ok i = true -> rejects st i = false).
Proof.
  unfold paced, room_needed, used. rewrite at_append_contents.
  change NUMBER_OF_CACHE with 12. change (NMEA_BUFFER_SIZE - 1)%nat with 127%nat.
  change MEMORY_BUFFER_SIZE with 1536%nat.
  intros (Hle & Hbuf) Hlen.
  assert (length (contents st) + length (NmeaString i) < 1536)%nat as Hroom.
  { unfold contents. destruct (pNmeaBuff st) as [buf |]; unfold strlen in *;
      cbn [length]; lia. }
  split; [| split; [done |]].
  2:{ unfold overflows, rejects, has_room, strlen.
      destruct (at_append_frame i st) as (Hb & _).
      assert (contents (at_append i st) = contents st) as Hc
        by apply at_append_contents.
      unfold contents in Hc, Hroom. rewrite Hb in *.
      change MEMORY_BUFFER_SIZE with 1536%nat.
      destruct (pNmeaBuff st) as [buf |].
      - apply Nat.ltb_lt in Hroom. rewrite Hroom.
        by rewrite andb_false_r.
      - destruct (malloc_ok i).
        + cbn [c_str length] in *. apply Nat.ltb_lt in Hroom. rewrite Hroom.
          by rewrite andb_false_r.
        + rewrite bool_decide_eq_false_2 by (by intros ?).
          by rewrite andb_false_r. }
  unfold loop. destruct (waitUpdate i) eqn:Hwait; [| done].
  destruct (offers i) eqn:Hoff.
  2:{ destruct (before_flush_idle i st Hoff Hwait) as (Hb & Hw).
      rewrite flush_skip, Hb, Hw; [done |].
      unfold flush_due. rewrite Hb, Hw.
      destruct (pNmeaBuff st) as [buf |].
      - destruct Hbuf as [Hpos _]. by destruct (Z.leb_spec (WriteCounter st) 0); [lia |].
      - rewrite bool_decide_eq_false_2 by (by intros ?). apply andb_false_r. }
  destruct (at_append_frame i st) as (Hab & _).
  destruct (appends st i) eqn:Happ.
  - destruct (before_flush_appends i st Happ) as (buf & Hb0 & _ & Hb & Hw).
    assert (Z.of_nat (strlen buf) <= 127 * (12 - WriteCounter st)) as Hheld.
    { rewrite Hb0 in Hab. destruct (pNmeaBuff st) as [buf0 |].
      - injection Hab as ->. lia.
      - destruct (malloc_ok i); [| done]. injection Hab as ->. cbn. lia. }
    destruct (flush_due (before_flush i st)) eqn:Hdue.
    + destruct (flush_run (wr_room_txt i) _ Hdue) as (-> & -> & _).
      change NUMBER_OF_CACHE with 12. cbn. lia.
    + rewrite flush_skip, Hb, Hw by done.
      unfold flush_due in Hdue. rewrite Hb, Hw in Hdue.
      rewrite bool_decide_eq_true_2, andb_true_r in Hdue by done.
      apply Z.leb_gt in Hdue.
      split; [lia |]. split; [lia |].
      unfold strlen in *. rewrite c_str_strncat, length_app, length_take.
      pose proof (c_str_length (NmeaString i)).
      pose proof (Nat.le_min_r MEMORY_BUFFER_SIZE (length (c_str (NmeaString i)))).
      generalize dependent (MEMORY_BUFFER_SIZE `min` length (c_str (NmeaString i)))%nat.
      intros; lia.
  - assert (rejects st i = true) as Hrej.
    { unfold rejects, appends in *. rewrite Hoff in *. cbn in *. by rewrite Happ. }
    destruct (before_flush_rejects i st Hrej) as (Hb & Hw & _).
    assert (pNmeaBuff (at_append i st) = None) as Hnone.
    { unfold appends, has_room, strlen in Happ. rewrite Hoff in Happ. cbn in Happ.
      assert (contents (at_append i st) = contents st) as Hc
        by apply at_append_contents.
      unfold contents at 1 in Hc. destruct (pNmeaBuff (at_append i st)); [| done].
      rewrite Hc in Happ. apply Nat.ltb_nlt in Happ.
      change MEMORY_BUFFER_SIZE with 1536%nat in Happ. lia. }
    rewrite flush_skip, Hb, Hw, Hnone; [split; [lia | done] |].
    unfold flush_due. rewrite Hb, Hnone.
    rewrite bool_decide_eq_false_2 by (by intros ?). apply andb_false_r.
Qed.

(** C9.  Started by [setup], and with every line at most
    [NMEA_BUFFER_SIZE - 1] = 127 bytes long, no pass of a run finds the
    buffer too small: [used + len] stays below [MEMORY_BUFFER_SIZE] at
    line 315 in every pass, so the [else] branch is never taken for want
    of room — and never at all when the allocation succeeds. *)
Theorem short_lines_never_overflow i0 fs ins :
  Forall (fun i => (length (NmeaString i) <= NMEA_BUFFER_SIZE - 1)%nat) ins ->
  MEMORY_BUFFER_SIZE = 1536%nat /\
  Forall (fun n => (n < MEMORY_BUFFER_SIZE)%nat)
         (trace room_needed (setup i0 (power_on fs)) ins) /\
  Forall (fun b => b = false) (trace overflows (setup i0 (power_on fs)) ins) /\
  (Forall (fun i => malloc_ok i = true) ins ->
     Forall (fun b => b = false) (trace rejects (setup i0 (power_on fs)) ins)).
Proof.
  intros Hlen. split; [done |]. revert Hlen.
  pose proof (paced_start i0 fs) as Hpaced.
  generalize dependent (setup i0 (power_on fs)).
  induction ins as [| i ins IH]; intros st Hpaced Hlen.
  { cbn. repeat split; constructor. }
  apply Forall_cons in Hlen as [Hi Hlen].
  destruct (loop_paced st i Hpaced Hi) as (Hnext & Hroom & Hov & Hrej).
  destruct (IH (loop st i) Hnext Hlen) as (IH1 & IH2 & IH3).
  cbn [trace]. split; [by constructor |]. split; [by constructor |].
  intros [Hm Hms]%Forall_cons. constructor; auto.
Qed.

End RunFacts.

(** ** Power cycles *)

Section CycleFacts.
Context `{GnssSdk}.

(** Whatever the storage holds, the count is an [int], and the record is
    rewritten with it. *)
Lemma GetFileNumber_shape stack io fs :
  exists fc fs1,
    - 2 ^ 31 <= fc <= INT_MAX /\
    GetFileNumber stack io fs = (to_ulong fc, commit fc (wr_room io) fs1).
Proof.
  unfold GetFileNumber. destruct (ReadChar _ _ _ _ _ _) as [ReadSize IndexData].
  destruct (negb _).
  - eexists _, _. split; [apply to_int_range | done].
  - exists 1, fs. split; [unfold INT_MAX; lia | done].
Qed.

Lemma session_file_not_index n : session_file n <> INDEX_FILE_NAME.
Proof.
  destruct (fmt_08d_head n) as (c & rest & Hfmt & Hc).
  unfold session_file, NMEA_FILE_NAME. rewrite Hfmt. intros Heq.
  apply (f_equal (fun s => nth 13 (list_ascii_of_string s) "x"%char)) in Heq.
  rewrite list_ascii_of_string_of_list_ascii in Heq. by cbn in Heq.
Qed.

Lemma setup_files i st :
  FilenameTxt (setup i st)
    = session_file (to_int (GetFileNumber (index_stack i) (index_io i) (flash st)).1) /\
  flash (setup i st) = (GetFileNumber (index_stack i) (index_io i) (flash st)).2.
Proof.
  unfold setup, SetupPositioning, Led_isError.
  destruct (sd_ok i), (gnss_begin_ok i), (gnss_start_ok i); cbn [negb];
    cbn [flash print set_leds];
    destruct (GetFileNumber _ _ _) as [n fs]; by repeat case_match.
Qed.

(** The name fixed at startup stays for the whole session. *)
Lemma session_name fs i ins :
  FilenameTxt (run (setup i (power_on fs)) ins) = session_file (session_index fs i).
Proof.
  destruct (run_flash ins (setup i (power_on fs))) as (-> & _).
  by destruct (setup_files i (power_on fs)) as (-> & _).
Qed.

(** After a complete rewrite, the record holds the session's count until
    the next start. *)
Lemma session_record fs c :
  commit_complete fs c.1 = true ->
  flash (session fs c) !! INDEX_FILE_NAME = Some (fmt_08d (session_index fs c.1)).
Proof.
  unfold commit_complete, session, session_index. intros Hdone.
  destruct (run_flash c.2 (setup c.1 (power_on fs))) as (_ & _ & Hother).
  destruct (setup_files c.1 (power_on fs)) as (Hname & Hflash).
  rewrite Hother, Hflash.
  2:{ rewrite Hname. intros Heq. by apply (session_file_not_index _ (eq_sym Heq)). }
  cbn [flash power_on] in *.
  destruct (GetFileNumber_shape (index_stack c.1) (index_io c.1) fs)
    as (fc & fs1 & Hfc & Heq).
  rewrite Heq in *. cbn [fst snd] in *. rewrite to_int_to_ulong in * by done.
  apply commit_record. apply Nat.leb_le in Hdone.
  unfold strlen, snprintf_08d in Hdone. pose proof (fmt_08d_bounds fc).
  rewrite take_ge, fmt_08d_c_str in Hdone by (unfold INDEX_FILE_SIZE; lia).
  done.
Qed.

Lemma no_digit_ends stack k : no_digit stack = true -> ends_number (drop k stack) = true.
Proof.
  revert stack. induction k as [| k IH]; intros [| c stack]; cbn; try done.
  - by intros [Hc _]%andb_true_iff.
  - intros [_ Hrest]%andb_true_iff. by apply IH.
Qed.

(** From one clean start to the next the count goes up by one. *)
Lemma next_index fs c i :
  clean_start fs c.1 = true ->
  rd_ok (index_io i) = true -> no_digit (index_stack i) = true ->
  session_index (flash (session fs c)) i = session_index fs c.1 + 1.
Proof.
  unfold clean_start.
  intros [[[_ _]%andb_true_iff Hdone]%andb_true_iff Hmax%Z.ltb_lt]%andb_true_iff Hrd Hstack.
  pose proof (session_record fs c Hdone) as Hrec.
  pose proof (to_int_range (GetFileNumber (index_stack c.1) (index_io c.1) fs).1) as Hrange.
  fold (session_index fs c.1) in Hrange.
  unfold session_index at 1.
  rewrite (GetFileNumber_next_int _ _ _ (session_index fs c.1));
    [| done | done | lia | by apply no_digit_ends].
  cbn [fst]. apply to_int_to_ulong. lia.
Qed.

(** C6, as the code has it.  Over any series of power cycles in which every
    start can read the index record, finds no digit in the uninitialised
    bytes of [IndexData], rewrites the record completely and has a count
    below [INT_MAX], each start's count is the previous one plus one, hence
    strictly greater.  Within a session, whatever passes of [loop] are run,
    the file name is the one made from that count at startup. *)
Theorem index_strictly_increases fs cs :
  all_cycles clean_start fs cs = true ->
  (forall k a b,
     indices fs cs !! k = Some a -> indices fs cs !! S k = Some b ->
     b = a + 1 /\ a < b) /\
  (forall fs' i ins,
     FilenameTxt (run (setup i (power_on fs')) ins)
       = session_file (session_index fs' i)).
Proof.
  intros Hclean. split; [| intros; apply session_name].
  revert fs Hclean. induction cs as [| c cs IH]; intros fs Hclean k a b Ha Hb.
  { cbn [indices] in Ha. by rewrite lookup_nil in Ha. }
  cbn [all_cycles indices] in *.
  apply andb_true_iff in Hclean as [Hc Hrest].
  destruct k as [| k].
  - cbn in Ha. injection Ha as <-.
    destruct cs as [| c' cs]; [by cbn in Hb |].
    cbn in Hb. injection Hb as <-.
    cbn [all_cycles] in Hrest. apply andb_true_iff in Hrest as [Hc' _].
    unfold clean_start in Hc'.
    apply andb_true_iff in Hc' as [[[Hrd Hstack]%andb_true_iff _]%andb_true_iff _].
    rewrite (next_index fs c c'.1) by done. lia.
  - cbn in Ha, Hb. by apply (IH _ Hrest k).
Qed.

End CycleFacts.

(** ** The theorems on concrete runs *)

Lemma loop_timeout_witness :
  flush_due (held line10 0) = true /\
  loop (held line10 0) idle_in = held line10 0 /\
  flushes (held line10 0) idle_in = false.
Proof.
  split; [reflexivity |].
  apply (loop_timeout (held line10 0) idle_in). reflexivity.
Defined.

Lemma append_all_or_nothing_witness :
  contents (append line10 (held line10 5)) = line10 ++ line10 /\
  pNmeaBuff (append line10 nearly_full) = pNmeaBuff nearly_full.
Proof.
  pose proof (append_all_or_nothing (held line10 5) line10 line10 eq_refl)
    as (_ & Hfit & _).
  pose proof (append_all_or_nothing nearly_full (replicate 1530 "a"%char) line10 eq_refl)
    as (_ & _ & Hfull).
  split.
  - apply Hfit; [vm_compute; lia | reflexivity].
  - apply Hfull. vm_compute. lia.
Defined.

Lemma overflow_forces_flush_witness :
  flushes nearly_full (fix_in line10 2000) = true /\
  contents (loop nearly_full (fix_in line10 2000)) = [] /\
  file_bytes (flash (loop nearly_full (fix_in line10 2000))) (FilenameTxt nearly_full)
    = replicate 1530 "a"%char.
Proof.
  assert (overflows nearly_full (fix_in line10 2000) = true) as Hov
    by (vm_compute; reflexivity).
  destruct (overflow_forces_flush nearly_full (fix_in line10 2000) Hov)
    as (Hfl & _ & _ & _ & Hempty & _ & _ & _ & Hfile).
  split; [exact Hfl |]. split; [exact Hempty |].
  rewrite Hfile; [vm_compute; reflexivity | vm_compute; lia].
Defined.

Lemma short_write_resets_witness :
  WriteSize eleven_held (fix_in line10 90) = 90%nat /\
  length (snapshot eleven_held (fix_in line10 90)) = 120%nat /\
  contents (loop eleven_held (fix_in line10 90)) = [] /\
  WriteCounter (loop eleven_held (fix_in line10 90)) = NUMBER_OF_CACHE.
Proof.
  assert (flushes eleven_held (fix_in line10 90) = true) as Hfl
    by (vm_compute; reflexivity).
  assert (WriteSize eleven_held (fix_in line10 90)
          < length (snapshot eleven_held (fix_in line10 90)))%nat as Hshort
    by (vm_compute; lia).
  destruct (short_write_resets eleven_held (fix_in line10 90) Hfl Hshort)
    as (_ & _ & _ & Hempty & Hw & _).
  split; [vm_compute; reflexivity |]. split; [vm_compute; reflexivity |].
  split; [exact Hempty | exact Hw].
Defined.

(** C1, as stated, fails: 120 bytes are held, the storage reports 90
    written, and after the pass the buffer is empty; the next pass hands
    the storage its own ten bytes and nothing of the 120. *)
Lemma short_write_drops_buffer :
  flushes eleven_held (fix_in line10 90) = true /\
  length (snapshot eleven_held (fix_in line10 90)) = 120%nat /\
  WriteSize eleven_held (fix_in line10 90) = 90%nat /\
  contents (loop eleven_held (fix_in line10 90)) = [] /\
  contents (loop eleven_held (fix_in line10 90))
    <> snapshot eleven_held (fix_in line10 90) /\
  snapshot (loop eleven_held (fix_in line10 90)) (fix_in line10 90) = line10.
Proof. repeat split; vm_compute; congruence. Qed.

Lemma flushed_bytes_in_order_witness :
  length (flush_log ready (replicate 24 (fix_in line10 2000))) = 2%nat /\
  file_bytes (flash (run ready (replicate 24 (fix_in line10 2000)))) (FilenameTxt ready)
    = concat (flush_log ready (replicate 24 (fix_in line10 2000))).*1.
Proof.
  destruct (flushed_bytes_in_order ready (replicate 24 (fix_in line10 2000)))
    as (_ & _ & Hall).
  split; [vm_compute; reflexivity |].
  apply Hall; [vm_compute; repeat constructor | vm_compute; reflexivity].
Defined.

(** C3, as stated, fails in two ways.  A start that cannot read the index
    record takes index 1 again and writes to the end of the file an earlier
    session left: with twelve lines in each of the two sessions and every
    write complete, the file holds 240 bytes where the second session
    handed over 120.  And on a new file, a write of which the storage takes
    90 bytes of 120, followed by a complete one, leaves 210 bytes where the
    one complete write handed over 120. *)
Lemma session_file_outgrows_the_snapshots :
  FilenameTxt restarted = FilenameTxt ready /\
  Forall (fun e => e.2 = length e.1) (flush_log restarted (twelve_lines 2000)) /\
  length (concat (flush_log restarted (twelve_lines 2000)).*1) = 120%nat /\
  length (file_bytes (flash (run restarted (twelve_lines 2000)))
            (FilenameTxt restarted)) = 240%nat /\
  file_bytes (flash (run restarted (twelve_lines 2000))) (FilenameTxt restarted)
    <> concat (flush_log restarted (twelve_lines 2000)).*1 /\
  flash ready !! FilenameTxt ready = None /\
  map (fun e => (length e.1, e.2))
      (flush_log ready (twelve_lines 90 ++ twelve_lines 2000))
    = [(120%nat, 90%nat); (120%nat, 120%nat)] /\
  length (file_bytes (flash (run ready (twelve_lines 90 ++ twelve_lines 2000)))
            (FilenameTxt ready)) = 210%nat.
Proof.
  split; [vm_compute; reflexivity |].
  split; [vm_compute; repeat constructor |].
  split; [vm_compute; reflexivity |].
  split; [vm_compute; reflexivity |].
  split.
  { intros Heq. apply (f_equal length) in Heq. vm_compute in Heq. discriminate. }
  repeat split; vm_compute; reflexivity.
Qed.

Lemma flush_every_twelfth_witness :
  trace flushes ready (replicate 12 (fix_in line10 90)) !! 11%nat = Some true /\
  trace flushes ready (replicate 12 (fix_in line10 90)) !! 5%nat <> Some true.
Proof.
  assert (WriteCounter ready = NUMBER_OF_CACHE) as Hwc by reflexivity.
  assert (Forall (fun b => b = false)
            (trace rejects ready (replicate 12 (fix_in line10 90)))) as Hrej
    by (vm_compute; repeat constructor).
  destruct (flush_every_twelfth ready _ 11 Hwc Hrej) as (_ & _ & Hlast).
  destruct (flush_every_twelfth ready _ 5 Hwc Hrej) as (_ & _ & Hmid).
  split.
  - apply Hlast. split; vm_compute; reflexivity.
  - intros Hfl. apply Hmid in Hfl as [_ Hmod].
    vm_compute in Hmod. discriminate.
Defined.

Lemma short_lines_never_overflow_witness :
  Forall (fun b => b = false)
    (trace overflows ready (replicate 13 (fix_in line10 90))).
Proof.
  apply (short_lines_never_overflow (start_in 16) ∅ (replicate 13 (fix_in line10 90))).
  apply Forall_replicate. vm_compute. lia.
Defined.

Lemma index_strictly_increases_witness :
  indices ∅ (replicate 3 (start_in 16, [fix_in line10 90])) = [1; 2; 3] /\
  2 < 3.
Proof.
  assert (all_cycles clean_start ∅ (replicate 3 (start_in 16, [fix_in line10 90])) = true)
    as Hclean by (vm_compute; reflexivity).
  destruct (index_strictly_increases _ _ Hclean) as (Hup & _).
  split; [vm_compute; reflexivity |].
  apply (Hup 1%nat 2 3); vm_compute; reflexivity.
Defined.

(** C6, as stated, fails: three starts, each of which rewrites the record
    completely; the third cannot read it and falls back to 1 after 2. *)
Lemma index_falls_back_when_unreadable :
  all_cycles commit_complete ∅
    [(start_in 16, []); (start_in 16, []); (start_unreadable, [])] = true /\
  indices ∅ [(start_in 16, []); (start_in 16, []); (start_unreadable, [])]
    = [1; 2; 1] /\
  ~ (2 < 1).
Proof. split; [| split]; [vm_compute; reflexivity .. | lia]. Qed.

(** ** More on the tracker *)

Section TrackerMore.
Context `{GnssSdk}.

Lemma loop_core st i :
  waitUpdate i = true ->
  pNmeaBuff (loop st i)
    = (if flushes st i then Some [] else pNmeaBuff (before_flush i st)) /\
  WriteCounter (loop st i)
    = (if flushes st i then NUMBER_OF_CACHE else WriteCounter (before_flush i st)) /\
  contents (loop st i) = (if flushes st i then [] else snapshot st i).
Proof.
  intros Hwait. unfold loop, flushes, snapshot, contents. rewrite Hwait. cbn [andb].
  destruct (flush_due (before_flush i st)) eqn:Hdue.
  - by destruct (flush_run (wr_room_txt i) _ Hdue) as (-> & -> & _).
  - by rewrite flush_skip.
Qed.

(** Storing never fills the last byte of the buffer. *)
Lemma snapshot_fits st i :
  (used st < MEMORY_BUFFER_SIZE)%nat ->
  (length (snapshot st i) < MEMORY_BUFFER_SIZE)%nat.
Proof.
  intros Hused. unfold snapshot, before_flush, log_counter, contents. cbn [pNmeaBuff print].
  unfold store. destruct (strlen (NmeaString i) =? 0)%nat.
  { unfold Led_isError. cbn [pNmeaBuff print].
    destruct (show_fix_frame (NavData i) st) as (-> & _). exact Hused. }
  fold (at_append i st). pose proof (at_append_contents i st) as Hc.
  unfold used in Hused. rewrite <- Hc in Hused. unfold contents in Hused.
  unfold append, Led_isError.
  destruct (pNmeaBuff (at_append i st)) as [buf |] eqn:Hbuf.
  - destruct (Nat.ltb_spec (strlen buf + length (NmeaString i)) MEMORY_BUFFER_SIZE)
      as [Hroom | _].
    + cbn [pNmeaBuff set_WriteCounter set_pNmeaBuff].
      rewrite c_str_strncat, length_app, length_take. unfold strlen in Hroom.
      pose proof (c_str_length (NmeaString i)). lia.
    + cbn [pNmeaBuff set_WriteCounter print]. by rewrite Hbuf.
  - cbn [pNmeaBuff set_WriteCounter print]. by rewrite Hbuf.
Qed.

Lemma loop_fits st i :
  (used st < MEMORY_BUFFER_SIZE)%nat -> (used (loop st i) < MEMORY_BUFFER_SIZE)%nat.
Proof.
  intros Hused. destruct (waitUpdate i) eqn:Hwait.
  2:{ unfold loop. by rewrite Hwait. }
  unfold used. destruct (loop_core st i Hwait) as (_ & _ & ->).
  destruct (flushes st i); [| by apply snapshot_fits].
  change MEMORY_BUFFER_SIZE with 1536%nat. cbn [length]. lia.
Qed.

(** X1.  Started by [setup], the string in the buffer is shorter than
    [MEMORY_BUFFER_SIZE] after any run and after the [strncat] of any pass:
    the copy and its terminator always stay inside the allocated bytes,
    whatever the lines are. *)
Theorem buffer_never_overruns i0 fs ins i :
  (used (run (setup i0 (power_on fs)) ins) < MEMORY_BUFFER_SIZE)%nat /\
  (length (snapshot (run (setup i0 (power_on fs)) ins) i) < MEMORY_BUFFER_SIZE)%nat.
Proof.
  assert (used (setup i0 (power_on fs)) < MEMORY_BUFFER_SIZE)%nat as Hstart.
  { unfold used, contents. destruct (setup_statics i0 (power_on fs)) as (-> & _).
    change MEMORY_BUFFER_SIZE with 1536%nat. cbn. lia. }
  generalize dependent (setup i0 (power_on fs)).
  induction ins as [| j ins IH]; intros st Hstart.
  - split; [done | by apply snapshot_fits].
  - apply (IH (loop st j)). by apply loop_fits.
Qed.

(** X2.  As long as every write of a run is complete, nothing stored is
    lost and nothing is written twice: the session file followed by the
    buffer, after the run, is the file followed by the buffer before it,
    followed by the lines the run stored, in order. *)
Theorem stored_lines_are_kept st ins :
  Forall (fun e => e.2 = length e.1) (flush_log st ins) ->
  file_bytes (flash (run st ins)) (FilenameTxt st) ++ contents (run st ins)
    = file_bytes (flash st) (FilenameTxt st) ++ contents st
      ++ concat (stored_lines st ins).
Proof.
  revert st. induction ins as [| i ins IH]; intros st Hall.
  { cbn. by rewrite app_nil_r. }
  cbn [flush_log stored_lines run fold_left] in *. fold (run (loop st i) ins).
  apply Forall_app in Hall as [Hhead Hrest].
  destruct (loop_flash st i) as (Hname & Hflash).
  specialize (IH (loop st i) Hrest). rewrite Hname in IH. rewrite IH. clear IH.
  rewrite concat_app, !app_assoc. f_equal.
  destruct (waitUpdate i) eqn:Hwait.
  2:{ assert (appends st i = false) as ->.
      { unfold appends, offers. by rewrite Hwait. }
      unfold loop. rewrite Hwait. cbn. by rewrite app_nil_r. }
  destruct (loop_core st i Hwait) as (_ & _ & ->). rewrite Hflash.
  pose proof (snapshot_cases st i Hwait) as Hsnap.
  assert (snapshot st i = contents st ++ concat (if appends st i then [c_str (NmeaString i)] else []))
    as Hsnap'.
  { rewrite Hsnap. destruct (appends st i); cbn; by rewrite ?app_nil_r. }
  destruct (flushes st i).
  - apply Forall_cons in Hhead as [Hfull _]. cbn [fst snd] in Hfull.
    unfold WriteSize in Hfull. unfold file_bytes at 1. rewrite lookup_insert_eq.
    cbn [default from_option id].
    assert (take (wr_room_txt i) (snapshot st i) = snapshot st i) as ->.
    { rewrite length_take in Hfull. apply take_ge. lia. }
    by rewrite app_nil_r, Hsnap', !app_assoc.
  - by rewrite Hsnap', !app_assoc.
Qed.

Lemma counter_ok_not_due st : counter_ok st -> flush_due st = false.
Proof.
  unfold counter_ok, flush_due. destruct (pNmeaBuff st).
  - intros [Hpos _]. by destruct (Z.leb_spec (WriteCounter st) 0); [lia |].
  - intros _. rewrite bool_decide_eq_false_2 by (by intros ?). apply andb_false_r.
Qed.

Lemma loop_counter_ok st i : counter_ok st -> counter_ok (loop st i).
Proof.
  intros Hok. destruct (waitUpdate i) eqn:Hwait.
  2:{ unfold loop. by rewrite Hwait. }
  destruct (loop_core st i Hwait) as (Hb & Hw & _).
  unfold counter_ok in *. rewrite Hb, Hw.
  pose proof (loop_flush_due st i Hwait) as Hfl.
  destruct (flushes st i); [done |]. symmetry in Hfl.
  change NUMBER_OF_CACHE with 12 in *.
  destruct (offers i) eqn:Hoff.
  - destruct (appends st i) eqn:Happ.
    + destruct (before_flush_appends i st Happ) as (buf & _ & _ & Hb' & Hw').
      unfold flush_due in Hfl. rewrite Hb', Hw' in *.
      rewrite bool_decide_eq_true_2, andb_true_r in Hfl by done.
      apply Z.leb_gt in Hfl. destruct (pNmeaBuff st); lia.
    + assert (rejects st i = true) as Hrej.
      { unfold rejects, appends in *. rewrite Hoff in *. cbn in *. by rewrite Happ. }
      destruct (before_flush_rejects i st Hrej) as (Hb' & Hw' & _).
      unfold flush_due in Hfl. rewrite Hw' in *. cbn [Z.leb Z.compare andb] in Hfl.
      apply bool_decide_eq_false in Hfl.
      destruct (pNmeaBuff (before_flush i st)); [by destruct Hfl | by right].
  - destruct (before_flush_idle i st Hoff Hwait) as (-> & ->). done.
Qed.

(** X3.  Started by [setup], after any run the write is not pending: the
    test of line 334 is false between passes.  The counter never exceeds
    [NUMBER_OF_CACHE]; once there is a buffer it is at least 1, and before
    that it is [NUMBER_OF_CACHE] or 0. *)
Theorem counter_stays_in_range i0 fs ins :
  flush_due (run (setup i0 (power_on fs)) ins) = false /\
  WriteCounter (run (setup i0 (power_on fs)) ins) <= NUMBER_OF_CACHE /\
  counter_ok (run (setup i0 (power_on fs)) ins).
Proof.
  assert (counter_ok (setup i0 (power_on fs))) as Hstart.
  { unfold counter_ok. destruct (setup_statics i0 (power_on fs)) as (-> & ->). by left. }
  assert (counter_ok (run (setup i0 (power_on fs)) ins)) as Hok.
  { generalize dependent (setup i0 (power_on fs)).
    induction ins as [| j ins IH]; intros st Hstart; [done |].
    apply (IH (loop st j)). by apply loop_counter_ok. }
  split; [by apply counter_ok_not_due |]. split; [| done].
  unfold counter_ok in Hok. change NUMBER_OF_CACHE with 12 in *.
  destruct (pNmeaBuff _); lia.
Qed.

(** What lines 273-294 leave in the flag and on the LEDs. *)
Lemma show_fix_leds nav st :
  PosFixflag (show_fix nav st) = LedSet nav /\
  led0 (leds (show_fix nav st))
    = (if Bool.eqb (PosFixflag st) (LedSet nav) then led0 (leds st) else LedSet nav) /\
  led1 (leds (show_fix nav st))
    = (if LedSet nav
       then negb (0 =? Z.land (posSatelliteType nav) QZ_L1CA)
            || negb (0 =? Z.land (posSatelliteType nav) GPS)
       else led1 (leds st)) /\
  led2 (leds (show_fix nav st))
    = (if LedSet nav
       then negb (0 =? Z.land (posSatelliteType nav) QZ_L1S)
       else led2 (leds st)) /\
  led3 (leds (show_fix nav st)) = led3 (leds st).
Proof.
  unfold show_fix. fold (LedSet nav). unfold Led_isPosfix, ledOn, ledOff.
  destruct (PosFixflag st) eqn:Hflag, (LedSet nav) eqn:Hset; cbn;
    rewrite ?Hflag; cbn;
    repeat match goal with |- context [if ?b then _ else _] => destruct b end;
    done.
Qed.

Lemma before_flush_leds i st :
  leds (before_flush i st) = leds (show_fix (NavData i) st) /\
  PosFixflag (before_flush i st) = PosFixflag (show_fix (NavData i) st).
Proof.
  unfold before_flush, log_counter, store, append, alloc, Led_isError.
  cbn [leds PosFixflag print]. by repeat case_match.
Qed.

Lemma loop_leds st i :
  waitUpdate i = true ->
  PosFixflag (loop st i) = LedSet (NavData i) /\
  led0 (leds (loop st i))
    = (if Bool.eqb (PosFixflag st) (LedSet (NavData i))
       then led0 (leds st) else LedSet (NavData i)) /\
  led1 (leds (loop st i)) = led1 (leds (show_fix (NavData i) st)) /\
  led2 (leds (loop st i)) = led2 (leds (show_fix (NavData i) st)) /\
  led3 (leds (loop st i)) = (if flushes st i then false else led3 (leds st)).
Proof.
  intros Hwait. destruct (before_flush_leds i st) as (Hl & Hp).
  destruct (show_fix_leds (NavData i) st) as (Hflag & H0 & _ & _ & H3).
  rewrite loop_flush_due by done. unfold loop. rewrite Hwait.
  destruct (flush_due (before_flush i st)) eqn:Hdue.
  - destruct (flush_run (wr_room_txt i) _ Hdue) as (_ & _ & _ & -> & -> & _).
    rewrite Hl, Hp, Hflag, <- H0. by destruct (leds (show_fix (NavData i) st)).
  - rewrite flush_skip by done. by rewrite Hl, Hp, Hflag, <- H0, H3.
Qed.

(** X4.  Started by [setup], after any run LED0 is on exactly when the last
    fix seen was a position fix (it shows [PosFixflag]), and LED3, the
    storage-access LED, is off: it is lit only inside a pass, around the
    write. *)
Theorem leds_follow_the_fix i0 fs ins :
  led0 (leds (run (setup i0 (power_on fs)) ins))
    = PosFixflag (run (setup i0 (power_on fs)) ins) /\
  led3 (leds (run (setup i0 (power_on fs)) ins)) = false.
Proof.
  assert (leds_ok (setup i0 (power_on fs))) as Hstart.
  { unfold leds_ok, setup, SetupPositioning, Led_isError.
    destruct (sd_ok i0), (gnss_begin_ok i0), (gnss_start_ok i0); cbn [negb];
      match goal with
      | |- context [GetFileNumber ?a ?b ?c] => destruct (GetFileNumber a b c) as [n fs']
      end; by repeat case_match. }
  generalize dependent (setup i0 (power_on fs)).
  induction ins as [| j ins IH]; intros st Hstart; [done |].
  apply (IH (loop st j)). destruct Hstart as [H0 H3].
  destruct (waitUpdate j) eqn:Hwait.
  2:{ unfold loop. by rewrite Hwait. }
  destruct (loop_leds st j Hwait) as (Hflag & Hl0 & _ & _ & Hl3).
  split.
  - rewrite Hflag, Hl0, H0. by destruct (PosFixflag st), (LedSet (NavData j)).
  - rewrite Hl3, H3. by destruct (flushes st j).
Qed.

(** X5.  After a pass that received a fix, [PosFixflag] says whether that
    fix has a position.  If it has, LED1 is on exactly when the satellite
    types include GPS or QZSS L1C/A and LED2 exactly when they include
    QZSS L1S; if it has not, LED1 and LED2 are left as they were. *)
Theorem satellite_leds st i :
  waitUpdate i = true ->
  PosFixflag (loop st i) = LedSet (NavData i) /\
  (LedSet (NavData i) = true ->
     led1 (leds (loop st i))
       = negb (0 =? Z.land (posSatelliteType (NavData i)) QZ_L1CA)
         || negb (0 =? Z.land (posSatelliteType (NavData i)) GPS) /\
     led2 (leds (loop st i))
       = negb (0 =? Z.land (posSatelliteType (NavData i)) QZ_L1S)) /\
  (LedSet (NavData i) = false ->
     led1 (leds (loop st i)) = led1 (leds st) /\
     led2 (leds (loop st i)) = led2 (leds st)).
Proof.
  intros Hwait. destruct (loop_leds st i Hwait) as (Hflag & _ & H1 & H2 & _).
  destruct (show_fix_leds (NavData i) st) as (_ & _ & H1' & H2' & _).
  rewrite H1, H2, H1', H2'. split; [done |].
  split; intros ->; done.
Qed.

(** X6.  [SetupPositioning] returns 1 exactly when mounting the card,
    [Gnss.begin] or [Gnss.start] fails, and 0 otherwise.  Whatever it
    returns, [setup] leaves all four LEDs off, leaves the statics of [loop]
    alone, and has taken the next file index and built the file name from
    it. *)
Theorem setup_outcome i st :
  (SetupPositioning i st).1
    = (if sd_ok i && gnss_begin_ok i && gnss_start_ok i then 0 else 1) /\
  leds (setup i st) = all_leds false /\
  pNmeaBuff (setup i st) = pNmeaBuff st /\
  WriteCounter (setup i st) = WriteCounter st /\
  PosFixflag (setup i st) = PosFixflag st /\
  FilenameTxt (setup i st) = session_file (session_index (flash st) i) /\
  flash (setup i st) = (GetFileNumber (index_stack i) (index_io i) (flash st)).2.
Proof.
  destruct (setup_statics i st) as (Hb & Hw).
  destruct (setup_files i st) as (Hn & Hf).
  split; [| split; [| split; [done | split; [done | split; [| done]]]]].
  - unfold SetupPositioning.
    destruct (sd_ok i), (gnss_begin_ok i), (gnss_start_ok i); cbn [negb andb];
      match goal with
      | |- context [GetFileNumber ?a ?b ?c] => destruct (GetFileNumber a b c) as [n fs']
      end; done.
  - unfold setup, SetupPositioning, Led_isError.
    destruct (sd_ok i), (gnss_begin_ok i), (gnss_start_ok i); cbn [negb];
      match goal with
      | |- context [GetFileNumber ?a ?b ?c] => destruct (GetFileNumber a b c) as [n fs']
      end; by repeat case_match.
  - unfold setup, SetupPositioning, Led_isError.
    destruct (sd_ok i), (gnss_begin_ok i), (gnss_start_ok i); cbn [negb];
      match goal with
      | |- context [GetFileNumber ?a ?b ?c] => destruct (GetFileNumber a b c) as [n fs']
      end; by repeat case_match.
Qed.

(** X7.  A fix whose NMEA line comes out empty is reported and dropped:
    the pass logs "getNmea error" and the counter, and leaves buffer,
    counter, file name and flash as they were. *)
Theorem empty_line_is_dropped st i :
  waitUpdate i = true -> strlen (NmeaString i) = 0%nat -> flush_due st = false ->
  pNmeaBuff (loop st i) = pNmeaBuff st /\
  WriteCounter (loop st i) = WriteCounter st /\
  FilenameTxt (loop st i) = FilenameTxt st /\
  flash (loop st i) = flash st /\
  flushes st i = false /\
  console (loop st i)
    = console st ++ [APP_PRINT_E ("getNmea error" +:+ endl);
                     APP_PRINT_I "Write Counter : ";
                     APP_PRINT_I_num (WriteCounter st);
                     APP_PRINT_I " / Sat Type : ";
                     APP_PRINT_I_num (posSatelliteType (NavData i));
                     APP_PRINT_I endl].
Proof.
  intros Hwait Hempty Hdue.
  assert (offers i = false) as Hoff.
  { unfold offers. rewrite Hempty. apply andb_false_r. }
  destruct (before_flush_idle i st Hoff Hwait) as (Hb & Hw).
  assert (flush_due (before_flush i st) = false) as Hdue'.
  { unfold flush_due in *. by rewrite Hb, Hw. }
  destruct (loop_flash st i) as (Hn & Hf).
  rewrite loop_flush_due, Hdue' in * by done.
  assert (loop st i = before_flush i st) as Hloop.
  { unfold loop. rewrite Hwait. by apply flush_skip. }
  rewrite Hloop in *.
  repeat (split; [done |]).
  unfold before_flush, log_counter, store, Led_isError. rewrite Hempty.
  destruct (show_fix_frame (NavData i) st) as (_ & Hw' & _ & _ & Hc).
  cbn. by rewrite Hw', Hc, <- !app_assoc.
Qed.

(** X8.  When there is no buffer yet and [malloc] fails, the line is lost:
    the pass reports "no capacity to write", sets the counter to 0, writes
    nothing and still has no buffer.  The next line that finds memory is
    then written out on its own, in the pass that stores it. *)
Theorem failed_malloc_loses_the_line st i :
  pNmeaBuff st = None -> offers i = true -> malloc_ok i = false ->
  rejects st i = true /\
  flushes st i = false /\
  pNmeaBuff (loop st i) = None /\
  WriteCounter (loop st i) = 0 /\
  flash (loop st i) = flash st /\
  APP_PRINT_E ("error: no capacity to write" +:+ endl) ∈ console (loop st i) /\
  (forall j,
     offers j = true -> malloc_ok j = true ->
     (length (NmeaString j) < MEMORY_BUFFER_SIZE)%nat ->
     flushes (loop st i) j = true /\
     snapshot (loop st i) j = c_str (NmeaString j)).
Proof.
  intros Hnone Hoff Hmalloc.
  assert (waitUpdate i = true) as Hwait.
  { unfold offers in Hoff. by destruct (waitUpdate i). }
  destruct (at_append_frame i st) as (Hab & _). rewrite Hnone, Hmalloc in Hab.
  assert (rejects st i = true) as Hrej.
  { unfold rejects, has_room. by rewrite Hoff, Hab. }
  destruct (before_flush_rejects i st Hrej) as (Hb & Hw & Hc). rewrite Hab in Hb.
  assert (flush_due (before_flush i st) = false) as Hdue.
  { unfold flush_due. rewrite Hb, bool_decide_eq_false_2 by (by intros ?).
    apply andb_false_r. }
  destruct (loop_flash st i) as (_ & Hf).
  rewrite loop_flush_due, Hdue in * by done.
  assert (loop st i = before_flush i st) as Hloop.
  { unfold loop. rewrite Hwait. by apply flush_skip. }
  rewrite Hloop.
  split; [done |]. split; [done |]. split; [done |]. split; [done |].
  split; [by rewrite <- Hloop |]. split.
  { rewrite Hc. apply elem_of_app. right. apply list_elem_of_here. }
  intros j Hoffj Hmj Hlen.
  assert (waitUpdate j = true) as Hwaitj.
  { unfold offers in Hoffj. by destruct (waitUpdate j). }
  destruct (at_append_frame j (before_flush i st)) as (Habj & _).
  rewrite Hb, Hmj in Habj.
  assert (appends (before_flush i st) j = true) as Happ.
  { unfold appends, has_room. rewrite Hoffj, Habj. cbn.
    by apply Nat.ltb_lt. }
  destruct (before_flush_appends j _ Happ) as (buf & Hbuf & _ & Hbj & Hwj).
  split.
  - rewrite loop_flush_due by done. unfold flush_due.
    rewrite Hbj, Hwj, Hw. by rewrite bool_decide_eq_true_2.
  - rewrite snapshot_cases, Happ by done. unfold contents. by rewrite Hb.
Qed.

End TrackerMore.

Lemma stored_lines_are_kept_witness :
  file_bytes (flash (run ready (replicate 14 (fix_in line10 2000)))) (FilenameTxt ready)
  ++ contents (run ready (replicate 14 (fix_in line10 2000)))
  = concat (replicate 14 line10).
Proof.
  assert (Forall (fun e => e.2 = length e.1)
            (flush_log ready (replicate 14 (fix_in line10 2000)))) as Hall
    by (vm_compute; repeat constructor).
  rewrite (stored_lines_are_kept ready _ Hall). vm_compute. reflexivity.
Defined.

(** ** More on the file index and the file name *)

(** X9.  [GetFileNumber] reads and writes the index record and no other
    file.  Afterwards the record exists and holds what the storage took of
    the ["%08d"] text of the count handed back, which is always an [int]. *)
Theorem GetFileNumber_touches_only_the_index stack io fs :
  (forall name, name <> INDEX_FILE_NAME ->
     (GetFileNumber stack io fs).2 !! name = fs !! name) /\
  (exists fc,
     - 2 ^ 31 <= fc <= INT_MAX /\
     (GetFileNumber stack io fs).1 = to_ulong fc /\
     (GetFileNumber stack io fs).2 !! INDEX_FILE_NAME
       = Some (take (wr_room io) (fmt_08d fc))).
Proof.
  split.
  - intros name Hne. unfold GetFileNumber.
    destruct (ReadChar _ _ _ _ _ _) as [ReadSize IndexData].
    destruct (negb _); cbn [snd]; rewrite commit_other by done; [| done].
    unfold Remove. destruct (rm_ok io); [| done]. by rewrite lookup_delete_ne.
  - destruct (GetFileNumber_shape stack io fs) as (fc & fs1 & Hfc & ->).
    exists fc. split; [done |]. split; [done |]. cbn [snd].
    unfold commit, WriteChar, snprintf_08d. rewrite lookup_insert_eq.
    pose proof (fmt_08d_bounds fc).
    rewrite (take_ge (fmt_08d fc)) by (unfold INDEX_FILE_SIZE; lia).
    by rewrite fmt_08d_c_str.
Qed.

Lemma GetFileNumber_touches_only_the_index_witness :
  (GetFileNumber zeros16 io_good {[ "gnss_tracker/00000001.txt" := line10 ]}).2
    !! "gnss_tracker/00000001.txt" = Some line10.
Proof.
  destruct (GetFileNumber_touches_only_the_index zeros16 io_good
              {[ "gnss_tracker/00000001.txt" := line10 ]}) as (Hother & _).
  rewrite Hother; [reflexivity | vm_compute; congruence].
Defined.

Lemma fmt_08d_inj n m :
  - 2 ^ 31 <= n <= INT_MAX -> - 2 ^ 31 <= m <= INT_MAX ->
  fmt_08d n = fmt_08d m -> n = m.
Proof.
  intros Hn Hm Heq.
  rewrite <- (strtoul_fmt_08d_int n []), <- (strtoul_fmt_08d_int m []) by done.
  by rewrite Heq.
Qed.

Lemma session_file_whole k :
  list_ascii_of_string (session_file k) = txt DATA_DIR_NAME ++ fmt_08d k ++ txt ".txt".
Proof.
  unfold session_file, NMEA_FILE_NAME.
  rewrite list_ascii_of_string_of_list_ascii. apply take_ge.
  pose proof (fmt_08d_bounds k). rewrite !length_app.
  change (length (txt DATA_DIR_NAME)) with 13%nat.
  change (length (txt ".txt")) with 4%nat.
  change (OUTPUT_FILENAME_LEN - 1)%nat with 31%nat. lia.
Qed.

Lemma session_file_inj n m :
  - 2 ^ 31 <= n <= INT_MAX -> - 2 ^ 31 <= m <= INT_MAX ->
  session_file n = session_file m -> n = m.
Proof.
  intros Hn Hm Heq. apply (f_equal list_ascii_of_string) in Heq.
  rewrite !session_file_whole in Heq. apply app_inv_head, app_inv_tail in Heq.
  by apply fmt_08d_inj.
Qed.

(** X10.  For every [int] index, neither the index record nor the file name
    is cut short by its buffer: the record is the whole ["%08d"] text and
    the name is the directory, that text and ".txt".  Two different
    indices never give the same file name. *)
Theorem session_file_is_whole_and_distinct n m :
  - 2 ^ 31 <= n <= INT_MAX -> - 2 ^ 31 <= m <= INT_MAX ->
  snprintf_08d INDEX_FILE_SIZE n = fmt_08d n /\
  list_ascii_of_string (session_file n)
    = txt DATA_DIR_NAME ++ fmt_08d n ++ txt ".txt" /\
  (session_file n = session_file m -> n = m).
Proof.
  intros Hn Hm. split.
  { unfold snprintf_08d. apply take_ge. pose proof (fmt_08d_bounds n).
    change (INDEX_FILE_SIZE - 1)%nat with 15%nat. lia. }
  split; [apply session_file_whole | by apply session_file_inj].
Qed.

Lemma session_file_is_whole_and_distinct_witness :
  session_file 7 = "gnss_tracker/00000007.txt" /\
  snprintf_08d INDEX_FILE_SIZE (- 2 ^ 31) = txt "-2147483648".
Proof.
  destruct (session_file_is_whole_and_distinct 7 (- 2 ^ 31)) as (_ & _ & _);
    [unfold INT_MAX; lia .. |].
  destruct (session_file_is_whole_and_distinct (- 2 ^ 31) 7) as (Hrec & _);
    [unfold INT_MAX; lia .. |].
  split; [reflexivity |]. rewrite Hrec. reflexivity.
Defined.

(** ** The dumper *)

(** A string ends at the first NUL, whatever follows. *)
Lemma c_str_app_NUL l rest : c_str (l ++ NUL :: rest) = c_str l.
Proof.
  induction l as [| c l IH]; cbn [app c_str]; [done |].
  destruct (Ascii.eqb c NUL); [done | by rewrite IH].
Qed.

Lemma c_str_zero_padded l m : c_str (l ++ replicate (S m) NUL) = c_str l.
Proof. apply c_str_app_NUL. Qed.

Section DumperFacts.
Context `{GnssSdk}.

(** The cleared buffer holds the record followed by NULs: the number ends
    where the record ends. *)
Lemma cleared_buffer_ends k : ends_number (drop k (replicate INDEX_FILE_SIZE NUL)) = true.
Proof.
  rewrite drop_replicate. by destruct (INDEX_FILE_SIZE - k)%nat.
Qed.

Lemma PrintFileNumber_record ok fs b n :
  fs !! INDEX_FILE_NAME = Some (fmt_08d n) -> ok = true ->
  - 2 ^ 31 <= n <= INT_MAX ->
  Dumper.PrintFileNumber ok fs b
    = (n, Dumper.APP_PRINT (txt endl)
            (Dumper.APP_PRINT (fmt_08d n)
               (Dumper.APP_PRINT (txt "index number --> ") b))).
Proof.
  intros Hrec -> Hn. unfold Dumper.PrintFileNumber, ReadChar. rewrite Hrec.
  pose proof (fmt_08d_bounds n) as Hlen.
  rewrite (take_ge (fmt_08d n)) by (unfold INDEX_FILE_SIZE; lia).
  destruct (Nat.eqb_spec (length (fmt_08d n)) 0) as [Hz | _]; [lia |].
  cbn [negb]. rewrite strtoul_fmt_08d_int by (done || apply cleared_buffer_ends).
  f_equal. f_equal. f_equal. rewrite drop_replicate.
  destruct (INDEX_FILE_SIZE - length (fmt_08d n))%nat as [| m] eqn:Hm;
    [unfold INDEX_FILE_SIZE in Hm; lia |].
  by rewrite c_str_zero_padded, fmt_08d_c_str.
Qed.

(** [PrintFileNumber] on the flash a tracker session has left. *)
Lemma PrintFileNumber_session fs c b :
  commit_complete fs c.1 = true ->
  Dumper.PrintFileNumber true (flash (session fs c)) b
    = (session_index fs c.1,
       Dumper.APP_PRINT (txt endl)
         (Dumper.APP_PRINT (fmt_08d (session_index fs c.1))
            (Dumper.APP_PRINT (txt "index number --> ") b))).
Proof.
  intros Hdone. pose proof (session_record fs c Hdone) as Hrec.
  pose proof (to_int_range (GetFileNumber (index_stack c.1) (index_io c.1) fs).1)
    as Hrange.
  fold (session_index fs c.1) in Hrange.
  by apply PrintFileNumber_record.
Qed.

(** X11.  The dumper reads back the index the tracker's last session took:
    after a session whose rewrite of the index record was complete,
    [PrintFileNumber] returns that session's index and prints its
    ["%08d"] text; its own buffer is cleared beforehand, so nothing else
    enters the number.  Without a readable record it returns -1. *)
Theorem dumper_reads_the_session_index fs c b :
  commit_complete fs c.1 = true ->
  (Dumper.PrintFileNumber true (flash (session fs c)) b).1 = session_index fs c.1 /\
  Dumper.console (Dumper.PrintFileNumber true (flash (session fs c)) b).2
    = Dumper.console b
      ++ [txt "index number --> "; fmt_08d (session_index fs c.1); txt endl] /\
  (Dumper.PrintFileNumber false (flash (session fs c)) b).1 = -1 /\
  (Dumper.PrintFileNumber true ∅ b).1 = -1.
Proof.
  intros Hdone. pose proof (session_record fs c Hdone) as Hrec.
  rewrite PrintFileNumber_session by done.
  split; [done |]. split.
  { cbn. by rewrite <- !app_assoc. }
  split.
  - unfold Dumper.PrintFileNumber, ReadChar. by rewrite Hrec.
  - done.
Qed.

Lemma DumpNmeaFile_asked lib index b :
  Dumper.asked (Dumper.calls (Dumper.DumpNmeaFile lib index b))
    = Dumper.asked (Dumper.calls b) ++ [session_file index].
Proof.
  assert (forall cs cs', Dumper.asked (cs ++ cs')
                         = Dumper.asked cs ++ Dumper.asked cs') as Happ.
  { intros cs cs'. induction cs as [| [] cs IH]; cbn; by rewrite ?IH. }
  assert (forall reads buf b',
            Dumper.asked (Dumper.calls (Dumper.read_and_print reads buf b'))
            = Dumper.asked (Dumper.calls b')) as Hreads.
  { induction reads as [| chunk reads IH]; intros buf b';
      cbn [Dumper.read_and_print].
    - cbn [Dumper.calls Dumper.APP_PRINT Dumper.call].
      rewrite Happ. cbn [Dumper.asked]. by rewrite app_nil_r.
    - destruct (0 <? length (take 128 chunk))%nat; [rewrite IH |];
        cbn [Dumper.calls Dumper.APP_PRINT Dumper.call];
        rewrite Happ; cbn [Dumper.asked]; by rewrite app_nil_r. }
  unfold Dumper.DumpNmeaFile. cbn [Dumper.FilenameTxt Dumper.set_FilenameTxt].
  destruct (Dumper.lib_exists lib (session_file index)); cbn [negb].
  - destruct (Dumper.lib_open lib (session_file index)); cbn [negb].
    + cbn [Dumper.calls Dumper.call]. rewrite Happ, Hreads. cbn.
      rewrite !Happ. cbn. by rewrite !app_nil_r.
    + cbn. rewrite !Happ. cbn. by rewrite !app_nil_r.
  - cbn. by rewrite Happ.
Qed.

Lemma setup_asked lib ok fs b :
  Dumper.asked (Dumper.calls (Dumper.setup lib ok fs b))
    = Dumper.asked (Dumper.calls b)
      ++ map session_file (seqZ 0 (Dumper.PrintFileNumber ok fs
            (Dumper.all_leds true
               (Dumper.APP_PRINT (txt ("Initializing..." +:+ endl))
                  (Dumper.APP_PRINT (txt ("GNSS DUMPER version 1.00" +:+ endl)) b)))).1).
Proof.
  unfold Dumper.setup.
  destruct (Dumper.PrintFileNumber _ _ _) as [num b'] eqn:Hnum.
  assert (Dumper.calls b' = Dumper.calls b) as Hcalls.
  { unfold Dumper.PrintFileNumber in Hnum.
    destruct (ReadChar _ _ _ _ _ _) as [ReadSize IndexData].
    destruct (negb _); injection Hnum as _ <-; done. }
  cbn [fst Dumper.calls Dumper.APP_PRINT Dumper.all_leds Dumper.set_leds].
  rewrite <- Hcalls. clear Hnum Hcalls.
  generalize (seqZ 0 num). intros l. revert b'.
  induction l as [| i l IH]; intros b'; cbn [foldl map].
  - by rewrite app_nil_r.
  - rewrite IH, DumpNmeaFile_asked, <- app_assoc. done.
Qed.

(** X12.  The dumper asks for the files with index 0 up to, but not
    including, the number in the index record, in that order.  Run on the
    flash that a tracker session has left, with the record completely
    rewritten and an index [k >= 0], it asks for the files of indices
    0 to k - 1: the file of that last session, index [k], is never asked
    for. *)
Theorem dumper_skips_the_last_session lib fs c :
  commit_complete fs c.1 = true -> 0 <= session_index fs c.1 ->
  Dumper.asked (Dumper.calls (Dumper.setup lib true (flash (session fs c)) Dumper.power_on))
    = map session_file (seqZ 0 (session_index fs c.1)) /\
  FilenameTxt (session fs c) = session_file (session_index fs c.1) /\
  FilenameTxt (session fs c)
    ∉ Dumper.asked (Dumper.calls (Dumper.setup lib true (flash (session fs c)) Dumper.power_on)).
Proof.
  intros Hdone Hpos.
  pose proof (to_int_range (GetFileNumber (index_stack c.1) (index_io c.1) fs).1)
    as Hrange.
  fold (session_index fs c.1) in Hrange.
  rewrite setup_asked, PrintFileNumber_session by done. cbn [fst]. cbn [Dumper.asked Dumper.calls Dumper.power_on app].
  split; [done |].
  assert (FilenameTxt (session fs c) = session_file (session_index fs c.1)) as Hname
    by apply session_name.
  split; [done |]. rewrite Hname.
  intros (i & Heq & Hi)%list_elem_of_fmap. apply elem_of_seqZ in Hi.
  apply session_file_inj in Heq; unfold INT_MAX in *; lia.
Qed.

End DumperFacts.

(** What the read loop prints when the reads deliver [cs], each a full
    buffer, and then a last piece [c]. *)
Lemma read_and_print_console cs c : forall buf b,
  length buf = 128%nat ->
  Forall (fun x => length x = 128%nat /\ c_str x = x) cs ->
  (0 < length c <= 128)%nat ->
  Dumper.console (Dumper.read_and_print (cs ++ [c]) buf b)
    = Dumper.console b ++ cs
      ++ [c_str (c ++ drop (length c) (default buf (last cs)));
          c_str (c ++ drop (length c) (default buf (last cs)))].
Proof.
  induction cs as [| x cs IH]; intros buf b Hbuf Hfull Hc.
  - cbn [app Dumper.read_and_print last default].
    rewrite take_ge by lia.
    destruct (Nat.ltb_spec 0 (length c)) as [_ | Hz]; [| lia].
    cbn. by rewrite <- app_assoc.
  - apply Forall_cons in Hfull as [[Hx Hstr] Hfull].
    cbn [app Dumper.read_and_print]. rewrite take_ge by lia. rewrite Hx.
    rewrite drop_ge, app_nil_r by lia. cbn [Nat.ltb Nat.leb].
    rewrite IH by done. cbn [Dumper.console Dumper.APP_PRINT Dumper.call].
    rewrite Hstr, <- !app_assoc. cbn [app]. do 3 f_equal.
    assert (default x (last cs) = default buf (last (x :: cs))) as ->; [| done].
    destruct cs as [| y cs]; [done |]. rewrite last_cons_cons.
    by destruct (last (y :: cs)) eqn:Hl; [| apply last_None in Hl].
Qed.

(** X13.  [DumpNmeaFile] prints the end of a file twice.  When the reads
    deliver full buffers [cs] and then a shorter last piece [c], all free
    of NULs, the file [cs ++ [c]] comes out as [cs] followed by two copies
    of the same string: [c], run on with what the previous read left in the
    rest of the buffer, which is never cleared between reads. *)
Theorem DumpNmeaFile_repeats_the_end cs c index b :
  Forall (fun x => length x = 128%nat /\ c_str x = x) cs ->
  (0 < length c < 128)%nat -> c_str c = c ->
  Dumper.console (Dumper.DumpNmeaFile (Dumper.lib_with (cs ++ [c])) index b)
    = Dumper.console b
      ++ [txt (session_file index); txt endl] ++ cs
      ++ [c ++ drop (length c) (default [] (last cs));
          c ++ drop (length c) (default [] (last cs))].
Proof.
  intros Hfull Hc Hstr. unfold Dumper.DumpNmeaFile, Dumper.lib_with.
  cbn [Dumper.lib_exists Dumper.lib_open Dumper.lib_reads negb
       Dumper.FilenameTxt Dumper.set_FilenameTxt].
  cbn [Dumper.console Dumper.call].
  rewrite read_and_print_console by (done || lia || by rewrite length_replicate).
  cbn [Dumper.console Dumper.call Dumper.APP_PRINT Dumper.set_FilenameTxt].
  rewrite <- !app_assoc. cbn [app]. do 4 f_equal.
  assert (c_str (c ++ drop (length c) (default (replicate 128 NUL) (last cs)))
          = c ++ drop (length c) (default [] (last cs))) as ->; [| done].
  destruct (last cs) as [x |] eqn:Hlast; cbn [default].
  - apply last_Some in Hlast as (cs' & ->).
    apply Forall_app in Hfull as [_ [[_ Hx] _]%Forall_cons].
    apply c_str_id, Forall_app. rewrite <- Hstr, <- Hx. split; [apply c_str_clean |].
    apply Forall_drop, c_str_clean.
  - rewrite drop_replicate, drop_nil, app_nil_r.
    destruct (128 - length c)%nat as [| m] eqn:Hm; [lia |].
    by rewrite c_str_zero_padded.
Qed.

Lemma dumper_reads_the_session_index_witness :
  (Dumper.PrintFileNumber true
     (flash (session ∅ (start_in 16, [fix_in line10 90]))) Dumper.power_on).1 = 1.
Proof.
  assert (commit_complete ∅ (start_in 16, [fix_in line10 90]).1 = true) as Hdone
    by (vm_compute; reflexivity).
  destruct (dumper_reads_the_session_index ∅ (start_in 16, [fix_in line10 90])
              Dumper.power_on Hdone) as (Hnum & _).
  rewrite Hnum. vm_compute. reflexivity.
Defined.

Lemma dumper_skips_the_last_session_witness :
  Dumper.asked (Dumper.calls
    (Dumper.setup (Dumper.lib_with [line10]) true
       (flash (session ∅ (start_in 16, [fix_in line10 90]))) Dumper.power_on))
  = ["gnss_tracker/00000000.txt"].
Proof.
  assert (commit_complete ∅ (start_in 16, [fix_in line10 90]).1 = true) as Hdone
    by (vm_compute; reflexivity).
  assert (0 <= session_index ∅ (start_in 16, [fix_in line10 90]).1) as Hpos
    by (vm_compute; congruence).
  destruct (dumper_skips_the_last_session (Dumper.lib_with [line10]) ∅
              (start_in 16, [fix_in line10 90]) Hdone Hpos) as (Hasked & _).
  rewrite Hasked. vm_compute. reflexivity.
Defined.

Lemma DumpNmeaFile_repeats_the_end_witness :
  Dumper.console (Dumper.DumpNmeaFile
    (Dumper.lib_with ([replicate 128 "a"%char] ++ [line10])) 1 Dumper.power_on)
  = [txt "gnss_tracker/00000001.txt"; txt endl; replicate 128 "a"%char;
     line10 ++ replicate 118 "a"%char; line10 ++ replicate 118 "a"%char].
Proof.
  rewrite (DumpNmeaFile_repeats_the_end [replicate 128 "a"%char] line10 1 Dumper.power_on).
  - reflexivity.
  - repeat constructor.
  - vm_compute. lia.
  - reflexivity.
Defined.

(** ** The tiny filer: commands *)

Lemma dec_nonempty n : exists c rest, dec n = c :: rest.
Proof.
  pose proof (dec_length n) as Hlen.
  destruct (dec n) as [| c rest]; [simpl in Hlen; lia | by eexists _, _].
Qed.

Lemma scan_dec n rest :
  0 <= n < 10 ^ 10 -> ends_number rest = true -> scan_digits (dec n ++ rest) 0 = n.
Proof.
  intros Hn Hrest. unfold dec. rewrite scan_dec_le; [by apply scan_ends |].
  change (10 ^ Z.of_nat 10) with (10 ^ 10). lia.
Qed.

(** A string that opens with a digit is read as a non-negative number. *)
Lemma strtol_digit c s :
  is_Some (digit_val c) ->
  strtol (c :: s) =
    if LONG_MAX <? scan_digits (c :: s) 0 then LONG_MAX else scan_digits (c :: s) 0.
Proof.
  intros [d Hd]. unfold strtol.
  assert (skip_space (c :: s) = c :: s) as ->.
  { cbn [skip_space]. destruct c as [[] [] [] [] [] [] [] []]; try done. }
  destruct c as [[] [] [] [] [] [] [] []]; try done.
Qed.

(** [strtol] reads back the decimal digits of a [long]. *)
Lemma strtol_dec n rest :
  0 <= n <= LONG_MAX -> ends_number rest = true -> strtol (dec n ++ rest) = n.
Proof.
  unfold LONG_MAX. change (2 ^ 31 - 1) with 2147483647. intros Hn Hrest.
  pose proof (scan_dec n rest ltac:(change (10 ^ 10) with 10000000000; lia) Hrest)
    as Hscan.
  pose proof (dec_digits n ltac:(lia)) as Hdig.
  destruct (dec_nonempty n) as (c & s & Hdec). rewrite Hdec in *.
  apply Forall_cons in Hdig as [Hc _]. cbn [app] in *.
  rewrite strtol_digit, Hscan by done.
  unfold LONG_MAX. change (2 ^ 31 - 1) with 2147483647.
  by destruct (Z.ltb_spec 2147483647 n); [lia |].
Qed.

Lemma strtol_minus_dec n rest :
  0 <= n <= - LONG_MIN -> ends_number rest = true ->
  strtol ("-"%char :: dec n ++ rest) = - n.
Proof.
  unfold LONG_MIN. change (- - 2 ^ 31) with 2147483648. intros Hn Hrest.
  unfold strtol.
  assert (forall l, skip_space ("-"%char :: l) = "-"%char :: l) as -> by done.
  rewrite scan_dec by (done || change (10 ^ 10) with 10000000000; lia).
  unfold LONG_MIN. change (- - 2 ^ 31) with 2147483648.
  by destruct (Z.ltb_spec 2147483648 n); [lia |].
Qed.

Lemma skip_space_app_NUL l rest :
  skip_space (l ++ NUL :: rest) = skip_space l ++ NUL :: rest.
Proof.
  induction l as [| c l IH]; [done |].
  cbn [app skip_space]. by destruct (isspace c).
Qed.

Lemma scan_digits_app_NUL l rest acc :
  scan_digits (l ++ NUL :: rest) acc = scan_digits l acc.
Proof.
  revert acc. induction l as [| c l IH]; intros acc; [done |].
  cbn [app scan_digits]. by destruct (digit_val c).
Qed.

(** [strtol] does not look past the terminator. *)
Lemma strtol_app_NUL l rest : strtol (l ++ NUL :: rest) = strtol l.
Proof.
  unfold strtol. rewrite skip_space_app_NUL.
  destruct (skip_space l) as [| c s]; [done |]. cbn [app].
  destruct (Ascii.eqb_spec c "-"%char) as [-> | Hm].
  { by rewrite scan_digits_app_NUL. }
  destruct (Ascii.eqb_spec c "+"%char) as [-> | Hp].
  { by rewrite scan_digits_app_NUL. }
  replace (match c :: s ++ NUL :: rest with
           | "-"%char :: t => (true, t)
           | "+"%char :: t => (false, t)
           | _ => (false, c :: s ++ NUL :: rest)
           end) with (false, c :: s ++ NUL :: rest).
  2:{ destruct c as [[] [] [] [] [] [] [] []]; congruence. }
  replace (match c :: s with
           | "-"%char :: t => (true, t)
           | "+"%char :: t => (false, t)
           | _ => (false, c :: s)
           end) with (false, c :: s).
  2:{ destruct c as [[] [] [] [] [] [] [] []]; congruence. }
  pose proof (scan_digits_app_NUL (c :: s) rest 0) as Hscan.
  cbn [app] in Hscan. by rewrite Hscan.
Qed.

Lemma testbit_odd_div a k : 0 <= k -> Z.testbit a k = Z.odd (a / 2 ^ k).
Proof.
  intros Hk. by rewrite <- Z.bit0_odd, Z.div_pow2_bits by lia.
Qed.

(** Testing one flag bit of a command number. *)
Lemma land_flag a k :
  0 <= k -> Z.land (2 ^ k) a = if Z.odd (a / 2 ^ k) then 2 ^ k else 0.
Proof.
  intros Hk. rewrite <- testbit_odd_div by done.
  apply Z.bits_inj'. intros i Hi. rewrite Z.land_spec, Z.pow2_bits_eqb by done.
  destruct (Z.eqb_spec k i) as [-> | Hne].
  - destruct (Z.testbit a i); [| by rewrite Z.bits_0].
    by rewrite Z.pow2_bits_eqb, Z.eqb_refl by done.
  - cbn. destruct (Z.testbit a k); [| by rewrite Z.bits_0].
    rewrite Z.pow2_bits_eqb by done. by destruct (Z.eqb_spec k i).
Qed.

(** Setting a flag above a 16-bit number adds it. *)
Lemma lor_flag n k :
  0 <= n < 2 ^ 16 -> 16 <= k -> Z.lor n (2 ^ k) = n + 2 ^ k.
Proof.
  intros Hn Hk. rewrite <- Z.lxor_lor, <- Z.add_nocarry_lxor; try done;
    rewrite Z.land_comm, land_flag by lia;
    (rewrite Z.div_small; [done |]);
    (split; [lia |]);
    (apply Z.lt_le_trans with (2 ^ 16); [lia |]);
    apply Z.pow_le_mono_r; lia.
Qed.

Lemma dec_not_command_letter n c s :
  dec n = c :: s -> 0 <= n ->
  ((48 <=? nat_of_ascii c)%nat && (nat_of_ascii c <=? 57)%nat) = true.
Proof.
  intros Hdec Hn. pose proof (dec_digits n Hn) as Hdig. rewrite Hdec in Hdig.
  apply Forall_cons in Hdig as [[d Hd] _].
  destruct c as [[] [] [] [] [] [] [] []]; done.
Qed.

(** A number typed on its own is the command number. *)
Lemma ParseCommand_number m len :
  0 <= m <= LONG_MAX -> 0 < len -> TinyFiler.ParseCommand (dec m) len = m.
Proof.
  intros Hm Hlen. unfold TinyFiler.ParseCommand.
  destruct (Z.leb_spec len 0); [lia |].
  destruct (dec_nonempty m) as (c & s & Hdec).
  pose proof (strtol_dec m [] Hm eq_refl) as Hval. rewrite app_nil_r, Hdec in Hval.
  rewrite Hdec. cbn [hd]. rewrite (dec_not_command_letter m c s) by (done || lia).
  rewrite Hval. change TinyFiler.COMMAND_FLAG_SHOW with 0. rewrite Z.lor_0_r.
  apply to_ulong_small. unfold LONG_MAX, ULONG_MAX in *. lia.
Qed.

(** A number typed after a command letter has the letter's flag added. *)
Lemma ParseCommand_letter n len letter k :
  0 <= n < 65536 -> 0 < len ->
  (letter = "d"%char \/ letter = "D"%char) /\ k = 16 \/
  (letter = "y"%char \/ letter = "Y"%char) /\ k = 20 ->
  TinyFiler.ParseCommand (letter :: dec n) len = n + 2 ^ k.
Proof.
  intros Hn Hlen Hcase. unfold TinyFiler.ParseCommand.
  destruct (Z.leb_spec len 0); [lia |]. cbn [hd tail].
  pose proof (strtol_dec n [] ltac:(unfold LONG_MAX; lia) eq_refl) as Hval.
  rewrite app_nil_r in Hval.
  destruct Hcase as [[[-> | ->] ->] | [[-> | ->] ->]];
    match goal with
    | |- context [(48 <=? nat_of_ascii ?l)%nat && (nat_of_ascii ?l <=? 57)%nat] =>
        replace ((48 <=? nat_of_ascii l)%nat && (nat_of_ascii l <=? 57)%nat)
          with false by (vm_compute; reflexivity)
    end;
    cbn [Ascii.eqb Bool.eqb orb andb];
    rewrite Hval, to_ulong_small by (unfold ULONG_MAX; lia);
    (rewrite <- lor_flag by lia); done.
Qed.

(** The flag bits and the low 16 bits of [n + 2 ^ 16]. *)
Lemma delete_bits n :
  0 <= n < 65536 ->
  Z.land (n + 65536) 0xffff = n /\
  Z.land TinyFiler.COMMAND_FLAG_DEL (n + 65536) = 65536 /\
  Z.land TinyFiler.COMMAND_FLAG_DWLD (n + 65536) = 0 /\
  Z.land TinyFiler.COMMAND_FLAG_NONE (n + 65536) = 0.
Proof.
  intros Hn. change 0xffff with (Z.ones 16).
  split. { rewrite Z.land_ones by lia. change (2 ^ 16) with 65536.
           Z.div_mod_to_equations. lia. }
  change TinyFiler.COMMAND_FLAG_DEL with (2 ^ 16).
  change TinyFiler.COMMAND_FLAG_DWLD with (2 ^ 20).
  change TinyFiler.COMMAND_FLAG_NONE with (2 ^ 24).
  rewrite !land_flag by lia.
  assert ((n + 65536) / 2 ^ 16 = 1) as -> by (change (2 ^ 16) with 65536; Z.div_mod_to_equations; lia).
  assert ((n + 65536) / 2 ^ 20 = 0) as -> by (change (2 ^ 20) with 1048576; Z.div_mod_to_equations; lia).
  assert ((n + 65536) / 2 ^ 24 = 0) as -> by (change (2 ^ 24) with 16777216; Z.div_mod_to_equations; lia).
  done.
Qed.

(** The flag bits and the low 16 bits of [n + 2 ^ 20]. *)
Lemma download_bits n :
  0 <= n < 65536 ->
  Z.land (n + 1048576) 0xffff = n /\
  Z.land TinyFiler.COMMAND_FLAG_DEL (n + 1048576) = 0 /\
  Z.land TinyFiler.COMMAND_FLAG_DWLD (n + 1048576) = 1048576 /\
  Z.land TinyFiler.COMMAND_FLAG_NONE (n + 1048576) = 0.
Proof.
  intros Hn. change 0xffff with (Z.ones 16).
  split. { rewrite Z.land_ones by lia. change (2 ^ 16) with 65536.
           Z.div_mod_to_equations. lia. }
  change TinyFiler.COMMAND_FLAG_DEL with (2 ^ 16).
  change TinyFiler.COMMAND_FLAG_DWLD with (2 ^ 20).
  change TinyFiler.COMMAND_FLAG_NONE with (2 ^ 24).
  rewrite !land_flag by lia.
  assert ((n + 1048576) / 2 ^ 16 = 16) as -> by (change (2 ^ 16) with 65536; Z.div_mod_to_equations; lia).
  assert ((n + 1048576) / 2 ^ 20 = 1) as -> by (change (2 ^ 20) with 1048576; Z.div_mod_to_equations; lia).
  assert ((n + 1048576) / 2 ^ 24 = 0) as -> by (change (2 ^ 24) with 16777216; Z.div_mod_to_equations; lia).
  done.
Qed.

(** X14.  A number below 65536 typed after [d] or [y] comes back in the low
    16 bits of the command number with the delete or download flag set
    above it and the "no command" flag clear, so [loop] recovers the
    number with [& 0xffff].  A number typed on its own is not confined to
    16 bits: [65536 + n] is the same command number as [d] followed by
    [n]. *)
Theorem ParseCommand_decodes n len :
  0 <= n < 65536 -> 0 < len ->
  TinyFiler.ParseCommand (dec n) len = n /\
  TinyFiler.ParseCommand ("d"%char :: dec n) len = n + 65536 /\
  TinyFiler.ParseCommand ("D"%char :: dec n) len = n + 65536 /\
  TinyFiler.ParseCommand ("y"%char :: dec n) len = n + 1048576 /\
  TinyFiler.ParseCommand ("Y"%char :: dec n) len = n + 1048576 /\
  Z.land (n + 65536) 0xffff = n /\
  Z.land (n + 1048576) 0xffff = n /\
  Z.land TinyFiler.COMMAND_FLAG_DEL (n + 65536) = 65536 /\
  Z.land TinyFiler.COMMAND_FLAG_DWLD (n + 65536) = 0 /\
  Z.land TinyFiler.COMMAND_FLAG_NONE (n + 65536) = 0 /\
  Z.land TinyFiler.COMMAND_FLAG_DEL (n + 1048576) = 0 /\
  Z.land TinyFiler.COMMAND_FLAG_DWLD (n + 1048576) = 1048576 /\
  Z.land TinyFiler.COMMAND_FLAG_NONE (n + 1048576) = 0 /\
  TinyFiler.ParseCommand (dec (65536 + n)) len
    = TinyFiler.ParseCommand ("d"%char :: dec n) len.
Proof.
  intros Hn Hlen.
  destruct (delete_bits n Hn) as (Hd1 & Hd2 & Hd3 & Hd4).
  destruct (download_bits n Hn) as (Hy1 & Hy2 & Hy3 & Hy4).
  split; [apply ParseCommand_number; unfold LONG_MAX; lia |].
  repeat (split; [apply (ParseCommand_letter n len _ 16); tauto |]).
  repeat (split; [apply (ParseCommand_letter n len _ 20); tauto |]).
  repeat (split; [done |]).
  rewrite ParseCommand_number by (unfold LONG_MAX; lia).
  rewrite (ParseCommand_letter n len _ 16) by tauto.
  change (2 ^ 16) with 65536. lia.
Qed.

Lemma ParseCommand_decodes_witness :
  TinyFiler.ParseCommand (txt "d12") 3 = 12 + 65536 /\
  TinyFiler.ParseCommand (txt "65548") 5 = TinyFiler.ParseCommand (txt "d12") 3.
Proof.
  destruct (ParseCommand_decodes 12 3) as (_ & Hd & _); [lia | lia |].
  destruct (ParseCommand_decodes 12 5) as (_ & Hd5 & _ & _ & _ & _ & _ & _ & _ & _ & _ & _ & _ & Halias);
    [lia | lia |].
  split; [exact Hd |]. change (txt "65548") with (dec (65536 + 12)).
  rewrite Halias. change (dec 12) with (txt "12"). reflexivity.
Defined.

(** ** The tiny filer: lines from the serial port *)

(** [ParseCommand] does not look past the terminator. *)
Lemma ParseCommand_app_NUL l rest len :
  TinyFiler.ParseCommand (l ++ NUL :: rest) len = TinyFiler.ParseCommand l len.
Proof.
  unfold TinyFiler.ParseCommand. destruct (len <=? 0); [done |].
  destruct l as [| c l]; [done |].
  cbn [app hd tail]. rewrite strtol_app_NUL.
  change (c :: l ++ NUL :: rest) with ((c :: l) ++ NUL :: rest).
  by rewrite strtol_app_NUL.
Qed.

Lemma in_line_eqb c :
  TinyFiler.in_line c -> Ascii.eqb TinyFiler.LF c || Ascii.eqb TinyFiler.CR c = false.
Proof.
  intros [Hlf Hcr].
  destruct (Ascii.eqb_spec TinyFiler.LF c); [congruence |].
  destruct (Ascii.eqb_spec TinyFiler.CR c); [congruence | done].
Qed.

(** Bytes that do not end the line are queued. *)
Lemma queue_chars_partial line : forall f,
  length (TinyFiler.buf f) = 64%nat ->
  (TinyFiler.idx f + length line <= 64)%nat ->
  Forall TinyFiler.in_line line ->
  exists f',
    TinyFiler.queue_chars line f = Some (TinyFiler.COMMAND_FLAG_NONE, f') /\
    TinyFiler.idx f' = (TinyFiler.idx f + length line)%nat /\
    take (TinyFiler.idx f') (TinyFiler.buf f')
      = take (TinyFiler.idx f) (TinyFiler.buf f) ++ line /\
    length (TinyFiler.buf f') = 64%nat /\
    TinyFiler.rx f' = [] /\
    TinyFiler.entryPoints f' = TinyFiler.entryPoints f /\
    TinyFiler.current f' = TinyFiler.current f /\
    TinyFiler.calls f' = TinyFiler.calls f /\
    TinyFiler.serial f'
      = TinyFiler.serial f ++ map TinyFiler.println_char line.
Proof.
  induction line as [| c line IH]; intros f Hbuf Hidx Hline.
  { eexists. split; [done |]. cbn. by rewrite Nat.add_0_r, !app_nil_r. }
  apply Forall_cons in Hline as [Hc Hline]. cbn [length] in Hidx.
  cbn [TinyFiler.queue_chars].
  cbn [TinyFiler.idx TinyFiler.buf TinyFiler.out].
  destruct (Nat.ltb_spec (TinyFiler.idx f) 64) as [Hlt | ?]; [| lia].
  rewrite in_line_eqb by done.
  edestruct (IH (TinyFiler.set_queue (<[TinyFiler.idx f:=c]> (TinyFiler.buf f))
                   (S (TinyFiler.idx f)) line
                   (TinyFiler.out (TinyFiler.println_char c) f)))
    as (f' & Hq & Hi & Ht & Hl & Hr & He & Hcur & Hcalls & Hs).
  { cbn. by rewrite length_insert. }
  { cbn. lia. }
  { done. }
  exists f'. split; [exact Hq |]. cbn in Hi, Ht, Hs, He, Hcur, Hcalls.
  split; [cbn [length]; lia |]. split.
  { rewrite Ht. rewrite (take_S_r _ _ c) by (apply list_lookup_insert_eq; lia).
    rewrite take_insert_ge by lia. by rewrite <- app_assoc. }
  repeat (split; [done |]). rewrite Hs. cbn. by rewrite <- app_assoc.
Qed.

(** A newline hands the queued bytes to [ParseCommand] and empties the
    queue. *)
Lemma queue_chars_line line : forall f nl more,
  length (TinyFiler.buf f) = 64%nat ->
  (TinyFiler.idx f + length line < 64)%nat ->
  Forall TinyFiler.in_line line ->
  nl = TinyFiler.LF \/ nl = TinyFiler.CR ->
  exists f',
    TinyFiler.queue_chars (line ++ nl :: more) f
      = Some (TinyFiler.ParseCommand (take (TinyFiler.idx f) (TinyFiler.buf f) ++ line)
                (Z.of_nat (TinyFiler.idx f + length line)), f') /\
    TinyFiler.idx f' = 0%nat /\
    TinyFiler.rx f' = more /\
    TinyFiler.entryPoints f' = TinyFiler.entryPoints f /\
    TinyFiler.current f' = TinyFiler.current f /\
    TinyFiler.calls f' = TinyFiler.calls f /\
    TinyFiler.serial f'
      = TinyFiler.serial f ++ map TinyFiler.println_char (line ++ [nl]).
Proof.
  induction line as [| c line IH]; intros f nl more Hbuf Hidx Hline Hnl.
  { cbn [app TinyFiler.queue_chars length] in *.
    cbn [TinyFiler.idx TinyFiler.buf TinyFiler.out].
    destruct (Nat.ltb_spec (TinyFiler.idx f) 64) as [Hlt | ?]; [| lia].
    assert (Ascii.eqb TinyFiler.LF nl || Ascii.eqb TinyFiler.CR nl = true) as ->.
    { by destruct Hnl as [-> | ->]. }
    eexists. split.
    { rewrite insert_take_drop by lia. rewrite ParseCommand_app_NUL.
      by rewrite app_nil_r, Nat.add_0_r. }
    done. }
  apply Forall_cons in Hline as [Hc Hline]. cbn [length] in Hidx.
  cbn [app TinyFiler.queue_chars].
  cbn [TinyFiler.idx TinyFiler.buf TinyFiler.out].
  destruct (Nat.ltb_spec (TinyFiler.idx f) 64) as [Hlt | ?]; [| lia].
  rewrite in_line_eqb by done.
  edestruct (IH (TinyFiler.set_queue (<[TinyFiler.idx f:=c]> (TinyFiler.buf f))
                   (S (TinyFiler.idx f)) (line ++ nl :: more)
                   (TinyFiler.out (TinyFiler.println_char c) f)) nl more)
    as (f' & Hq & Hi & Hr & He & Hcur & Hcalls & Hs).
  { cbn. by rewrite length_insert. }
  { cbn. lia. }
  { done. }
  { done. }
  exists f'. cbn in Hq, Hs, He, Hcur, Hcalls. split.
  { rewrite Hq.
    rewrite (take_S_r _ _ c) by (apply list_lookup_insert_eq; lia).
    rewrite take_insert_ge by lia. rewrite <- app_assoc. cbn [app length].
    by replace (TinyFiler.idx f + S (length line))%nat
      with (S (TinyFiler.idx f + length line)) by lia. }
  repeat (split; [done |]). rewrite Hs. cbn. by rewrite <- app_assoc.
Qed.

(** Once the queue is full, the next byte is stored past its end. *)
Lemma queue_chars_overflow line : forall f c more,
  (64 <= TinyFiler.idx f + length line)%nat ->
  Forall TinyFiler.in_line line ->
  TinyFiler.queue_chars (line ++ c :: more) f = None.
Proof.
  induction line as [| c' line IH]; intros f c more Hidx Hline.
  { cbn [app TinyFiler.queue_chars length] in *.
    cbn [TinyFiler.idx TinyFiler.out].
    by destruct (Nat.ltb_spec (TinyFiler.idx f) 64) as [Hlt | ?]; [lia |]. }
  apply Forall_cons in Hline as [Hc Hline]. cbn [length] in Hidx.
  cbn [app TinyFiler.queue_chars].
  cbn [TinyFiler.idx TinyFiler.buf TinyFiler.out].
  destruct (Nat.ltb_spec (TinyFiler.idx f) 64) as [Hlt | ?]; [| done].
  rewrite in_line_eqb by done. apply IH; [cbn; lia | done].
Qed.

(** A line received with an empty queue. *)
Lemma QueueCommand_line f line nl more :
  TinyFiler.idx f = 0%nat -> TinyFiler.rx f = line ++ nl :: more ->
  (length line < 64)%nat -> Forall TinyFiler.in_line line ->
  nl = TinyFiler.LF \/ nl = TinyFiler.CR ->
  exists f',
    TinyFiler.QueueCommand f
      = Some (TinyFiler.ParseCommand line (Z.of_nat (length line)), f') /\
    TinyFiler.idx f' = 0%nat /\
    TinyFiler.rx f' = more /\
    TinyFiler.entryPoints f' = TinyFiler.entryPoints f /\
    TinyFiler.current f' = TinyFiler.current f /\
    TinyFiler.calls f' = TinyFiler.calls f /\
    TinyFiler.serial f'
      = TinyFiler.serial f ++ map TinyFiler.println_char (line ++ [nl]).
Proof.
  intros Hidx Hrx Hlen Hline Hnl. unfold TinyFiler.QueueCommand.
  rewrite Hidx. cbn [Nat.eqb TinyFiler.rx TinyFiler.set_queue]. rewrite Hrx.
  destruct (queue_chars_line line
              (TinyFiler.set_queue (replicate 64 NUL) 0 (line ++ nl :: more) f)
              nl more eq_refl Hlen Hline Hnl) as (f' & Hq & Hrest).
  exists f'. split; [| exact Hrest]. rewrite Hq. done.
Qed.

(** X15.  [QueueCommand] assembles a line from the bytes received, however
    they are split over calls: a call that receives the start of a line
    reports "no command" and keeps the bytes; the call that receives the
    rest and the newline (LF or CR) hands the whole line to [ParseCommand],
    empties the queue and leaves what follows the newline in the receiver.
    This holds for lines of up to 63 bytes; once 64 bytes are queued,
    the next byte received is stored past the end of [buf]. *)
Theorem QueueCommand_assembles_lines f part1 part2 nl more :
  TinyFiler.idx f = 0%nat -> TinyFiler.rx f = [] ->
  Forall TinyFiler.in_line part1 -> Forall TinyFiler.in_line part2 ->
  nl = TinyFiler.LF \/ nl = TinyFiler.CR ->
  ((length part1 + length part2 < 64)%nat ->
   exists f1 f2,
     TinyFiler.QueueCommand (TinyFiler.receive part1 f)
       = Some (TinyFiler.COMMAND_FLAG_NONE, f1) /\
     TinyFiler.QueueCommand (TinyFiler.receive (part2 ++ nl :: more) f1)
       = Some (TinyFiler.ParseCommand (part1 ++ part2)
                 (Z.of_nat (length (part1 ++ part2))), f2) /\
     TinyFiler.idx f2 = 0%nat /\ TinyFiler.rx f2 = more /\
     TinyFiler.entryPoints f2 = TinyFiler.entryPoints f /\
     TinyFiler.calls f2 = TinyFiler.calls f) /\
  ((64 <= length part1)%nat ->
   TinyFiler.QueueCommand (TinyFiler.receive (part1 ++ nl :: more) f) = None).
Proof.
  intros Hidx Hrx Hp1 Hp2 Hnl. split.
  - intros Hlen.
    destruct (queue_chars_partial part1
                (TinyFiler.set_queue (replicate 64 NUL) 0 part1
                   (TinyFiler.receive part1 f))
                eq_refl ltac:(cbn; lia) Hp1)
      as (f1 & Hq1 & Hi1 & Ht1 & Hl1 & Hr1 & He1 & _ & Hc1 & _).
    cbn in Hi1, Ht1, He1, Hc1.
    assert (TinyFiler.QueueCommand (TinyFiler.receive part1 f)
            = Some (TinyFiler.COMMAND_FLAG_NONE, f1)) as Hfirst.
    { unfold TinyFiler.QueueCommand, TinyFiler.receive.
      cbn [TinyFiler.idx TinyFiler.rx TinyFiler.set_queue].
      rewrite Hidx, Hrx. cbn [Nat.eqb app]. exact Hq1. }
    exists f1.
    assert (TinyFiler.rx (TinyFiler.receive (part2 ++ nl :: more) f1)
            = part2 ++ nl :: more) as Hrx2.
    { unfold TinyFiler.receive. cbn. by rewrite Hr1. }
    destruct (length part1) as [| k] eqn:Hk.
    + apply length_zero_iff_nil in Hk. subst part1. cbn [app].
      destruct (QueueCommand_line (TinyFiler.receive (part2 ++ nl :: more) f1)
                  part2 nl more Hi1 Hrx2 ltac:(cbn in *; lia) Hp2 Hnl)
        as (f2 & Hq2 & Hi2 & Hr2 & He2 & _ & Hc2 & _).
      exists f2. split; [done |]. split; [exact Hq2 |].
      cbn in He2, Hc2. by rewrite He2, Hc2, He1, Hc1.
    + destruct (queue_chars_line part2
                  (TinyFiler.receive (part2 ++ nl :: more) f1) nl more
                  Hl1 ltac:(cbn; lia) Hp2 Hnl)
        as (f2 & Hq2 & Hi2 & Hr2 & He2 & _ & Hc2 & _).
      exists f2. split; [done |]. cbn in Hq2, He2, Hc2. split.
      { unfold TinyFiler.QueueCommand. cbn [TinyFiler.idx TinyFiler.receive TinyFiler.set_queue].
        rewrite Hi1. cbn [Nat.eqb]. rewrite Hrx2.
        fold (TinyFiler.receive (part2 ++ nl :: more) f1).
        by rewrite Hq2, Ht1, Hi1, length_app, Hk. }
      by rewrite He2, Hc2, He1, Hc1.
  - intros Hlong. unfold TinyFiler.QueueCommand, TinyFiler.receive.
    cbn [TinyFiler.idx TinyFiler.rx TinyFiler.set_queue].
    rewrite Hidx, Hrx. cbn [Nat.eqb app TinyFiler.rx].
    apply queue_chars_overflow; [cbn; lia | done].
Qed.

(** ** The tiny filer: the table of entries *)

(** A digit does not end a line. *)
Lemma digit_in_line c : is_Some (digit_val c) -> TinyFiler.in_line c.
Proof.
  intros [d Hd]. split; intros ->; vm_compute in Hd; discriminate.
Qed.

Lemma dec_in_line n : 0 <= n -> Forall TinyFiler.in_line (dec n).
Proof.
  intros Hn. eapply Forall_impl; [by apply dec_digits |]. apply digit_in_line.
Qed.

(** The turns of the [while] of [printDirectory]: the entries are written
    from slot [i] on, nothing else of the table changes, and the queue of
    [QueueCommand] is not touched. *)
Lemma list_from_spec ls : forall i f,
  (1 <= i <= 64)%nat -> length (TinyFiler.entryPoints f) = 64%nat ->
  TinyFiler.entryPoints (TinyFiler.list_from ls i f)
    = take i (TinyFiler.entryPoints f)
      ++ map TinyFiler.entry_of (take (64 - i) ls)
      ++ drop (i + length (take (64 - i) ls)) (TinyFiler.entryPoints f) /\
  TinyFiler.calls (TinyFiler.list_from ls i f)
    = TinyFiler.calls f
      ++ flat_map (fun _ => [TinyFiler.openNextFile; TinyFiler.File_close])
           (take (64 - i) ls)
      ++ (if (length ls <? 64 - i)%nat
          then [TinyFiler.openNextFile; TinyFiler.rewindDirectory] else []) /\
  TinyFiler.current (TinyFiler.list_from ls i f) = TinyFiler.current f /\
  TinyFiler.buf (TinyFiler.list_from ls i f) = TinyFiler.buf f /\
  TinyFiler.idx (TinyFiler.list_from ls i f) = TinyFiler.idx f /\
  TinyFiler.rx (TinyFiler.list_from ls i f) = TinyFiler.rx f.
Proof.
  induction ls as [| e rest IH]; intros i f Hi Hlen.
  - destruct i as [| i]; [lia |]. cbn [TinyFiler.list_from].
    change TinyFiler.MAX_ENTRY_POINT with 64%nat.
    rewrite take_nil. cbn [map flat_map length app].
    rewrite Nat.add_0_r, take_drop.
    destruct (Nat.ltb_spec (S i) 64) as [Hlt | Hge].
    + destruct (Nat.ltb_spec 0 (64 - S i)) as [_ | ?]; [| lia].
      cbn. by rewrite <- app_assoc.
    + destruct (Nat.ltb_spec 0 (64 - S i)) as [? | _]; [lia |].
      by rewrite app_nil_r.
  - destruct i as [| i]; [lia |]. cbn [TinyFiler.list_from].
    change TinyFiler.MAX_ENTRY_POINT with 64%nat.
    destruct (Nat.ltb_spec (S i) 64) as [Hlt | Hge].
    + match goal with
      | |- context [TinyFiler.list_from rest (S (S i)) ?g] =>
          destruct (IH (S (S i)) g) as (He & Hc & Hcur & Hb & Hx & Hr)
      end.
      { lia. }
      { destruct (TinyFiler.isdir (TinyFiler.entry_of e)); cbn;
          by rewrite length_insert. }
      rewrite He, Hc, Hcur, Hb, Hx, Hr. clear He Hc Hcur Hb Hx Hr IH.
      replace (64 - S i)%nat with (S (64 - S (S i))) by lia.
      cbn [take map flat_map length app].
      destruct (TinyFiler.isdir (TinyFiler.entry_of e));
        cbn [TinyFiler.entryPoints TinyFiler.calls TinyFiler.current TinyFiler.buf
             TinyFiler.idx TinyFiler.rx TinyFiler.out TinyFiler.call
             TinyFiler.set_entryPoints];
        (split; [| split; [| done]]).
      1, 3: rewrite (take_S_r _ _ (TinyFiler.entry_of e))
              by (apply list_lookup_insert_eq; lia);
            rewrite take_insert_ge by lia;
            rewrite drop_insert_lt by lia;
            rewrite <- app_assoc; cbn [app];
            by replace (S i + S (length (take (64 - S (S i)) rest)))%nat
              with (S (S i) + length (take (64 - S (S i)) rest))%nat by lia.
      all: rewrite <- !app_assoc; cbn [app];
        change (S (length rest) <? S (64 - S (S i)))%nat
          with (length rest <? 64 - S (S i))%nat; done.
    + assert (i = 63%nat) as -> by lia. cbn [Nat.sub take map flat_map length app].
      rewrite Nat.add_0_r, take_drop.
      destruct (Nat.ltb_spec (length (e :: rest)) 0) as [? | _]; [lia |].
      by rewrite app_nil_r.
Qed.

(** X16.  [printDirectory] rebuilds the whole table: slot 0 is never
    filled, slots 1 to 63 take the first 63 entries of the directory in
    the order [openNextFile] yields them, and every other slot is cleared.
    So an entry is valid exactly when its number is between 1 and the
    number of entries listed.  The directory is rewound only when it has
    fewer than 63 entries: with 63 or more the loop leaves without the call
    to [openNextFile] that would find the end.  The queue of
    [QueueCommand] is left alone. *)
Theorem printDirectory_fills_the_table ls f :
  TinyFiler.entryPoints (TinyFiler.printDirectory ls f)
    = TinyFiler.no_entry :: map TinyFiler.entry_of (take 63 ls)
      ++ replicate (63 - length ls) TinyFiler.no_entry /\
  length (TinyFiler.entryPoints (TinyFiler.printDirectory ls f)) = 64%nat /\
  (forall n, 0 <= n ->
     TinyFiler.isvalid (TinyFiler.entry n (TinyFiler.printDirectory ls f))
       = bool_decide (1 <= n <= Z.of_nat (length ls) /\ n < 64)) /\
  TinyFiler.calls (TinyFiler.printDirectory ls f)
    = TinyFiler.calls f
      ++ flat_map (fun _ => [TinyFiler.openNextFile; TinyFiler.File_close])
           (take 63 ls)
      ++ (if (length ls <? 63)%nat
          then [TinyFiler.openNextFile; TinyFiler.rewindDirectory] else []) /\
  TinyFiler.idx (TinyFiler.printDirectory ls f) = TinyFiler.idx f /\
  TinyFiler.buf (TinyFiler.printDirectory ls f) = TinyFiler.buf f /\
  TinyFiler.rx (TinyFiler.printDirectory ls f) = TinyFiler.rx f.
Proof.
  unfold TinyFiler.printDirectory.
  destruct (list_from_spec ls 1
              (TinyFiler.set_entryPoints
                 (replicate TinyFiler.MAX_ENTRY_POINT TinyFiler.no_entry) f)
              ltac:(lia) eq_refl) as (He & Hc & _ & Hb & Hx & Hr).
  change (64 - 1)%nat with 63%nat in *.
  assert (TinyFiler.entryPoints
            (TinyFiler.list_from ls 1
               (TinyFiler.set_entryPoints
                  (replicate TinyFiler.MAX_ENTRY_POINT TinyFiler.no_entry) f))
          = TinyFiler.no_entry :: map TinyFiler.entry_of (take 63 ls)
            ++ replicate (63 - length ls) TinyFiler.no_entry) as Htable.
  { rewrite He. cbn [TinyFiler.entryPoints TinyFiler.set_entryPoints].
    change TinyFiler.MAX_ENTRY_POINT with 64%nat.
    rewrite drop_replicate, length_take.
    change (take 1 (replicate 64 TinyFiler.no_entry)) with [TinyFiler.no_entry].
    cbn [app]. do 3 f_equal. lia. }
  split; [exact Htable |]. split.
  { rewrite Htable. cbn [length].
    rewrite length_app, length_map, length_take, length_replicate. lia. }
  split.
  { intros n Hn. unfold TinyFiler.entry. rewrite Htable.
    destruct (Z.to_nat n) as [| k] eqn:Hk.
    { cbn. rewrite bool_decide_eq_false_2; [done | lia]. }
    change ((TinyFiler.no_entry :: ?l) !! S k) with (l !! k).
    destruct (decide (k < length (take 63 ls))%nat) as [Hin | Hout].
    - rewrite lookup_app_l by by rewrite length_map.
      rewrite list_lookup_fmap.
      destruct (lookup_lt_is_Some_2 (take 63 ls) k Hin) as [e ->]. cbn.
      rewrite length_take in Hin. rewrite bool_decide_eq_true_2; [done | lia].
    - rewrite lookup_app_r by (rewrite length_map; lia).
      rewrite length_map. rewrite length_take in *.
      rewrite bool_decide_eq_false_2 by lia.
      destruct (replicate (63 - length ls) TinyFiler.no_entry
                  !! (k - 63 `min` length ls)%nat) as [ep |] eqn:Hep; [| done].
      apply lookup_replicate in Hep as [-> _]. done. }
  split; [exact Hc |]. done.
Qed.

(** ** The tiny filer: showing a file *)

(** A chunk without NUL bytes is printed whole. *)
Lemma chunk_printed chunk :
  (length chunk <= 128)%nat -> Forall (fun c => Ascii.eqb c NUL = false) chunk ->
  c_str (take 128 chunk
         ++ drop (length (take 128 chunk)) (replicate 128 NUL)) = chunk.
Proof.
  intros Hlen Hclean. rewrite take_ge by done. rewrite drop_replicate.
  destruct (128 - length chunk)%nat as [| m].
  - rewrite app_nil_r. by apply c_str_id.
  - rewrite c_str_zero_padded. by apply c_str_id.
Qed.

Lemma print_reads_spec rs : forall f,
  Forall (fun chunk => chunk <> [] /\ (length chunk <= 128)%nat /\
                       Forall (fun c => Ascii.eqb c NUL = false) chunk) rs ->
  TinyFiler.serial (TinyFiler.print_reads rs f)
    = TinyFiler.serial f ++ map TinyFiler.print rs ++ [TinyFiler.print []] /\
  TinyFiler.calls (TinyFiler.print_reads rs f)
    = TinyFiler.calls f ++ replicate (S (length rs)) TinyFiler.File_read.
Proof.
  induction rs as [| chunk rest IH]; intros f Hrs.
  { done. }
  apply Forall_cons in Hrs as [(Hne & Hlen & Hclean) Hrest].
  cbn [TinyFiler.print_reads]. rewrite chunk_printed by done.
  rewrite take_ge by done.
  destruct (Nat.ltb_spec 0 (length chunk)) as [_ | Hz];
    [| destruct chunk; [done | cbn in Hz; lia]].
  destruct (IH (TinyFiler.out (TinyFiler.print chunk)
                  (TinyFiler.call TinyFiler.File_read f)) Hrest) as [Hs Hc].
  rewrite Hs, Hc. cbn. by rewrite <- !app_assoc.
Qed.

(** X17.  [printContents] sends what each read delivers, once and in
    order, between two rules: the buffer is cleared before every read, so
    the read that finds the end of the file prints nothing.  The chunks are
    what [file.read] delivers, of at most 128 bytes and without NUL
    bytes. *)
Theorem printContents_prints_each_read rs f :
  Forall (fun chunk => chunk <> [] /\ (length chunk <= 128)%nat /\
                       Forall (fun c => Ascii.eqb c NUL = false) chunk) rs ->
  TinyFiler.serial (TinyFiler.printContents rs f)
    = TinyFiler.serial f
      ++ [TinyFiler.println (txt "-----")]
      ++ map TinyFiler.print rs
      ++ [TinyFiler.print []; TinyFiler.println (txt "[EOF]");
          TinyFiler.println (txt "-----")] /\
  TinyFiler.calls (TinyFiler.printContents rs f)
    = TinyFiler.calls f ++ replicate (S (length rs)) TinyFiler.File_read.
Proof.
  intros Hrs. unfold TinyFiler.printContents.
  destruct (print_reads_spec rs
              (TinyFiler.out (TinyFiler.println (txt "-----")) f) Hrs) as [Hs Hc].
  cbn [TinyFiler.serial TinyFiler.calls TinyFiler.out] in *.
  rewrite Hs, Hc. split; [| done]. by rewrite <- !app_assoc.
Qed.

(** ** The tiny filer: commands *)

Ltac filer_fields :=
  cbn [TinyFiler.calls TinyFiler.serial TinyFiler.idx TinyFiler.rx TinyFiler.buf
       TinyFiler.current TinyFiler.entryPoints TinyFiler.out TinyFiler.call
       TinyFiler.set_current TinyFiler.set_entryPoints TinyFiler.set_queue] in *.

Lemma removed_app a b :
  TinyFiler.removed (a ++ b) = TinyFiler.removed a ++ TinyFiler.removed b.
Proof.
  induction a as [| c a IH]; [done |]. destruct c; cbn; by rewrite ?IH.
Qed.

Lemma removed_listing (ls : list TinyFiler.DirEntry) :
  TinyFiler.removed
    (flat_map (fun _ => [TinyFiler.openNextFile; TinyFiler.File_close]) ls) = [].
Proof. induction ls; done. Qed.

(** [printDirectory] removes nothing and leaves the queue and the current
    directory alone. *)
Lemma printDirectory_keeps ls f :
  exists made,
    TinyFiler.calls (TinyFiler.printDirectory ls f) = TinyFiler.calls f ++ made /\
    TinyFiler.removed made = [] /\
    TinyFiler.idx (TinyFiler.printDirectory ls f) = TinyFiler.idx f /\
    TinyFiler.rx (TinyFiler.printDirectory ls f) = TinyFiler.rx f /\
    TinyFiler.current (TinyFiler.printDirectory ls f) = TinyFiler.current f.
Proof.
  unfold TinyFiler.printDirectory.
  destruct (list_from_spec ls 1
              (TinyFiler.set_entryPoints
                 (replicate TinyFiler.MAX_ENTRY_POINT TinyFiler.no_entry) f)
              ltac:(lia) eq_refl) as (_ & Hc & Hcur & _ & Hx & Hr).
  eexists. split; [exact Hc |]. split; [| done].
  rewrite removed_app, removed_listing. by destruct (length ls <? 64 - 1)%nat.
Qed.

(** So does the [while] of [printContents], whatever the reads deliver. *)
Lemma print_reads_keeps rs : forall f,
  exists made,
    TinyFiler.calls (TinyFiler.print_reads rs f) = TinyFiler.calls f ++ made /\
    TinyFiler.removed made = [] /\
    TinyFiler.idx (TinyFiler.print_reads rs f) = TinyFiler.idx f /\
    TinyFiler.rx (TinyFiler.print_reads rs f) = TinyFiler.rx f /\
    TinyFiler.current (TinyFiler.print_reads rs f) = TinyFiler.current f /\
    TinyFiler.entryPoints (TinyFiler.print_reads rs f) = TinyFiler.entryPoints f.
Proof.
  induction rs as [| chunk rest IH]; intros f.
  { by exists [TinyFiler.File_read]. }
  cbn [TinyFiler.print_reads].
  destruct (0 <? length (take 128 chunk))%nat; [| by exists [TinyFiler.File_read]].
  match goal with
  | |- context [TinyFiler.print_reads rest ?g] =>
      destruct (IH g) as (made & Hc & Hm & Hx & Hr & Hcur & He)
  end.
  exists (TinyFiler.File_read :: made).
  rewrite Hc, Hx, Hr, Hcur, He. cbn. by rewrite <- app_assoc.
Qed.

(** No command touches the queue of [QueueCommand] or the receiver. *)
Lemma execute_queue w c f :
  TinyFiler.idx (TinyFiler.execute w c f) = TinyFiler.idx f /\
  TinyFiler.rx (TinyFiler.execute w c f) = TinyFiler.rx f.
Proof.
  unfold TinyFiler.execute, TinyFiler.delete, TinyFiler.download,
    TinyFiler.printContents.
  repeat match goal with
         | |- context [if ?b then _ else _] => destruct b
         end;
    repeat match goal with
           | |- context [TinyFiler.printDirectory ?ls ?g] =>
               let Hx := fresh in let Hr := fresh in
               destruct (printDirectory_keeps ls g) as (? & _ & _ & Hx & Hr & _);
               rewrite Hx, Hr; clear Hx Hr
           end;
    filer_fields;
    repeat match goal with
           | |- context [TinyFiler.print_reads ?rs ?g] =>
               let Hx := fresh in let Hr := fresh in
               destruct (print_reads_keeps rs g) as (? & _ & _ & Hx & Hr & _);
               rewrite Hx, Hr; clear Hx Hr
           end;
    filer_fields; done.
Qed.

(** A path that ends within its 64 bytes is read as it stands. *)
Lemma path_str_terminated ep :
  (strlen (TinyFiler.path ep) < TinyFiler.MAX_PATH_LENGTH)%nat ->
  TinyFiler.path_str ep = c_str (TinyFiler.path ep).
Proof.
  intros Hlen. unfold TinyFiler.path_str, strlen in *.
  by destruct (Nat.ltb_spec (length (c_str (TinyFiler.path ep)))
                 TinyFiler.MAX_PATH_LENGTH); [| lia].
Qed.

(** The name of a directory that fills the 64 bytes is read with one byte
    more, the [isdir] behind it; that of a file is read as its 64 bytes. *)
Lemma path_str_filled ep :
  length (TinyFiler.path ep) = TinyFiler.MAX_PATH_LENGTH ->
  c_str (TinyFiler.path ep) = TinyFiler.path ep ->
  TinyFiler.path_str ep
    = TinyFiler.path ep ++ (if TinyFiler.isdir ep then ["001"%char] else []).
Proof.
  intros Hlen Hfull. unfold TinyFiler.path_str. rewrite Hfull, Hlen.
  rewrite Nat.ltb_irrefl. by rewrite <- Hlen, firstn_all.
Qed.

(** A command removes nothing, or the path of one valid entry. *)
Lemma execute_removed w c f :
  TinyFiler.removed (TinyFiler.calls (TinyFiler.execute w c f))
    = TinyFiler.removed (TinyFiler.calls f) \/
  exists n ep,
    (n < 64)%nat /\ TinyFiler.entryPoints f !! n = Some ep /\
    TinyFiler.isvalid ep = true /\
    TinyFiler.removed (TinyFiler.calls (TinyFiler.execute w c f))
      = TinyFiler.removed (TinyFiler.calls f) ++ [TinyFiler.path_str ep].
Proof.
  unfold TinyFiler.execute.
  destruct (0 =? c).
  { left. match goal with
          | |- context [TinyFiler.printDirectory ?ls ?g] =>
              destruct (printDirectory_keeps ls g) as (m & -> & Hm & _)
          end.
    filer_fields. rewrite !removed_app, Hm. cbn. by rewrite !app_nil_r. }
  destruct ((c <? Z.of_nat TinyFiler.MAX_ENTRY_POINT)
            && TinyFiler.isvalid (TinyFiler.entry c f)).
  { left. destruct (TinyFiler.isdir (TinyFiler.entry c f)).
    - match goal with
      | |- context [TinyFiler.printDirectory ?ls ?g] =>
          destruct (printDirectory_keeps ls g) as (m & -> & Hm & _)
      end.
      filer_fields. rewrite !removed_app, Hm. cbn. by rewrite !app_nil_r.
    - match goal with
      | |- context [TinyFiler.printDirectory ?ls ?g] =>
          destruct (printDirectory_keeps ls g) as (m & -> & Hm & _)
      end.
      unfold TinyFiler.printContents. filer_fields.
      match goal with
      | |- context [TinyFiler.print_reads ?rs ?g] =>
          destruct (print_reads_keeps rs g) as (m' & -> & Hm' & _)
      end.
      filer_fields. rewrite !removed_app, Hm, Hm'. cbn. by rewrite !app_nil_r. }
  destruct (0 <? Z.land TinyFiler.COMMAND_FLAG_DEL c).
  { unfold TinyFiler.delete. filer_fields.
    assert (TinyFiler.entry (Z.land c 65535)
              (TinyFiler.out (TinyFiler.println_num (Z.land c 65535))
                 (TinyFiler.out (TinyFiler.print (txt "delete : ")) f))
            = TinyFiler.entry (Z.land c 65535) f) as -> by done.
    destruct (Z.ltb_spec (Z.land c 65535) (Z.of_nat TinyFiler.MAX_ENTRY_POINT))
      as [Hlt | Hge]; [| by left].
    destruct (TinyFiler.isvalid (TinyFiler.entry (Z.land c 65535) f)) eqn:Hvalid;
      [| by left].
    right. cbn [andb].
    assert (0 <= Z.land c 65535) as Hpos by (apply Z.land_nonneg; lia).
    unfold TinyFiler.entry in *.
    destruct (TinyFiler.entryPoints f !! Z.to_nat (Z.land c 65535))
      as [ep |] eqn:Hep; [| done].
    exists (Z.to_nat (Z.land c 65535)), ep. cbn [default] in *.
    split; [change (Z.of_nat TinyFiler.MAX_ENTRY_POINT) with 64 in Hlt; lia |].
    split; [done |]. split; [done |].
    match goal with
    | |- context [TinyFiler.printDirectory ?ls ?g] =>
        destruct (printDirectory_keeps ls g) as (m & -> & Hm & _)
    end.
    match goal with
    | |- context [if ?b then _ else _] => destruct b
    end; filer_fields; rewrite !removed_app, Hm; cbn; by rewrite !app_nil_r. }
  left. destruct (0 <? Z.land TinyFiler.COMMAND_FLAG_DWLD c); [| done].
  unfold TinyFiler.download. filer_fields.
  repeat match goal with
         | |- context [if ?b then _ else _] => destruct b
         end; filer_fields; rewrite ?removed_app; cbn; by rewrite ?app_nil_r.
Qed.

(** [QueueCommand] only echoes: it makes no call and leaves the table. *)
Lemma queue_chars_keeps l : forall f c f',
  TinyFiler.queue_chars l f = Some (c, f') ->
  TinyFiler.entryPoints f' = TinyFiler.entryPoints f /\
  TinyFiler.calls f' = TinyFiler.calls f.
Proof.
  induction l as [| a l IH]; intros f c f' Hq.
  { cbn in Hq. by injection Hq as <- <-. }
  cbn [TinyFiler.queue_chars] in Hq. filer_fields.
  destruct (TinyFiler.idx f <? 64)%nat; [| done].
  destruct (Ascii.eqb TinyFiler.LF a || Ascii.eqb TinyFiler.CR a).
  { by injection Hq as <- <-. }
  apply IH in Hq. by filer_fields.
Qed.

(** A pass of [loop] that finds a whole line in the receiver. *)
Lemma loop_line w f line nl more :
  TinyFiler.idx f = 0%nat -> TinyFiler.rx f = line ++ nl :: more ->
  (length line < 64)%nat -> Forall TinyFiler.in_line line ->
  nl = TinyFiler.LF \/ nl = TinyFiler.CR ->
  exists f1,
    TinyFiler.loop w f
      = Some (if 0 <? Z.land TinyFiler.COMMAND_FLAG_NONE
                        (TinyFiler.ParseCommand line (Z.of_nat (length line)))
              then f1
              else TinyFiler.out (TinyFiler.print TinyFiler.PROMPT)
                     (TinyFiler.execute w
                        (TinyFiler.ParseCommand line (Z.of_nat (length line))) f1)) /\
    TinyFiler.idx f1 = 0%nat /\
    TinyFiler.rx f1 = more /\
    TinyFiler.entryPoints f1 = TinyFiler.entryPoints f /\
    TinyFiler.current f1 = TinyFiler.current f /\
    TinyFiler.calls f1 = TinyFiler.calls f /\
    TinyFiler.serial f1
      = TinyFiler.serial f ++ map TinyFiler.println_char (line ++ [nl]).
Proof.
  intros Hidx Hrx Hlen Hline Hnl.
  destruct (QueueCommand_line f line nl more Hidx Hrx Hlen Hline Hnl)
    as (f1 & Hq & Hrest).
  exists f1. split; [| exact Hrest].
  unfold TinyFiler.loop. rewrite Hq, Hrx.
  destruct (0 <? Z.land TinyFiler.COMMAND_FLAG_NONE
                   (TinyFiler.ParseCommand line (Z.of_nat (length line))));
    by destruct line.
Qed.

(** What [loop] answers to the command number [COMMAND_FLAG_ERR]. *)
Lemma execute_error w f :
  TinyFiler.execute w TinyFiler.COMMAND_FLAG_ERR f
    = TinyFiler.out (TinyFiler.println_hex 0x10000000)
        (TinyFiler.out (TinyFiler.print (txt " / 0x"))
           (TinyFiler.out (TinyFiler.print_num 0x10000000)
              (TinyFiler.out (TinyFiler.print (txt "invalid cmd number : ")) f))).
Proof. reflexivity. Qed.

(** X18.  A line of [d] or [D] and a number deletes the entry listed under
    that number: a directory through [Flash.rmdir], a file through
    [Flash.remove], with the path the table holds; nothing else is removed
    and the directory is listed again.  When the number is not that of a
    valid entry, no call is made, the table stays, and only the number is
    echoed before the prompt.  The path handed over is the string read at
    the entry's [path]: the path, and the byte of [isdir] behind it when
    the name of a directory fills the 64 bytes. *)
Theorem loop_deletes_the_numbered_entry w f letter n nl more :
  TinyFiler.idx f = 0%nat ->
  TinyFiler.rx f = letter :: dec n ++ nl :: more ->
  letter = "d"%char \/ letter = "D"%char ->
  nl = TinyFiler.LF \/ nl = TinyFiler.CR ->
  0 <= n < 65536 ->
  exists f',
    TinyFiler.loop w f = Some f' /\
    TinyFiler.idx f' = 0%nat /\ TinyFiler.rx f' = more /\
    (n < 64 -> TinyFiler.isvalid (TinyFiler.entry n f) = true ->
     (exists made,
        TinyFiler.calls f'
          = TinyFiler.calls f
            ++ (if TinyFiler.isdir (TinyFiler.entry n f)
                then TinyFiler.Flash_rmdir (TinyFiler.path_str (TinyFiler.entry n f))
                else TinyFiler.Flash_remove (TinyFiler.path_str (TinyFiler.entry n f)))
               :: made /\
        TinyFiler.removed made = []) /\
     TinyFiler.entryPoints f'
       = TinyFiler.entryPoints (TinyFiler.printDirectory (TinyFiler.listing w) f)) /\
    (64 <= n \/ TinyFiler.isvalid (TinyFiler.entry n f) = false ->
     TinyFiler.calls f' = TinyFiler.calls f /\
     TinyFiler.entryPoints f' = TinyFiler.entryPoints f /\
     TinyFiler.serial f'
       = TinyFiler.serial f
         ++ map TinyFiler.println_char (letter :: dec n ++ [nl])
         ++ [TinyFiler.print (txt "delete : "); TinyFiler.println_num n;
             TinyFiler.print TinyFiler.PROMPT]).
Proof.
  intros Hidx Hrx Hletter Hnl Hn.
  pose proof (dec_length n) as Hdl.
  assert (Forall TinyFiler.in_line (letter :: dec n)) as Hline.
  { constructor; [| apply dec_in_line; lia].
    destruct Hletter as [-> | ->]; split; discriminate. }
  destruct (loop_line w f (letter :: dec n) nl more Hidx Hrx
              ltac:(cbn [length]; lia) Hline Hnl)
    as (f1 & Hloop & Hi1 & Hr1 & He1 & _ & Hc1 & Hs1).
  rewrite (ParseCommand_letter n _ letter 16) in Hloop
    by (cbn [length]; (lia || tauto)).
  change (2 ^ 16) with 65536 in Hloop.
  destruct (delete_bits n Hn) as (Hlow & Hdel & _ & Hnone).
  rewrite Hnone in Hloop. cbn [Z.ltb Z.compare] in Hloop.
  assert (TinyFiler.execute w (n + 65536) f1 = TinyFiler.delete w (n + 65536) f1)
    as Hexec.
  { unfold TinyFiler.execute.
    destruct (Z.eqb_spec 0 (n + 65536)); [lia |].
    change (Z.of_nat TinyFiler.MAX_ENTRY_POINT) with 64.
    destruct (Z.ltb_spec (n + 65536) 64); [lia |].
    cbn [andb]. by rewrite Hdel. }
  rewrite Hexec in Hloop. unfold TinyFiler.delete in Hloop.
  change 0xffff with 65535 in *. rewrite Hlow in Hloop. filer_fields.
  assert (forall g, TinyFiler.entryPoints g = TinyFiler.entryPoints f1 ->
                    TinyFiler.entry n g = TinyFiler.entry n f) as Hentry.
  { intros g Hg. unfold TinyFiler.entry. by rewrite Hg, He1. }
  rewrite !(Hentry (TinyFiler.out (TinyFiler.println_num n)
                      (TinyFiler.out (TinyFiler.print (txt "delete : ")) f1))
              eq_refl) in Hloop.
  change (Z.of_nat TinyFiler.MAX_ENTRY_POINT) with 64 in Hloop.
  eexists. split; [exact Hloop |].
  destruct (Z.ltb_spec n 64) as [Hlt | Hge];
    [destruct (TinyFiler.isvalid (TinyFiler.entry n f)) eqn:Hvalid |];
    cbn [andb].
  - match goal with
    | |- context [TinyFiler.printDirectory ?ls ?g] =>
        destruct (printDirectory_keeps ls g) as (m & Hc & Hm & Hx & Hr & _);
        pose proof (list_from_spec ls 1
                      (TinyFiler.set_entryPoints
                         (replicate TinyFiler.MAX_ENTRY_POINT TinyFiler.no_entry) g)
                      ltac:(lia) eq_refl) as (Hg & _)
    end.
    pose proof (list_from_spec (TinyFiler.listing w) 1
                  (TinyFiler.set_entryPoints
                     (replicate TinyFiler.MAX_ENTRY_POINT TinyFiler.no_entry) f)
                  ltac:(lia) eq_refl) as (Hf & _).
    filer_fields. rewrite Hx, Hr.
    split; [by destruct (TinyFiler.isdir (TinyFiler.entry n f)) |].
    split; [by destruct (TinyFiler.isdir (TinyFiler.entry n f)) |].
    split; [| intros [? | ?]; [lia | done]].
    intros _ _. split.
    + exists m. rewrite Hc. split; [| done].
      destruct (TinyFiler.isdir (TinyFiler.entry n f)); filer_fields;
        by rewrite Hc1, <- app_assoc.
    + unfold TinyFiler.printDirectory. by rewrite Hg, Hf.
  - filer_fields. split; [done |]. split; [done |].
    split; [intros _ ?; done |]. intros _.
    rewrite Hc1, He1, Hs1. split; [done |]. split; [done |].
    by rewrite <- !app_assoc.
  - filer_fields. split; [done |]. split; [done |].
    split; [intros ?; lia |]. intros _.
    rewrite Hc1, He1, Hs1. split; [done |]. split; [done |].
    by rewrite <- !app_assoc.
Qed.

(** A line that opens with neither a digit nor a command letter. *)
Lemma ParseCommand_unknown line len :
  (forall c, head line = Some c ->
     digit_val c = None /\
     c <> "d"%char /\ c <> "D"%char /\ c <> "y"%char /\ c <> "Y"%char) ->
  TinyFiler.ParseCommand line len = TinyFiler.COMMAND_FLAG_ERR.
Proof.
  intros Hhead. unfold TinyFiler.ParseCommand.
  destruct (len <=? 0); [done |].
  destruct line as [| c s]; [done |]. cbn [hd].
  destruct (Hhead c eq_refl) as (Hdig & Hd & HD & Hy & HY).
  assert ((48 <=? nat_of_ascii c)%nat && (nat_of_ascii c <=? 57)%nat = false) as ->.
  { unfold digit_val in Hdig.
    destruct (Z.leb_spec 48 (Z.of_nat (nat_of_ascii c)));
      destruct (Z.leb_spec (Z.of_nat (nat_of_ascii c)) 57); try done;
      destruct (Nat.leb_spec 48 (nat_of_ascii c));
      destruct (Nat.leb_spec (nat_of_ascii c) 57); (done || lia). }
  destruct (Ascii.eqb_spec "d" c); [congruence |].
  destruct (Ascii.eqb_spec "D" c); [congruence |].
  destruct (Ascii.eqb_spec "y" c); [congruence |].
  destruct (Ascii.eqb_spec "Y" c); [congruence | done].
Qed.

(** X19.  A line that opens with neither a digit nor one of [d], [D], [y],
    [Y], the empty line among them, is answered by "invalid cmd number"
    with the error flag as the number, in decimal and in hexadecimal, and
    by the prompt.  No call is made and the table stays. *)
Theorem loop_answers_an_unknown_line w f line nl more :
  TinyFiler.idx f = 0%nat -> TinyFiler.rx f = line ++ nl :: more ->
  (length line < 64)%nat -> Forall TinyFiler.in_line line ->
  nl = TinyFiler.LF \/ nl = TinyFiler.CR ->
  (forall c, head line = Some c ->
     digit_val c = None /\
     c <> "d"%char /\ c <> "D"%char /\ c <> "y"%char /\ c <> "Y"%char) ->
  exists f',
    TinyFiler.loop w f = Some f' /\
    TinyFiler.serial f'
      = TinyFiler.serial f
        ++ map TinyFiler.println_char (line ++ [nl])
        ++ [TinyFiler.print (txt "invalid cmd number : ");
            TinyFiler.print_num 0x10000000;
            TinyFiler.print (txt " / 0x");
            TinyFiler.println_hex 0x10000000;
            TinyFiler.print TinyFiler.PROMPT] /\
    TinyFiler.calls f' = TinyFiler.calls f /\
    TinyFiler.entryPoints f' = TinyFiler.entryPoints f /\
    TinyFiler.idx f' = 0%nat /\ TinyFiler.rx f' = more.
Proof.
  intros Hidx Hrx Hlen Hline Hnl Hhead.
  destruct (loop_line w f line nl more Hidx Hrx Hlen Hline Hnl)
    as (f1 & Hloop & Hi1 & Hr1 & He1 & _ & Hc1 & Hs1).
  rewrite ParseCommand_unknown in Hloop by done.
  change (0 <? Z.land TinyFiler.COMMAND_FLAG_NONE TinyFiler.COMMAND_FLAG_ERR)
    with false in Hloop.
  rewrite execute_error in Hloop.
  eexists. split; [exact Hloop |]. filer_fields.
  rewrite Hs1, Hc1, He1. split; [| done]. by rewrite <- !app_assoc.
Qed.

(** X20.  A line that ends in CR LF is taken for two lines: whatever the
    line before the CR was, the pass of [loop] that follows it finds the LF,
    takes it for an empty line and answers "invalid cmd number" and the
    prompt. *)
Theorem loop_takes_CRLF_for_two_lines w w' f line more :
  TinyFiler.idx f = 0%nat ->
  TinyFiler.rx f = line ++ TinyFiler.CR :: TinyFiler.LF :: more ->
  (length line < 64)%nat -> Forall TinyFiler.in_line line ->
  exists f1 f2,
    TinyFiler.loop w f = Some f1 /\
    TinyFiler.loop w' f1 = Some f2 /\
    TinyFiler.serial f2
      = TinyFiler.serial f1
        ++ [TinyFiler.println_char TinyFiler.LF;
            TinyFiler.print (txt "invalid cmd number : ");
            TinyFiler.print_num 0x10000000;
            TinyFiler.print (txt " / 0x");
            TinyFiler.println_hex 0x10000000;
            TinyFiler.print TinyFiler.PROMPT] /\
    TinyFiler.calls f2 = TinyFiler.calls f1 /\
    TinyFiler.entryPoints f2 = TinyFiler.entryPoints f1 /\
    TinyFiler.rx f2 = more.
Proof.
  intros Hidx Hrx Hlen Hline.
  destruct (loop_line w f line TinyFiler.CR (TinyFiler.LF :: more)
              Hidx Hrx Hlen Hline (or_intror eq_refl))
    as (f0 & Hloop & Hi0 & Hr0 & _).
  assert (forall g, TinyFiler.idx g = 0%nat -> TinyFiler.rx g = TinyFiler.LF :: more ->
            exists f2,
              TinyFiler.loop w' g = Some f2 /\
              TinyFiler.serial f2
                = TinyFiler.serial g
                  ++ [TinyFiler.println_char TinyFiler.LF;
                      TinyFiler.print (txt "invalid cmd number : ");
                      TinyFiler.print_num 0x10000000;
                      TinyFiler.print (txt " / 0x");
                      TinyFiler.println_hex 0x10000000;
                      TinyFiler.print TinyFiler.PROMPT] /\
              TinyFiler.calls f2 = TinyFiler.calls g /\
              TinyFiler.entryPoints f2 = TinyFiler.entryPoints g /\
              TinyFiler.rx f2 = more) as Hsecond.
  { intros g Hig Hrg.
    destruct (loop_line w' g [] TinyFiler.LF more Hig Hrg
                ltac:(cbn; lia) ltac:(constructor) (or_introl eq_refl))
      as (g1 & Hl & _ & Hr1 & He1 & _ & Hc1 & Hs1).
    change (TinyFiler.ParseCommand [] (Z.of_nat (length (@nil ascii))))
      with TinyFiler.COMMAND_FLAG_ERR in Hl.
    change (0 <? Z.land TinyFiler.COMMAND_FLAG_NONE TinyFiler.COMMAND_FLAG_ERR)
      with false in Hl.
    rewrite execute_error in Hl.
    eexists. split; [exact Hl |]. filer_fields.
    rewrite Hs1, Hc1, He1. split; [| done]. by rewrite <- !app_assoc. }
  destruct (0 <? Z.land TinyFiler.COMMAND_FLAG_NONE
                   (TinyFiler.ParseCommand line (Z.of_nat (length line)))).
  - destruct (Hsecond f0 Hi0 Hr0) as (f2 & Hrest).
    exists f0, f2. split; [exact Hloop | exact Hrest].
  - match type of Hloop with
    | _ = Some (TinyFiler.out ?o (TinyFiler.execute ?w0 ?c ?g)) =>
        destruct (execute_queue w0 c g) as [Hx Hr];
        destruct (Hsecond (TinyFiler.out o (TinyFiler.execute w0 c g)))
          as (f2 & Hrest)
    end.
    { filer_fields. by rewrite Hx. }
    { filer_fields. by rewrite Hr. }
    eexists. exists f2. split; [exact Hloop | exact Hrest].
Qed.

(** A number typed after a command letter and a minus sign. *)
Lemma ParseCommand_minus m len letter :
  1 <= m <= 2 ^ 24 -> 0 < len ->
  letter = "d"%char \/ letter = "D"%char \/ letter = "y"%char \/ letter = "Y"%char ->
  Z.land TinyFiler.COMMAND_FLAG_NONE
    (TinyFiler.ParseCommand (letter :: "-"%char :: dec m) len) = 2 ^ 24.
Proof.
  intros Hm Hlen Hletter. unfold TinyFiler.ParseCommand.
  destruct (Z.leb_spec len 0); [lia |]. cbn [hd tail].
  change (2 ^ 24) with 16777216 in *.
  pose proof (strtol_minus_dec m [] ltac:(unfold LONG_MIN; lia) eq_refl) as Hval.
  rewrite app_nil_r in Hval.
  assert (to_ulong (- m) = 2 ^ 32 - m) as Hwrap.
  { unfold to_ulong. change (2 ^ 32) with 4294967296.
    Z.div_mod_to_equations. lia. }
  assert (Z.land TinyFiler.COMMAND_FLAG_NONE (2 ^ 32 - m) = 16777216) as Hbit.
  { change TinyFiler.COMMAND_FLAG_NONE with (2 ^ 24).
    rewrite land_flag by lia.
    assert ((2 ^ 32 - m) / 2 ^ 24 = 255) as ->; [| done].
    change (2 ^ 32) with 4294967296. change (2 ^ 24) with 16777216.
    Z.div_mod_to_equations. lia. }
  destruct Hletter as [-> | [-> | [-> | ->]]];
    match goal with
    | |- context [(48 <=? nat_of_ascii ?l)%nat && (nat_of_ascii ?l <=? 57)%nat] =>
        replace ((48 <=? nat_of_ascii l)%nat && (nat_of_ascii l <=? 57)%nat)
          with false by (vm_compute; reflexivity)
    end;
    cbn [Ascii.eqb Bool.eqb orb andb];
    rewrite Hval, Hwrap, Z.land_lor_distr_r, Hbit; reflexivity.
Qed.

(** X21.  A command number with bit 24 set is taken for "no command yet":
    the line is echoed and dropped, and not even the prompt is printed.
    This is what happens to a number typed alone that has the bit set, such
    as 16777216, and to every negative number from -1 to -16777216 typed
    after a command letter. *)
Theorem loop_takes_bit_24_for_no_command w f line nl more :
  TinyFiler.idx f = 0%nat -> TinyFiler.rx f = line ++ nl :: more ->
  nl = TinyFiler.LF \/ nl = TinyFiler.CR ->
  (exists m, line = dec m /\ 0 <= m <= LONG_MAX /\ Z.testbit m 24 = true) \/
  (exists letter m,
     line = letter :: "-"%char :: dec m /\ 1 <= m <= 2 ^ 24 /\
     (letter = "d"%char \/ letter = "D"%char \/
      letter = "y"%char \/ letter = "Y"%char)) ->
  exists f',
    TinyFiler.loop w f = Some f' /\
    TinyFiler.serial f'
      = TinyFiler.serial f ++ map TinyFiler.println_char (line ++ [nl]) /\
    TinyFiler.calls f' = TinyFiler.calls f /\
    TinyFiler.entryPoints f' = TinyFiler.entryPoints f /\
    TinyFiler.idx f' = 0%nat /\ TinyFiler.rx f' = more.
Proof.
  intros Hidx Hrx Hnl Hline.
  assert ((length line < 64)%nat /\ Forall TinyFiler.in_line line /\
          Z.land TinyFiler.COMMAND_FLAG_NONE
            (TinyFiler.ParseCommand line (Z.of_nat (length line))) = 2 ^ 24)
    as (Hlen & Hin & Hbit).
  { destruct Hline as [(m & -> & Hm & Hbit) | (letter & m & -> & Hm & Hletter)].
    - pose proof (dec_length m). split; [lia |].
      split; [apply dec_in_line; lia |].
      rewrite ParseCommand_number by lia.
      change TinyFiler.COMMAND_FLAG_NONE with (2 ^ 24).
      by rewrite land_flag, <- testbit_odd_div, Hbit by lia.
    - pose proof (dec_length m). cbn [length]. split; [lia |]. split.
      { constructor;
          [destruct Hletter as [-> | [-> | [-> | ->]]]; split; discriminate |].
        constructor; [split; discriminate | apply dec_in_line; lia]. }
      apply ParseCommand_minus; (done || lia). }
  destruct (loop_line w f line nl more Hidx Hrx Hlen Hin Hnl)
    as (f1 & Hloop & Hi1 & Hr1 & He1 & _ & Hc1 & Hs1).
  rewrite Hbit in Hloop. change (0 <? 2 ^ 24) with true in Hloop.
  by exists f1.
Qed.

(** X22.  Whatever is received, a pass of [loop] removes at most one path,
    and only the path of an entry that the table lists as valid: nothing
    that was not listed is ever handed to [Flash.rmdir] or
    [Flash.remove].  The paths in the table are taken to end within their
    64 bytes. *)
Theorem loop_removes_only_listed_entries w f f' :
  TinyFiler.loop w f = Some f' ->
  Forall (fun ep => (strlen (TinyFiler.path ep) < TinyFiler.MAX_PATH_LENGTH)%nat)
    (TinyFiler.entryPoints f) ->
  TinyFiler.removed (TinyFiler.calls f') = TinyFiler.removed (TinyFiler.calls f) \/
  exists n ep,
    (n < 64)%nat /\ TinyFiler.entryPoints f !! n = Some ep /\
    TinyFiler.isvalid ep = true /\
    TinyFiler.removed (TinyFiler.calls f')
      = TinyFiler.removed (TinyFiler.calls f) ++ [c_str (TinyFiler.path ep)].
Proof.
  intros Hloop Hpaths. unfold TinyFiler.loop in Hloop.
  destruct (TinyFiler.rx f) as [| a rest] eqn:Hrx.
  { injection Hloop as <-. by left. }
  destruct (TinyFiler.QueueCommand f) as [[c f1] |] eqn:Hq; [| done].
  assert (TinyFiler.entryPoints f1 = TinyFiler.entryPoints f /\
          TinyFiler.calls f1 = TinyFiler.calls f) as [He Hc].
  { unfold TinyFiler.QueueCommand in Hq.
    destruct (TinyFiler.idx f =? 0)%nat; apply queue_chars_keeps in Hq;
      by filer_fields. }
  destruct (0 <? Z.land TinyFiler.COMMAND_FLAG_NONE c).
  { injection Hloop as <-. left. by rewrite Hc. }
  injection Hloop as <-. filer_fields.
  destruct (execute_removed w c f1) as [Hsame | (n & ep & Hn & Hep & Hv & Hone)].
  - left. by rewrite Hsame, Hc.
  - right. exists n, ep. rewrite He in Hep.
    rewrite Hone, Hc, path_str_terminated; [done |].
    by apply (Forall_lookup_1 _ _ _ _ Hpaths Hep).
Qed.

(** The table that [printDirectory] builds depends on the listing only. *)
Lemma printDirectory_table ls f g :
  TinyFiler.entryPoints (TinyFiler.printDirectory ls f)
    = TinyFiler.entryPoints (TinyFiler.printDirectory ls g).
Proof.
  unfold TinyFiler.printDirectory.
  destruct (list_from_spec ls 1
              (TinyFiler.set_entryPoints
                 (replicate TinyFiler.MAX_ENTRY_POINT TinyFiler.no_entry) f)
              ltac:(lia) eq_refl) as (-> & _).
  destruct (list_from_spec ls 1
              (TinyFiler.set_entryPoints
                 (replicate TinyFiler.MAX_ENTRY_POINT TinyFiler.no_entry) g)
              ltac:(lia) eq_refl) as (-> & _).
  done.
Qed.

(** A number below 64 carries no flag. *)
Lemma plain_bits n :
  0 <= n < 64 ->
  Z.land TinyFiler.COMMAND_FLAG_DEL n = 0 /\
  Z.land TinyFiler.COMMAND_FLAG_DWLD n = 0 /\
  Z.land TinyFiler.COMMAND_FLAG_NONE n = 0.
Proof.
  intros Hn.
  change TinyFiler.COMMAND_FLAG_DEL with (2 ^ 16).
  change TinyFiler.COMMAND_FLAG_DWLD with (2 ^ 20).
  change TinyFiler.COMMAND_FLAG_NONE with (2 ^ 24).
  rewrite !land_flag by lia. by rewrite !Z.div_small by lia.
Qed.

(** X23.  A number typed alone, below 64, never reaches the delete or the
    download branch.  [0] opens the root again and lists it.  The number of
    a valid entry enters it when it is a directory, after closing the
    current one, and otherwise opens and shows it, leaving the current
    directory as it is; either way the table is built again.  Any other
    number is answered by "invalid cmd number" and changes nothing.  The
    path opened is the string read at the entry's [path]: the path, and
    the byte of [isdir] behind it when the name of a directory fills the
    64 bytes. *)
Theorem loop_opens_the_numbered_entry w f n nl more :
  TinyFiler.idx f = 0%nat -> TinyFiler.rx f = dec n ++ nl :: more ->
  nl = TinyFiler.LF \/ nl = TinyFiler.CR ->
  0 <= n < 64 ->
  exists f',
    TinyFiler.loop w f = Some f' /\
    TinyFiler.idx f' = 0%nat /\ TinyFiler.rx f' = more /\
    (n = 0 ->
     TinyFiler.current f' = txt "/" /\
     TinyFiler.entryPoints f'
       = TinyFiler.entryPoints (TinyFiler.printDirectory (TinyFiler.listing w) f) /\
     exists made,
       TinyFiler.calls f'
         = TinyFiler.calls f ++ TinyFiler.Flash_open (txt "/") :: made /\
       TinyFiler.removed made = []) /\
    (0 < n -> TinyFiler.isvalid (TinyFiler.entry n f) = true ->
     TinyFiler.isdir (TinyFiler.entry n f) = true ->
     TinyFiler.current f' = TinyFiler.path_str (TinyFiler.entry n f) /\
     TinyFiler.entryPoints f'
       = TinyFiler.entryPoints (TinyFiler.printDirectory (TinyFiler.listing w) f) /\
     exists made,
       TinyFiler.calls f'
         = TinyFiler.calls f
           ++ TinyFiler.File_close
              :: TinyFiler.Flash_open (TinyFiler.path_str (TinyFiler.entry n f))
              :: made /\
       TinyFiler.removed made = []) /\
    (0 < n -> TinyFiler.isvalid (TinyFiler.entry n f) = true ->
     TinyFiler.isdir (TinyFiler.entry n f) = false ->
     TinyFiler.current f' = TinyFiler.current f /\
     TinyFiler.entryPoints f'
       = TinyFiler.entryPoints (TinyFiler.printDirectory (TinyFiler.listing w) f) /\
     exists made,
       TinyFiler.calls f'
         = TinyFiler.calls f
           ++ TinyFiler.Flash_open (TinyFiler.path_str (TinyFiler.entry n f))
              :: made /\
       TinyFiler.removed made = []) /\
    (0 < n -> TinyFiler.isvalid (TinyFiler.entry n f) = false ->
     TinyFiler.current f' = TinyFiler.current f /\
     TinyFiler.entryPoints f' = TinyFiler.entryPoints f /\
     TinyFiler.calls f' = TinyFiler.calls f /\
     TinyFiler.serial f'
       = TinyFiler.serial f
         ++ map TinyFiler.println_char (dec n ++ [nl])
         ++ [TinyFiler.print (txt "invalid cmd number : "); TinyFiler.print_num n;
             TinyFiler.print (txt " / 0x"); TinyFiler.println_hex n;
             TinyFiler.print TinyFiler.PROMPT]).
Proof.
  intros Hidx Hrx Hnl Hn.
  pose proof (dec_length n) as Hdl.
  destruct (loop_line w f (dec n) nl more Hidx Hrx ltac:(lia)
              ltac:(apply dec_in_line; lia) Hnl)
    as (f1 & Hloop & Hi1 & Hr1 & He1 & Hcur1 & Hc1 & Hs1).
  rewrite ParseCommand_number in Hloop by (unfold LONG_MAX; lia).
  destruct (plain_bits n Hn) as (Hdel & Hdwld & Hnone).
  rewrite Hnone in Hloop. cbn [Z.ltb Z.compare] in Hloop.
  unfold TinyFiler.execute in Hloop. rewrite Hdel, Hdwld in Hloop.
  cbn [Z.ltb Z.compare] in Hloop.
  assert (TinyFiler.entry n f1 = TinyFiler.entry n f) as Hentry.
  { unfold TinyFiler.entry. by rewrite He1. }
  rewrite Hentry in Hloop.
  change (Z.of_nat TinyFiler.MAX_ENTRY_POINT) with 64 in Hloop.
  destruct (Z.ltb_spec n 64) as [_ | ?]; [| lia]. cbn [andb] in Hloop.
  eexists. split; [exact Hloop |].
  destruct (Z.eqb_spec 0 n) as [<- | Hpos].
  { match goal with
    | |- context [TinyFiler.printDirectory ?ls ?g] =>
        destruct (printDirectory_keeps ls g) as (m & Hc & Hm & Hx & Hr & Hcur);
        pose proof (printDirectory_table ls g f) as Ht
    end.
    filer_fields. rewrite Hx, Hr, Hcur, Ht, Hc, Hc1.
    split; [done |]. split; [done |].
    split; [| repeat split; intros; lia].
    intros _. split; [done |]. split; [done |].
    exists m. by rewrite <- app_assoc. }
  destruct (TinyFiler.isvalid (TinyFiler.entry n f)) eqn:Hvalid;
    [destruct (TinyFiler.isdir (TinyFiler.entry n f)) eqn:Hdir |].
  - match goal with
    | |- context [TinyFiler.printDirectory ?ls ?g] =>
        destruct (printDirectory_keeps ls g) as (m & Hc & Hm & Hx & Hr & Hcur);
        pose proof (printDirectory_table ls g f) as Ht
    end.
    filer_fields. rewrite Hx, Hr, Hcur, Ht, Hc, Hc1.
    split; [done |]. split; [done |].
    split; [intros; lia |]. split; [| split; [done | done]].
    intros _ _ _. split; [done |]. split; [done |].
    exists m. by rewrite <- !app_assoc.
  - match goal with
    | |- context [TinyFiler.printDirectory ?ls ?g] =>
        destruct (printDirectory_keeps ls g) as (m & Hc & Hm & Hx & Hr & Hcur);
        pose proof (printDirectory_table ls g f) as Ht
    end.
    unfold TinyFiler.printContents in *. filer_fields.
    match goal with
    | |- context [TinyFiler.print_reads ?rs ?g] =>
        destruct (print_reads_keeps rs g) as (m' & Hc' & Hm' & Hx' & Hr' & Hcur' & _)
    end.
    filer_fields. rewrite Hx, Hr, Hcur, Ht, Hc, Hx', Hr', Hcur', Hc', Hc1.
    split; [done |]. split; [done |].
    split; [intros; lia |]. split; [done |]. split; [| done].
    intros _ _ _. split; [done |]. split; [done |].
    exists (m' ++ TinyFiler.File_close :: m). split.
    + by rewrite <- !app_assoc.
    + rewrite removed_app, Hm'. cbn. exact Hm.
  - filer_fields. rewrite Hc1, He1, Hs1, Hcur1.
    split; [done |]. split; [done |].
    split; [intros; lia |]. split; [done |]. split; [done |].
    intros _ _. split; [done |]. split; [done |]. split; [done |].
    by rewrite <- !app_assoc.
Qed.

(** X24.  A line of [y] or [Y] and a number sends the file listed under
    that number by YModem, always under the name [tracker.ini], and closes
    it; when the file cannot be opened, nothing is sent.  A directory, or a
    number that is not that of a valid entry, leads to no call at all.  In
    every case the table and the current directory stay as they are: the
    directory is not listed again.  The path opened and sent is the string
    read at the entry's [path], which for a file is the path itself, also
    when it fills the 64 bytes. *)
Theorem loop_sends_the_numbered_file w f letter n nl more :
  TinyFiler.idx f = 0%nat ->
  TinyFiler.rx f = letter :: dec n ++ nl :: more ->
  letter = "y"%char \/ letter = "Y"%char ->
  nl = TinyFiler.LF \/ nl = TinyFiler.CR ->
  0 <= n < 65536 ->
  exists f',
    TinyFiler.loop w f = Some f' /\
    TinyFiler.idx f' = 0%nat /\ TinyFiler.rx f' = more /\
    TinyFiler.entryPoints f' = TinyFiler.entryPoints f /\
    TinyFiler.current f' = TinyFiler.current f /\
    (n < 64 -> TinyFiler.isvalid (TinyFiler.entry n f) = true ->
     TinyFiler.isdir (TinyFiler.entry n f) = false ->
     TinyFiler.calls f'
       = TinyFiler.calls f
         ++ TinyFiler.Flash_open (TinyFiler.path_str (TinyFiler.entry n f))
            :: (if TinyFiler.opens w
                then [TinyFiler.sendFile
                        (TinyFiler.path_str (TinyFiler.entry n f))
                        (txt "tracker.ini");
                      TinyFiler.File_close]
                else [])) /\
    (64 <= n \/ TinyFiler.isvalid (TinyFiler.entry n f) = false \/
     TinyFiler.isdir (TinyFiler.entry n f) = true ->
     TinyFiler.calls f' = TinyFiler.calls f).
Proof.
  intros Hidx Hrx Hletter Hnl Hn.
  pose proof (dec_length n) as Hdl.
  assert (Forall TinyFiler.in_line (letter :: dec n)) as Hline.
  { constructor; [| apply dec_in_line; lia].
    destruct Hletter as [-> | ->]; split; discriminate. }
  destruct (loop_line w f (letter :: dec n) nl more Hidx Hrx
              ltac:(cbn [length]; lia) Hline Hnl)
    as (f1 & Hloop & Hi1 & Hr1 & He1 & Hcur1 & Hc1 & Hs1).
  rewrite (ParseCommand_letter n _ letter 20) in Hloop
    by (cbn [length]; (lia || tauto)).
  change (2 ^ 20) with 1048576 in Hloop.
  destruct (download_bits n Hn) as (Hlow & Hdel & Hdwld & Hnone).
  rewrite Hnone in Hloop. cbn [Z.ltb Z.compare] in Hloop.
  assert (TinyFiler.execute w (n + 1048576) f1
          = TinyFiler.download w (n + 1048576) f1) as Hexec.
  { unfold TinyFiler.execute.
    destruct (Z.eqb_spec 0 (n + 1048576)); [lia |].
    change (Z.of_nat TinyFiler.MAX_ENTRY_POINT) with 64.
    destruct (Z.ltb_spec (n + 1048576) 64); [lia |].
    cbn [andb]. by rewrite Hdel, Hdwld. }
  rewrite Hexec in Hloop. unfold TinyFiler.download in Hloop.
  change 0xffff with 65535 in *. rewrite Hlow in Hloop. filer_fields.
  assert (TinyFiler.entry n
            (TinyFiler.out (TinyFiler.println_num n)
               (TinyFiler.out (TinyFiler.print (txt "Download(YModem) : ")) f1))
          = TinyFiler.entry n f) as Hentry.
  { unfold TinyFiler.entry. filer_fields. by rewrite He1. }
  rewrite !Hentry in Hloop.
  change (Z.of_nat TinyFiler.MAX_ENTRY_POINT) with 64 in Hloop.
  eexists. split; [exact Hloop |].
  destruct (Z.ltb_spec n 64) as [Hlt | Hge];
    [destruct (TinyFiler.isvalid (TinyFiler.entry n f)) eqn:Hvalid;
     [destruct (TinyFiler.isdir (TinyFiler.entry n f)) eqn:Hdir;
      [| destruct (TinyFiler.opens w)] |] |];
    cbn [andb]; filer_fields; rewrite ?Hc1, ?He1, ?Hcur1;
    (split; [done |]); (split; [done |]); (split; [done |]); (split; [done |]);
    split.
  all: try done.
  all: try (intros; lia).
  all: try (intros _ _ _; by rewrite <- ?app_assoc).
  all: intros [? | [? | ?]]; (done || lia).
Qed.

Lemma QueueCommand_assembles_lines_witness :
  exists f1 f2,
    TinyFiler.QueueCommand (TinyFiler.receive (txt "d1") TinyFiler.power_on)
      = Some (TinyFiler.COMMAND_FLAG_NONE, f1) /\
    TinyFiler.QueueCommand (TinyFiler.receive (txt "2" ++ [TinyFiler.LF]) f1)
      = Some (65548, f2) /\
    TinyFiler.rx f2 = [].
Proof.
  assert (Forall TinyFiler.in_line (txt "d1")) as H1
    by (repeat constructor; discriminate).
  assert (Forall TinyFiler.in_line (txt "2")) as H2
    by (repeat constructor; discriminate).
  destruct (QueueCommand_assembles_lines TinyFiler.power_on (txt "d1") (txt "2")
              TinyFiler.LF [] eq_refl eq_refl H1 H2 (or_introl eq_refl))
    as [Hshort _].
  assert (length (txt "d1") + length (txt "2") < 64)%nat as Hlen
    by (vm_compute; lia).
  destruct (Hshort Hlen) as (f1 & f2 & Hq1 & Hq2 & _ & Hrx & _).
  exists f1, f2. split; [exact Hq1 |]. split; [exact Hq2 | exact Hrx].
Defined.

Lemma printContents_prints_each_read_witness :
  TinyFiler.calls (TinyFiler.printContents [line10; line10] TinyFiler.power_on)
    = replicate 3 TinyFiler.File_read.
Proof.
  assert (Forall (fun chunk => chunk <> [] /\ (length chunk <= 128)%nat /\
                               Forall (fun c => Ascii.eqb c NUL = false) chunk)
            [line10; line10]) as Hrs.
  { repeat constructor; (discriminate || (vm_compute; lia)). }
  apply (printContents_prints_each_read [line10; line10] TinyFiler.power_on Hrs).
Defined.

Lemma loop_deletes_the_numbered_entry_witness :
  exists f',
    TinyFiler.loop TinyFiler.full_name_flash
      (TinyFiler.receive (txt "d1" ++ [TinyFiler.LF])
         (TinyFiler.setup TinyFiler.full_name_flash TinyFiler.power_on)) = Some f' /\
    TinyFiler.rx f' = [] /\
    TinyFiler.removed (TinyFiler.calls f') = [replicate 64 "a"%char ++ ["001"%char]].
Proof.
  assert (TinyFiler.isvalid
            (TinyFiler.entry 1
               (TinyFiler.receive (txt "d1" ++ [TinyFiler.LF])
                  (TinyFiler.setup TinyFiler.full_name_flash TinyFiler.power_on)))
          = true) as Hvalid by (vm_compute; reflexivity).
  destruct (loop_deletes_the_numbered_entry TinyFiler.full_name_flash
              (TinyFiler.receive (txt "d1" ++ [TinyFiler.LF])
                 (TinyFiler.setup TinyFiler.full_name_flash TinyFiler.power_on))
              "d"%char 1 TinyFiler.LF [] eq_refl eq_refl
              (or_introl eq_refl) (or_introl eq_refl) ltac:(lia))
    as (f' & Hloop & _ & Hrx & Hdel & _).
  exists f'. split; [exact Hloop |]. split; [exact Hrx |].
  destruct (Hdel ltac:(lia) Hvalid) as [(made & Hcalls & Hmade) _].
  rewrite Hcalls, removed_app.
  replace (TinyFiler.path_str _) with (replicate 64 "a"%char ++ ["001"%char])
    in * by (vm_compute; reflexivity).
  vm_compute TinyFiler.isdir. cbn [TinyFiler.removed].
  rewrite Hmade. vm_compute. reflexivity.
Defined.

Lemma loop_answers_an_unknown_line_witness :
  exists f',
    TinyFiler.loop TinyFiler.small_flash
      (TinyFiler.receive (txt "x" ++ [TinyFiler.LF]) TinyFiler.listed) = Some f' /\
    TinyFiler.calls f' = TinyFiler.calls TinyFiler.listed.
Proof.
  assert (Forall TinyFiler.in_line (txt "x")) as Hline
    by (repeat constructor; discriminate).
  assert (forall c, head (txt "x") = Some c ->
            digit_val c = None /\
            c <> "d"%char /\ c <> "D"%char /\ c <> "y"%char /\ c <> "Y"%char)
    as Hhead.
  { intros c [= <-]. repeat split; discriminate. }
  destruct (loop_answers_an_unknown_line TinyFiler.small_flash
              (TinyFiler.receive (txt "x" ++ [TinyFiler.LF]) TinyFiler.listed)
              (txt "x") TinyFiler.LF [] eq_refl eq_refl
              ltac:(vm_compute; lia) Hline (or_introl eq_refl) Hhead)
    as (f' & Hloop & _ & Hcalls & _).
  exists f'. split; [exact Hloop | exact Hcalls].
Defined.

Lemma loop_takes_CRLF_for_two_lines_witness :
  exists f1 f2,
    TinyFiler.loop TinyFiler.small_flash
      (TinyFiler.receive (txt "0" ++ [TinyFiler.CR; TinyFiler.LF]) TinyFiler.listed)
      = Some f1 /\
    TinyFiler.loop TinyFiler.small_flash f1 = Some f2 /\
    TinyFiler.calls f2 = TinyFiler.calls f1.
Proof.
  assert (Forall TinyFiler.in_line (txt "0")) as Hline
    by (repeat constructor; discriminate).
  destruct (loop_takes_CRLF_for_two_lines TinyFiler.small_flash TinyFiler.small_flash
              (TinyFiler.receive (txt "0" ++ [TinyFiler.CR; TinyFiler.LF])
                 TinyFiler.listed)
              (txt "0") [] eq_refl eq_refl ltac:(vm_compute; lia) Hline)
    as (f1 & f2 & Hl1 & Hl2 & _ & Hcalls & _).
  exists f1, f2. split; [exact Hl1 |]. split; [exact Hl2 | exact Hcalls].
Defined.

Lemma loop_takes_bit_24_for_no_command_witness :
  exists f',
    TinyFiler.loop TinyFiler.small_flash
      (TinyFiler.receive (txt "d-1" ++ [TinyFiler.LF]) TinyFiler.listed) = Some f' /\
    TinyFiler.serial f'
      = TinyFiler.serial TinyFiler.listed
        ++ map TinyFiler.println_char (txt "d-1" ++ [TinyFiler.LF]).
Proof.
  assert (exists letter m,
            txt "d-1" = letter :: "-"%char :: dec m /\ 1 <= m <= 2 ^ 24 /\
            (letter = "d"%char \/ letter = "D"%char \/
             letter = "y"%char \/ letter = "Y"%char)) as Hneg.
  { exists "d"%char, 1. split; [reflexivity |]. split; [lia | by left]. }
  destruct (loop_takes_bit_24_for_no_command TinyFiler.small_flash
              (TinyFiler.receive (txt "d-1" ++ [TinyFiler.LF]) TinyFiler.listed)
              (txt "d-1") TinyFiler.LF [] eq_refl eq_refl
              (or_introl eq_refl) (or_intror Hneg))
    as (f' & Hloop & Hserial & _).
  exists f'. split; [exact Hloop | exact Hserial].
Defined.

Lemma loop_removes_only_listed_entries_witness :
  exists f',
    TinyFiler.loop TinyFiler.small_flash
      (TinyFiler.receive (txt "d2" ++ [TinyFiler.LF]) TinyFiler.listed) = Some f' /\
    (TinyFiler.removed (TinyFiler.calls f')
       = TinyFiler.removed (TinyFiler.calls TinyFiler.listed) \/
     exists n ep,
       (n < 64)%nat /\ TinyFiler.entryPoints TinyFiler.listed !! n = Some ep /\
       TinyFiler.isvalid ep = true /\
       TinyFiler.removed (TinyFiler.calls f')
         = TinyFiler.removed (TinyFiler.calls TinyFiler.listed)
           ++ [c_str (TinyFiler.path ep)]).
Proof.
  destruct (TinyFiler.loop TinyFiler.small_flash
              (TinyFiler.receive (txt "d2" ++ [TinyFiler.LF]) TinyFiler.listed))
    as [f' |] eqn:Hloop; [| vm_compute in Hloop; discriminate].
  assert (Forall (fun ep => (strlen (TinyFiler.path ep)
                             < TinyFiler.MAX_PATH_LENGTH)%nat)
            (TinyFiler.entryPoints
               (TinyFiler.receive (txt "d2" ++ [TinyFiler.LF]) TinyFiler.listed)))
    as Hpaths.
  { apply Forall_forall. intros ep Hep. vm_compute in Hep.
    repeat (apply elem_of_cons in Hep as [-> | Hep]; [vm_compute; lia |]).
    by apply elem_of_nil in Hep. }
  exists f'. split; [reflexivity |].
  exact (loop_removes_only_listed_entries TinyFiler.small_flash _ f' Hloop Hpaths).
Defined.

Lemma loop_opens_the_numbered_entry_witness :
  exists f',
    TinyFiler.loop TinyFiler.small_flash
      (TinyFiler.receive (txt "2" ++ [TinyFiler.LF]) TinyFiler.listed) = Some f' /\
    TinyFiler.current f' = txt "logs".
Proof.
  destruct (loop_opens_the_numbered_entry TinyFiler.small_flash
              (TinyFiler.receive (txt "2" ++ [TinyFiler.LF]) TinyFiler.listed)
              2 TinyFiler.LF [] eq_refl eq_refl (or_introl eq_refl)
              ltac:(lia))
    as (f' & Hloop & _ & _ & _ & Hdir & _).
  exists f'. split; [exact Hloop |].
  destruct (Hdir ltac:(lia) ltac:(vm_compute; reflexivity)
              ltac:(vm_compute; reflexivity)) as [-> _].
  vm_compute. reflexivity.
Defined.

Lemma loop_sends_the_numbered_file_witness :
  exists f',
    TinyFiler.loop TinyFiler.small_flash
      (TinyFiler.receive (txt "y1" ++ [TinyFiler.LF]) TinyFiler.listed) = Some f' /\
    TinyFiler.entryPoints f' = TinyFiler.entryPoints TinyFiler.listed.
Proof.
  destruct (loop_sends_the_numbered_file TinyFiler.small_flash
              (TinyFiler.receive (txt "y1" ++ [TinyFiler.LF]) TinyFiler.listed)
              "y"%char 1 TinyFiler.LF [] eq_refl eq_refl
              (or_introl eq_refl) (or_introl eq_refl) ltac:(lia))
    as (f' & Hloop & _ & _ & Htable & _).
  exists f'. split; [exact Hloop | exact Htable].
Defined.

Lemma satellite_leds_witness :
  PosFixflag (loop ready (fix_in line10 90)) = true /\
  led1 (leds (loop ready (fix_in line10 90))) = true /\
  led2 (leds (loop ready (fix_in line10 90))) = false.
Proof.
  destruct (satellite_leds ready (fix_in line10 90) eq_refl) as (Hflag & Hfix & _).
  split; [exact Hflag |]. apply Hfix. reflexivity.
Defined.

Lemma empty_line_is_dropped_witness :
  pNmeaBuff (loop (held line10 5) (fix_in [] 90)) = Some line10 /\
  WriteCounter (loop (held line10 5) (fix_in [] 90)) = 5.
Proof.
  destruct (empty_line_is_dropped (held line10 5) (fix_in [] 90) eq_refl eq_refl eq_refl)
    as (Hb & Hw & _).
  split; [exact Hb | exact Hw].
Defined.

Lemma failed_malloc_loses_the_line_witness :
  pNmeaBuff (loop ready no_memory_in) = None /\
  flushes (loop ready no_memory_in) (fix_in line10 90) = true /\
  snapshot (loop ready no_memory_in) (fix_in line10 90) = line10.
Proof.
  assert (pNmeaBuff ready = None) as Hnone by reflexivity.
  destruct (failed_malloc_loses_the_line ready no_memory_in Hnone eq_refl eq_refl)
    as (_ & _ & Hb & _ & _ & _ & Hnext).
  split; [exact Hb |].
  apply (Hnext (fix_in line10 90)); [reflexivity | reflexivity | vm_compute; lia].
Defined.
